(** * svs_label: the BigTIFF reader, the label/macro locator and the
      in-place patch/splice engine of [label_switcher.py]

    The development embeds [BigTiffFile], [SubImage.update_ifd],
    [LabelSwitcher] and [switch_labels_from_file] as executable Rocq
    functions and proves properties of them.

    Conventions of the embedding:
    - a Python [bytes] value is a [list byte]; unsigned integers read from
      the file are [Z] with the range written out where it matters;
    - a file object and a [BytesIO] are both a [stream]: a content and a
      position, with Python's [read], [seek], [tell] and [write];
      positions and sizes from [2 ^ 63] up, where Python's [seek] and
      [bytes * n] raise, are outside what the streams model;
    - a file is identified by the text of the path that opens it: two
      texts are two files, so nothing is said of links, of relative names
      or of letter case;
    - a Python [str] is a [string] holding the text; [int], [len] and
      slicing, which work on its characters, are parameters;
    - a raised exception is a [Raise e] result; the one unbounded loop
      ([while next_offset != 0]) runs on fuel and reports [OutOfFuel];
    - a Python [dict] is an association list kept in insertion order. *)

From Stdlib Require Import ZArith List String Ascii Bool Lia.
From Stdlib.Strings Require Import Byte.
Import ListNotations.
Open Scope Z_scope.

(* ================================================================== *)
(** ** Results, exceptions *)

(** The exception classes that the modelled code can raise.  All of them
    derive from Python's [Exception] but [SystemExit], which [sys.exit()]
    raises and [except Exception] does not catch. *)
Inductive exn : Type :=
| StructError                      (* struct.error *)
| KeyError
| TypeError
| ValueError
| UnicodeDecodeError
| FileNotFoundError
| OSError
| RuntimeError (msg : string)
| Exception_ (msg : string)        (* raise Exception(...) *)
| SystemExit.                      (* sys.exit() *)

Definition class_name (e : exn) : string :=
  match e with
  | StructError => "struct.error"
  | KeyError => "KeyError"
  | TypeError => "TypeError"
  | ValueError => "ValueError"
  | UnicodeDecodeError => "UnicodeDecodeError"
  | FileNotFoundError => "FileNotFoundError"
  | OSError => "OSError"
  | RuntimeError _ => "RuntimeError"
  | Exception_ _ => "Exception"
  | SystemExit => "SystemExit"
  end.

(** [except Exception]: every class but [SystemExit]. *)
Definition is_Exception (e : exn) : bool :=
  match e with
  | SystemExit => false
  | _ => true
  end.

(** [except OSError]: the class and its subclass [FileNotFoundError]. *)
Definition is_OSError (e : exn) : bool :=
  match e with
  | OSError | FileNotFoundError => true
  | _ => false
  end.

Inductive res (A : Type) : Type :=
| Ok (a : A)
| Raise (e : exn)
| OutOfFuel.
Arguments Ok {A} a.
Arguments Raise {A} e.
Arguments OutOfFuel {A}.

Definition res_bind {A B} (m : res A) (k : A -> res B) : res B :=
  match m with
  | Ok a => k a
  | Raise e => Raise e
  | OutOfFuel => OutOfFuel
  end.

(** [d[k]] on a table given as a partial function: [KeyError] when absent. *)
Definition subscript {A} (o : option A) : res A :=
  match o with
  | Some a => Ok a
  | None => Raise KeyError
  end.

(* ================================================================== *)
(** ** Bytes and little-endian integers *)

Definition bytes := list byte.

Definition byte_to_Z (b : byte) : Z := Z.of_N (Byte.to_N b).

Definition byte_of_Z (z : Z) : byte :=
  match Byte.of_N (Z.to_N (z mod 256)) with
  | Some b => b
  | None => x00
  end.

Fixpoint le_decode (bs : bytes) : Z :=
  match bs with
  | [] => 0
  | b :: rest => byte_to_Z b + 256 * le_decode rest
  end.

Fixpoint le_encode (n : nat) (z : Z) : bytes :=
  match n with
  | O => []
  | S k => byte_of_Z z :: le_encode k (z / 256)
  end.

Definition blen (b : bytes) : Z := Z.of_nat (List.length b).

(** [data[off : off+len]] *)
Definition slice (data : bytes) (off len : Z) : bytes :=
  firstn (Z.to_nat len) (skipn (Z.to_nat off) data).

(** The byte at index [i], if any. *)
Definition byte_at (data : bytes) (i : Z) : option byte :=
  if i <? 0 then None else nth_error data (Z.to_nat i).

Definition bytes_eqb (a b : bytes) : bool :=
  if list_eq_dec Byte.byte_eq_dec a b then true else false.

Fixpoint is_prefix (p s : bytes) : bool :=
  match p, s with
  | [], _ => true
  | _ :: _, [] => false
  | a :: p', b :: s' => Byte.eqb a b && is_prefix p' s'
  end.

(** [needle in haystack] on two [bytes] values. *)
Fixpoint bytes_contains (needle hay : bytes) : bool :=
  is_prefix needle hay ||
  match hay with
  | [] => false
  | _ :: rest => bytes_contains needle rest
  end.

Definition bytes_of_string (s : string) : bytes := list_byte_of_string s.

(** [needle in s] on two [str] values. *)
Definition str_contains (needle s : string) : bool :=
  bytes_contains (bytes_of_string needle) (bytes_of_string s).

(* ================================================================== *)
(** ** The [struct] module, little-endian standard sizes ([<]) *)

Inductive fmt_char : Type :=
| Fmt_c | Fmt_b | Fmt_B | Fmt_h | Fmt_H | Fmt_i | Fmt_I
| Fmt_l | Fmt_L | Fmt_q | Fmt_Q | Fmt_f | Fmt_d.

Definition fmt_size (c : fmt_char) : Z :=
  match c with
  | Fmt_c | Fmt_b | Fmt_B => 1
  | Fmt_h | Fmt_H => 2
  | Fmt_i | Fmt_I | Fmt_l | Fmt_L | Fmt_f => 4
  | Fmt_q | Fmt_Q | Fmt_d => 8
  end.

(** One element of the tuple that [struct.unpack] returns.  A float is
    kept as its IEEE bit pattern. *)
Inductive elem : Type :=
| EInt (z : Z)
| EBytes (b : bytes)
| EFloat (bits : Z).

Definition to_signed (width : Z) (z : Z) : Z :=
  if z <? 2 ^ (8 * width - 1) then z else z - 2 ^ (8 * width).

Definition decode_elem (c : fmt_char) (b : bytes) : elem :=
  match c with
  | Fmt_c => EBytes b
  | Fmt_B | Fmt_H | Fmt_I | Fmt_L | Fmt_Q => EInt (le_decode b)
  | Fmt_b | Fmt_h | Fmt_i | Fmt_l | Fmt_q =>
      EInt (to_signed (fmt_size c) (le_decode b))
  | Fmt_f | Fmt_d => EFloat (le_decode b)
  end.

Definition PY_SSIZE_T_MAX : Z := 2 ^ 63 - 1.

(** [struct.calcsize('<' + str(count) + c)]: the total size, or
    [struct.error] ("total struct size too long") past [PY_SSIZE_T_MAX]. *)
Definition calcsize (count : Z) (c : fmt_char) : res Z :=
  if count * fmt_size c >? PY_SSIZE_T_MAX then Raise StructError
  else Ok (count * fmt_size c).

Fixpoint chunks (n : nat) (sz : nat) (data : bytes) : list bytes :=
  match n with
  | O => []
  | S k => firstn sz data :: chunks k sz (skipn sz data)
  end.

(** [struct.unpack('<' + str(count) + c, data)] *)
Definition unpack (count : Z) (c : fmt_char) (data : bytes) : res (list elem) :=
  res_bind (calcsize count c) (fun size =>
  if blen data =? size
  then Ok (map (decode_elem c) (chunks (Z.to_nat count) (Z.to_nat (fmt_size c)) data))
  else Raise StructError).

(** [struct.unpack('<H', data)[0]] *)
Definition unpack_H (data : bytes) : res Z :=
  if blen data =? 2 then Ok (le_decode data) else Raise StructError.

(** [struct.unpack('<HH', data)] *)
Definition unpack_HH (data : bytes) : res (Z * Z) :=
  if blen data =? 4
  then Ok (le_decode (slice data 0 2), le_decode (slice data 2 2))
  else Raise StructError.

(** [struct.unpack('<Q', data)[0]] *)
Definition unpack_Q (data : bytes) : res Z :=
  if blen data =? 8 then Ok (le_decode data) else Raise StructError.

(** [struct.unpack('<HHQ', data)] *)
Definition unpack_HHQ (data : bytes) : res (Z * Z * Z) :=
  if blen data =? 12
  then Ok (le_decode (slice data 0 2), le_decode (slice data 2 2),
           le_decode (slice data 4 8))
  else Raise StructError.

(** [struct.pack('<Q', v)]: [struct.error] outside [0 .. 2^64 - 1]. *)
Definition pack_Q (v : Z) : res bytes :=
  if (0 <=? v) && (v <? 2 ^ 64) then Ok (le_encode 8 v) else Raise StructError.

(** [b.decode('UTF-8')] for the at most two bytes of the byte-order mark:
    the text is the bytes themselves when they are well-formed UTF-8. *)
Definition utf8_decode2 (b : bytes) : res bytes :=
  match b with
  | [] => Ok b
  | [a] => if byte_to_Z a <? 128 then Ok b else Raise UnicodeDecodeError
  | [a; c] =>
      if ((byte_to_Z a <? 128) && (byte_to_Z c <? 128))
         || ((194 <=? byte_to_Z a) && (byte_to_Z a <=? 223)
             && (128 <=? byte_to_Z c) && (byte_to_Z c <=? 191))
      then Ok b else Raise UnicodeDecodeError
  | _ => Raise UnicodeDecodeError
  end.

(* ================================================================== *)
(** ** Python dictionaries in insertion order *)

Definition dict (V : Type) := list (Z * V).

Fixpoint dict_get {V} (k : Z) (d : dict V) : option V :=
  match d with
  | [] => None
  | (k', v) :: rest => if k =? k' then Some v else dict_get k rest
  end.

(** [d[k] = v]: an existing key keeps its place and takes the new value,
    a new key goes to the end. *)
Fixpoint dict_set {V} (k : Z) (v : V) (d : dict V) : dict V :=
  match d with
  | [] => [(k, v)]
  | (k', v') :: rest =>
      if k =? k' then (k, v) :: rest else (k', v') :: dict_set k v rest
  end.

Definition dict_keys {V} (d : dict V) : list Z := map fst d.

Definition dict_len {V} (d : dict V) : Z := Z.of_nat (List.length d).

(* ================================================================== *)
(** ** File objects and [BytesIO] *)

Record stream : Type := mkStream {
  content : bytes;
  position : Z
}.

(** Overwrite [bs] at position [p] of [data]; a position past the end is
    first padded with zero bytes, and writing nothing changes nothing. *)
Definition buf_write (data : bytes) (p : Z) (bs : bytes) : bytes :=
  match bs with
  | [] => data
  | _ =>
      let padded := data ++ repeat x00 (Z.to_nat p - List.length data) in
      firstn (Z.to_nat p) padded ++ bs ++ skipn (Z.to_nat p + List.length bs) padded
  end.

(** A computation on an open stream: it yields a result or an exception,
    and the stream as it stands afterwards (what was written before an
    exception stays written). *)
Definition io (A : Type) : Type := stream -> res A * stream.

Definition io_ret {A} (a : A) : io A := fun s => (Ok a, s).

Definition io_bind {A B} (m : io A) (k : A -> io B) : io B :=
  fun s =>
    match m s with
    | (Ok a, s') => k a s'
    | (Raise e, s') => (Raise e, s')
    | (OutOfFuel, s') => (OutOfFuel, s')
    end.

Definition io_lift {A} (r : res A) : io A := fun s => (r, s).

Declare Scope io_scope.
Delimit Scope io_scope with io.
Notation "x <- m ;; k" := (io_bind m (fun x => k))
  (at level 61, m at next level, right associativity) : io_scope.
Notation "' pat <- m ;; k" := (io_bind m (fun x => match x with pat => k end))
  (at level 61, pat pattern, m at next level, right associativity) : io_scope.
Notation "m ;;; k" := (io_bind m (fun _ => k))
  (at level 61, right associativity) : io_scope.

(** [f.read(n)] *)
Definition read (n : Z) : io bytes := fun s =>
  let chunk := slice (content s) (position s) n in
  (Ok chunk, mkStream (content s) (position s + blen chunk)).

(** [f.seek(p)]: a negative position is refused.  Python also refuses a
    position from [2 ^ 63] up, with a class that depends on the kind of
    stream; such positions are outside this model. *)
Definition seek (p : Z) : io unit := fun s =>
  if p <? 0 then (Raise ValueError, s) else (Ok tt, mkStream (content s) p).

(** [f.seek(0, os.SEEK_END)] *)
Definition seek_end : io unit := fun s =>
  (Ok tt, mkStream (content s) (blen (content s))).

(** [f.tell()] *)
Definition tell : io Z := fun s => (Ok (position s), s).

(** [f.write(bs)] *)
Definition write (bs : bytes) : io unit := fun s =>
  (Ok tt, mkStream (buf_write (content s) (position s) bs)
                   (position s + blen bs)).

Declare Scope res_scope.
Delimit Scope res_scope with res.
Notation "x <- m ;; k" := (res_bind m (fun x => k))
  (at level 61, m at next level, right associativity) : res_scope.

(** The files on disk: the text of a path names a content, or nothing.
    The text is the identity of the file. *)
Definition filesystem : Type := string -> option bytes.

Definition fs_write (path : string) (data : bytes) (fs : filesystem) : filesystem :=
  fun p => if String.eqb p path then Some data else fs p.

(** [open(path, 'rb')] and [open(path, 'rb+')]: the file must exist. *)
Definition open_file (fs : filesystem) (path : string) : res stream :=
  match fs path with
  | Some data => Ok (mkStream data 0)
  | None => Raise FileNotFoundError
  end.

(** [with open(path, 'rb') as f: body]: the result of the body. *)
Definition with_open_rb {A} (fs : filesystem) (path : string) (body : io A)
  : res A :=
  match open_file fs path with
  | Ok f => fst (body f)
  | Raise e => Raise e
  | OutOfFuel => OutOfFuel
  end.

(** [with open(path, 'rb+') as f: body]: the result of the body, and the
    disk with what the body wrote. *)
Definition with_open_rw {A} (fs : filesystem) (path : string) (body : io A)
  : res A * filesystem :=
  match open_file fs path with
  | Ok f => let (r, f') := body f in (r, fs_write path (content f') fs)
  | Raise e => (Raise e, fs)
  | OutOfFuel => (OutOfFuel, fs)
  end.

(* ================================================================== *)
(** ** The constant tables of [utils/constants.py] *)

(** Modelled from the spec: [utils/constants.py] is not part of the
    sources at hand.  The spec's TypeTable maps a value type to a byte size
    and a decode format, names the value types and decodes compression
    codes; the three tables that [label_switcher.py] imports are taken as
    parameters, so every theorem holds for any content of the tables. *)
Class Constants : Type := {
  FORMAT_CHARACTERS : Z -> option fmt_char;
  TYPE_DICT : Z -> option string;
  COMPRESSION : Z -> option string
}.

(** [d.get(k) == s] *)
Definition get_is (o : option string) (s : string) : bool :=
  match o with
  | Some t => String.eqb t s
  | None => false
  end.

(* ================================================================== *)
(** ** Decoded values *)

(** What [_ifd_value] returns: the tuple of [struct.unpack], the joined
    [bytes] of an ASCII field, or the string ['Too long to display']. *)
Inductive pyvalue : Type :=
| VTuple (l : list elem)
| VBytes (b : bytes)
| VStr (s : string).

(** [b''.join(t)]: every item must be a [bytes]. *)
Fixpoint bytes_join (l : list elem) : res bytes :=
  match l with
  | [] => Ok []
  | EBytes b :: rest => res_bind (bytes_join rest) (fun t => Ok (b ++ t))
  | _ :: _ => Raise TypeError
  end.

Definition elem_is_bytes (needle : bytes) (e : elem) : bool :=
  match e with
  | EBytes b => bytes_eqb b needle
  | _ => false
  end.

(** [needle in v] for a [bytes] needle; [None] is Python's [None].
    Membership in a tuple compares items, containment in [bytes] searches a
    substring, and [None] and [str] raise [TypeError]. *)
Definition bytes_in (needle : bytes) (v : option pyvalue) : res bool :=
  match v with
  | None => Raise TypeError
  | Some (VTuple l) => Ok (existsb (elem_is_bytes needle) l)
  | Some (VBytes b) => Ok (bytes_contains needle b)
  | Some (VStr _) => Raise TypeError
  end.

(* ================================================================== *)
(** ** [class BigTiffFile] *)

(** One value of [IFD_info]: the fields of a tag record. *)
Record ifd_entry : Type := mkEntry {
  pre_tag_offset : Z;
  ifd_type : Z;
  ifd_count : Z;
  pre_data_offset : Z;
  data_offset : Z;
  value : pyvalue
}.

(** One value of [next_dir_offsets]. *)
Record next_dir : Type := mkNextDir {
  pre_offset_offset : Z;
  next_ifd_offset : Z;
  nd_directory_offset : Z
}.

(** The dictionary stored in [_label] and in [_macro]. *)
Record aux_image : Type := mkAux {
  aux_directory : Z;
  aux_ifd_info : dict ifd_entry;
  strip_offset : Z;
  strip_byte_counts : Z
}.

Record BigTiffFile : Type := mkTiff {
  file_path : option string;          (* [None]: built from a [BytesIO] *)
  tiff_info : dict (dict ifd_entry);
  next_dir_offsets : dict next_dir;
  directory_offsets : dict Z;
  directory_count : Z;
  _label : option aux_image;
  _macro : option aux_image
}.

(** The attributes that [__init__] sets before it reads anything. *)
Definition new_BigTiffFile (path : option string) : BigTiffFile :=
  mkTiff path [] [] [] 0 None None.

Definition II : bytes := [x49; x49].

Section Reader.
Context {K : Constants}.
Open Scope io_scope.

Definition _read_header : io Z :=
  e <- read 2 ;;
  endian <- io_lift (utf8_decode2 e) ;;
  v <- read 2 ;;
  version <- io_lift (unpack_H v) ;;
  o <- read 4 ;;
  '(offset_size, reserved) <- io_lift (unpack_HH o) ;;
  i <- read 8 ;;
  initial_offset <- io_lift (unpack_Q i) ;;
  if negb (bytes_eqb endian II) || negb (version =? 43)
     || negb (offset_size =? 8) || negb (reserved =? 0)
  then io_lift (Raise (Exception_ "File Not Supported"))
  else io_ret initial_offset.

Definition _ifd_value (ifd_tag ifd_type ifd_count pre_data_offset data_offset : Z)
  : io pyvalue :=
  c <- io_lift (subscript (FORMAT_CHARACTERS ifd_type)) ;;
  length <- io_lift (calcsize ifd_count c) ;;
  if length <=? 8 then
    start <- tell ;;
    seek pre_data_offset ;;;
    b <- read length ;;
    value <- io_lift (unpack ifd_count c b) ;;
    seek start ;;;
    io_ret (VTuple value)
  else if (ifd_tag =? 270) || (ifd_tag =? 258) then
    current_position <- tell ;;
    seek data_offset ;;;
    b <- read length ;;
    value <- io_lift (unpack ifd_count c b) ;;
    value' <- (if get_is (TYPE_DICT ifd_type) "ASCII"
               then io_lift (res_bind (bytes_join value) (fun j => Ok (VBytes j)))
               else io_ret (VTuple value)) ;;
    seek current_position ;;;
    io_ret value'
  else io_ret (VStr "Too long to display").

(** The body of [for _ in range(num_of_entries)], [n] iterations. *)
Fixpoint read_entries (n : nat) (IFD_info : dict ifd_entry) : io (dict ifd_entry) :=
  match n with
  | O => io_ret IFD_info
  | S k =>
      tag_offset <- tell ;;
      h <- read 12 ;;
      '(IFD_tag, IFD_type, IFD_count) <- io_lift (unpack_HHQ h) ;;
      pre_data_offset <- tell ;;
      d <- read 8 ;;
      data_offset <- io_lift (unpack_Q d) ;;
      v <- _ifd_value IFD_tag IFD_type IFD_count pre_data_offset data_offset ;;
      read_entries k
        (dict_set IFD_tag
           (mkEntry tag_offset IFD_type IFD_count pre_data_offset data_offset v)
           IFD_info)
  end.

Definition _read_IFDs (self : BigTiffFile) (directory_offset : Z)
  : io (BigTiffFile * Z) :=
  let directory_count' := directory_count self + 1 in
  seek directory_offset ;;;
  n <- read 8 ;;
  num_of_entries <- io_lift (unpack_Q n) ;;
  IFD_info <- read_entries (Z.to_nat num_of_entries) [] ;;
  offset_before_next_ifd_offset <- tell ;;
  p <- read 8 ;;
  next_ifd_offset <- io_lift (unpack_Q p) ;;
  io_ret
    (mkTiff (file_path self)
       (dict_set directory_count' IFD_info (tiff_info self))
       (dict_set directory_count'
          (mkNextDir offset_before_next_ifd_offset next_ifd_offset directory_offset)
          (next_dir_offsets self))
       (dict_set directory_count' directory_offset (directory_offsets self))
       directory_count' (_label self) (_macro self),
     next_ifd_offset).

(** [while next_offset != 0: next_offset = self._read_IFDs(bigtiff, next_offset)] *)
Fixpoint read_chain (fuel : nat) (self : BigTiffFile) (next_offset : Z)
  : io BigTiffFile :=
  if next_offset =? 0 then io_ret self
  else match fuel with
       | O => io_lift OutOfFuel
       | S fuel' =>
           '(self', next_offset') <- _read_IFDs self next_offset ;;
           read_chain fuel' self' next_offset'
       end.

Close Scope io_scope.
Open Scope res_scope.

Definition option_value (o : option ifd_entry) : option pyvalue :=
  match o with
  | Some e => Some (value e)
  | None => None
  end.

(** [a or b or c] on the label test, evaluated left to right. *)
Definition label_test (compression : Z) (image_description : option pyvalue)
  : res bool :=
  if get_is (COMPRESSION compression) "LZW" then Ok true
  else
    l <- bytes_in (bytes_of_string "label") image_description ;;
    if l then Ok true
    else bytes_in (bytes_of_string "Label") image_description.

Definition macro_test (compression : Z) (image_description : option pyvalue)
  : res bool :=
  if get_is (COMPRESSION compression) "JPEG"
     || get_is (COMPRESSION compression) "JPEG 7" then Ok true
  else
    m <- bytes_in (bytes_of_string "macro") image_description ;;
    if m then Ok true
    else bytes_in (bytes_of_string "Macro") image_description.

(** The dictionary literal assigned to [_label] or [_macro]. *)
Definition aux_of (directory : Z) (info : dict ifd_entry) : res aux_image :=
  e273 <- subscript (dict_get 273 info) ;;
  e279 <- subscript (dict_get 279 info) ;;
  Ok (mkAux directory info (data_offset e273) (data_offset e279)).

Definition set_label (self : BigTiffFile) (l : option aux_image) : BigTiffFile :=
  mkTiff (file_path self) (tiff_info self) (next_dir_offsets self)
    (directory_offsets self) (directory_count self) l (_macro self).

Definition set_macro (self : BigTiffFile) (m : option aux_image) : BigTiffFile :=
  mkTiff (file_path self) (tiff_info self) (next_dir_offsets self)
    (directory_offsets self) (directory_count self) (_label self) m.

Definition _get_label_and_macro_info (self : BigTiffFile) : res BigTiffFile :=
  let proposed_label_directory := dict_len (tiff_info self) - 1 in
  let proprosed_macro_directory := dict_len (tiff_info self) in
  ldir <- subscript (dict_get proposed_label_directory (tiff_info self)) ;;
  e259 <- subscript (dict_get 259 ldir) ;;
  let label_compression := data_offset e259 in
  let image_description := option_value (dict_get 270 ldir) in
  is_label <- label_test label_compression image_description ;;
  self1 <- (if is_label
            then a <- aux_of proposed_label_directory ldir ;;
                 Ok (set_label self (Some a))
            else Ok self) ;;
  mdir <- subscript (dict_get proprosed_macro_directory (tiff_info self1)) ;;
  m259 <- subscript (dict_get 259 mdir) ;;
  let macro_compression := data_offset m259 in
  let image_description := option_value (dict_get 270 mdir) in
  is_macro <- macro_test macro_compression image_description ;;
  if is_macro
  then a <- aux_of proprosed_macro_directory mdir ;;
       Ok (set_macro self1 (Some a))
  else Ok self1.

(** [__init__] on a [BytesIO]: header and directory chain, read from the
    stream's current position; the label and macro are not looked for. *)
Definition BigTiffFile_of_stream (fuel : nat) : io BigTiffFile :=
  io_bind _read_header (read_chain fuel (new_BigTiffFile None)).

(** [__init__] on a path. *)
Definition BigTiffFile_of_path (fuel : nat) (fs : filesystem) (path : string)
  : res BigTiffFile :=
  self <- with_open_rb fs path
            (io_bind _read_header (read_chain fuel (new_BigTiffFile (Some path)))) ;;
  _get_label_and_macro_info self.

(** [str(self.file_path)] *)
Definition path_text (self : BigTiffFile) : string :=
  match file_path self with
  | Some p => p
  | None => "<_io.BytesIO object>"
  end.


(** [self._label[key]] and [self._macro[key]]: subscripting [None] raises
    [TypeError]. *)
Definition aux_field {A} (o : option aux_image) (f : aux_image -> A) : res A :=
  match o with
  | Some a => Ok (f a)
  | None => Raise TypeError
  end.

(** [tiff.seek(off); tiff.write(b'\0' * count)]; a count from [2 ^ 63] up,
    for which [b'\0' * count] raises, is outside this model. *)
Definition zero_fill (off count : Z) : io unit :=
  io_bind (seek off) (fun _ => write (repeat x00 (Z.to_nat count))).

(** A method that writes to the disk returns its result and the disk. *)
Definition de_identify_slide (self : BigTiffFile) (fs : filesystem)
  : res unit * filesystem :=
  match
    (label_strip_offset <- aux_field (_label self) strip_offset ;;
     label_byte_count <- aux_field (_label self) strip_byte_counts ;;
     macro_strip_offset <- aux_field (_macro self) strip_offset ;;
     macro_byte_count <- aux_field (_macro self) strip_byte_counts ;;
     if str_contains "DigitalPathology" (path_text self)
     then Raise (RuntimeError "Cannot remove labels in provided directory!!")
     else Ok (label_strip_offset, label_byte_count,
              macro_strip_offset, macro_byte_count))
  with
  | Ok (label_strip_offset, label_byte_count,
        macro_strip_offset, macro_byte_count) =>
      match file_path self with
      | Some path =>
          with_open_rw fs path
            (io_bind (zero_fill label_strip_offset label_byte_count)
               (fun _ => zero_fill macro_strip_offset macro_byte_count))
      | None => (Raise TypeError, fs)       (* [open] of a [BytesIO] *)
      end
  | Raise e => (Raise e, fs)
  | OutOfFuel => (OutOfFuel, fs)
  end.

(** The property [label_IFD_offset_adjustment]. *)
Definition label_IFD_offset_adjustment (self : BigTiffFile) : res Z :=
  d <- aux_field (_label self) aux_directory ;;
  subscript (dict_get d (directory_offsets self)).

Definition _get_label_data (self : BigTiffFile) (fs : filesystem) : res bytes :=
  label_strip_offset <- aux_field (_label self) strip_offset ;;
  label_byte_count <- aux_field (_label self) strip_byte_counts ;;
  match file_path self with
  | Some path =>
      with_open_rb fs path
        (io_bind (seek label_strip_offset) (fun _ => read label_byte_count))
  | None => Raise TypeError                 (* [open] of a [BytesIO] *)
  end.

Close Scope res_scope.
End Reader.

(* ================================================================== *)
(** ** [class SubImage] *)

Inductive file_type : Type := Label | Macro.

(** A cell of the table of slides, or a label text: a string, an integer
    or a missing value (NaN). *)
Inductive cell : Type :=
| CStr (s : string)
| CInt (z : Z)
| CNaN.

(** The imaging libraries.  [_create_label] and [_create_macro] draw with
    Pillow and qrcode, and [create_image] hands the picture to numpy and to
    [BigTiffMaker] of [utils/tiffwriter.py], which is not part of the
    sources at hand.  The calls into these libraries are parameters; each
    returns its result or raises.
    - [ImageFont_truetype name] is [ImageFont.truetype(name, size=30)];
    - [Image_new_red dims] is [Image.new('RGB', dims, 'red')];
    - [draw_label font params] is what [_create_label] draws once it has
      its font: the QR code of [params[0]], the text RUO and the lines
      [params[1:]];
    - [BigTiffMaker_create_image img role] is
      [BigTiffMaker(np.array(img), role).create_image()], a [BytesIO]. *)
Class ImageBuilder : Type := {
  font : Type;
  image : Type;
  ImageFont_truetype : string -> res font;
  Image_new_red : Z * Z -> res image;
  draw_label : font -> option (list (option cell)) -> res image;
  BigTiffMaker_create_image : image -> file_type -> res stream
}.

Section Creator.
Context {B : ImageBuilder}.

Definition _create_macro : res image := Image_new_red (1495, 606).

(** The font is looked for under two names; when both raise [OSError] the
    method prints FONT NOT FOUND ERROR and calls [sys.exit()]. *)
Definition _create_label (label_params : option (list (option cell)))
  : res image :=
  res_bind
    (match ImageFont_truetype "arial.ttf" with
     | Raise e =>
         if is_OSError e then
           match ImageFont_truetype "Arial.ttf" with
           | Raise e' => if is_OSError e' then Raise SystemExit else Raise e'
           | myFont => myFont
           end
         else Raise e
     | myFont => myFont
     end)
    (fun myFont => draw_label myFont label_params).

(** [SubImage(file_type, label_params).create_image()] *)
Definition create_image (ft : file_type)
  (label_params : option (list (option cell))) : res stream :=
  res_bind
    (match ft with
     | Label => _create_label label_params
     | Macro => _create_macro
     end)
    (fun img => BigTiffMaker_create_image img ft).

End Creator.

Section Patcher.
Context {K : Constants}.
Open Scope io_scope.

(** The body of [for tag in tiff_data.tiff_info[1].keys()]. *)
Definition patch_entry (info : dict ifd_entry) (offset_adjustment : Z) (tag : Z)
  : io unit :=
  e <- io_lift (subscript (dict_get tag info)) ;;
  c <- io_lift (subscript (FORMAT_CHARACTERS (ifd_type e))) ;;
  length <- io_lift (calcsize (ifd_count e) c) ;;
  if (length >? 8) || (tag =? 273) then
    let new_offset := data_offset e + offset_adjustment - 16 in
    updated_offset <- io_lift (pack_Q new_offset) ;;
    seek (pre_data_offset e) ;;;
    write updated_offset
  else io_ret tt.

Fixpoint patch_entries (info : dict ifd_entry) (offset_adjustment : Z)
  (tags : list Z) : io unit :=
  match tags with
  | [] => io_ret tt
  | tag :: rest =>
      patch_entry info offset_adjustment tag ;;;
      patch_entries info offset_adjustment rest
  end.

(** [update_ifd]: the stream is the [BytesIO] passed as [file]; the result
    is the new value of [self._label_offset_adjustment]. *)
Definition update_ifd (ft : file_type) (fuel : nat) (offset_adjustment : Z)
  : io (option Z) :=
  tiff_data <- BigTiffFile_of_stream fuel ;;
  let dir_offsets := next_dir_offsets tiff_data in
  info <- io_lift (subscript (dict_get 1 (tiff_info tiff_data))) ;;
  patch_entries info offset_adjustment (dict_keys info) ;;;
  match ft with
  | Label =>
      nd <- io_lift (subscript (dict_get 1 dir_offsets)) ;;
      let end_of_ifd := pre_offset_offset nd in
      seek_end ;;;
      end_of_file <- tell ;;
      let new_next_ifd_offset := end_of_file + offset_adjustment in
      new_next_ifd <- io_lift (pack_Q new_next_ifd_offset) ;;
      seek end_of_ifd ;;;
      write new_next_ifd ;;;
      io_ret (Some new_next_ifd_offset)
  | Macro => io_ret None
  end.

Close Scope io_scope.
End Patcher.

(* ================================================================== *)
(** ** [class LabelSwitcher] *)

Record LabelSwitcher : Type := mkSwitcher {
  slide_path : string;
  _slide_offset_adjustment : Z;
  _next_ifd_offset_adjustment : Z;
  _label_img : stream;
  _macro_img : stream
}.

Section Switcher.
Context {K : Constants} {B : ImageBuilder}.
Open Scope res_scope.

Definition _get_slide_offset (fuel : nat) (slide_path : string)
  (remove_label_and_macro : bool) (fs : filesystem) : res Z * filesystem :=
  match BigTiffFile_of_path fuel fs slide_path with
  | Ok slide =>
      if remove_label_and_macro then
        match de_identify_slide slide fs with
        | (Ok _, fs') => (label_IFD_offset_adjustment slide, fs')
        | (Raise e, fs') => (Raise e, fs')
        | (OutOfFuel, fs') => (OutOfFuel, fs')
        end
      else (label_IFD_offset_adjustment slide, fs)
  | Raise e => (Raise e, fs)
  | OutOfFuel => (OutOfFuel, fs)
  end.

(** [offset_adjustment] is read after [update_ifd] on a label, which always
    sets it; the [None] it starts with is not reached here. *)
Definition _get_label_img (fuel : nat) (_slide_offset_adjustment : Z)
  (label_params : list (option cell)) : res (Z * stream) :=
  label_image <- create_image Label (Some label_params) ;;
  match update_ifd Label fuel _slide_offset_adjustment label_image with
  | (Ok (Some next_ifd_offset), label_image') => Ok (next_ifd_offset, label_image')
  | (Ok None, _) => Raise TypeError
  | (Raise e, _) => Raise e
  | (OutOfFuel, _) => OutOfFuel
  end.

Definition _get_macro_img (fuel : nat) (_next_ifd_offset_adjustment : Z)
  : res stream :=
  macro_image <- create_image Macro None ;;
  match update_ifd Macro fuel _next_ifd_offset_adjustment macro_image with
  | (Ok _, macro_image') => Ok macro_image'
  | (Raise e, _) => Raise e
  | (OutOfFuel, _) => OutOfFuel
  end.

(** [LabelSwitcher.__init__] *)
Definition LabelSwitcher_init (fuel : nat) (slide_path : string)
  (remove_original_label_and_macro : bool)
  (qrcode text_line1 text_line2 text_line3 text_line4 : option cell)
  (fs : filesystem) : res LabelSwitcher * filesystem :=
  let label_params := [qrcode; text_line1; text_line2; text_line3; text_line4] in
  match _get_slide_offset fuel slide_path remove_original_label_and_macro fs with
  | (Ok slide_offset, fs') =>
      (p <- _get_label_img fuel slide_offset label_params ;;
       let '(next_ifd_offset, label_img) := p in
       macro_img <- _get_macro_img fuel next_ifd_offset ;;
       Ok (mkSwitcher slide_path slide_offset next_ifd_offset label_img macro_img),
       fs')
  | (Raise e, fs') => (Raise e, fs')
  | (OutOfFuel, fs') => (OutOfFuel, fs')
  end.

(** [img.seek(16); img.read()]: the content from byte 16 on. *)
Definition body_of (img : stream) : bytes := skipn 16 (content img).

Definition switch_labels (self : LabelSwitcher) (fs : filesystem)
  : res unit * filesystem :=
  let label_data := body_of (_label_img self) in
  let macro_data := body_of (_macro_img self) in
  with_open_rw fs (slide_path self)
    (io_bind (seek (_slide_offset_adjustment self)) (fun _ =>
     io_bind (write label_data) (fun _ =>
     io_bind (seek (_next_ifd_offset_adjustment self)) (fun _ =>
     write macro_data)))).

Close Scope res_scope.
End Switcher.

(* ================================================================== *)
(** ** [switch_labels_from_file] *)

(** [pathlib] is a library: a path is represented by its text, and the
    operations the batch driver uses are taken as parameters. *)
Class Pathlib : Type := {
  Path : string -> string;
  path_name : string -> string;
  path_suffix : string -> string;
  path_stem : string -> string;
  joinpath : string -> string -> string
}.

(** The operations on text that are built into Python.  They work on the
    characters of a [str] and are taken as parameters:
    - [int_value s] is [int(s)], with [None] for [ValueError];
    - [len_of s] is [len(s)];
    - [prefix n s] is [s[:n]]. *)
Class Builtins : Type := {
  int_value : string -> option Z;
  len_of : string -> Z;
  prefix : Z -> string -> string
}.

(** [int(s)] on a text. *)
Definition py_int {T : Builtins} (s : string) : res Z :=
  match int_value s with
  | Some z => Ok z
  | None => Raise ValueError
  end.

(** One record of the table: its columns by header. *)
Definition row : Type := list (string * cell).

Fixpoint row_get (r : row) (header : string) : res cell :=
  match r with
  | [] => Raise KeyError
  | (h, c) :: rest => if String.eqb h header then Ok c else row_get rest header
  end.

(** What the driver prints. *)
Inductive printed : Type :=
| Warning (text : string)
| Failure (e : exn).

(** [len(text)]: defined on a string only. *)
Definition py_len {T : Builtins} (c : cell) : res Z :=
  match c with
  | CStr s => Ok (len_of s)
  | _ => Raise TypeError
  end.

(** The arguments of one [LabelSwitcher] call. *)
Record job : Type := mkJob {
  job_path : string;
  job_qr : option cell;
  job_line1 : option cell;
  job_line2 : option cell;
  job_line3 : option cell;
  job_line4 : option cell
}.

Section Batch.
Context {K : Constants} {B : ImageBuilder} {P : Pathlib} {T : Builtins}.
Open Scope res_scope.

(** A step of the loop body that may print: its result and what it
    printed, kept when an exception follows. *)
Definition say (A : Type) : Type := res A * list printed.

Definition say_bind {A C} (m : say A) (k : A -> say C) : say C :=
  match m with
  | (Ok a, out) => let (r, out') := k a in (r, (out ++ out')%list)
  | (Raise e, out) => (Raise e, out)
  | (OutOfFuel, out) => (OutOfFuel, out)
  end.

Definition quiet {A} (r : res A) : say A := (r, []).

(** The [try: ... except KeyError] around one text column: the text or
    [None], with a warning when the text is long. *)
Definition read_text (r : row) (text_head : string) : say (option cell) :=
  match row_get r text_head with
  | Ok text1 =>
      match py_len text1 with
      | Ok n =>
          (Ok (Some text1),
           if 60 <=? n
           then match text1 with CStr s => [Warning s] | _ => [] end
           else [])
      | Raise KeyError => (Ok None, [])
      | Raise e => (Raise e, [])
      | OutOfFuel => (OutOfFuel, [])
      end
  | Raise KeyError => (Ok None, [])
  | Raise e => (Raise e, [])
  | OutOfFuel => (OutOfFuel, [])
  end.

(** [Path(x)]: defined on a string only. *)
Definition Path_of (c : cell) : res string :=
  match c with
  | CStr s => Ok (Path s)
  | _ => Raise TypeError
  end.

(** [slide_path] as the loop body computes it. *)
Definition resolve_path (slide_dir : option string) (slide : string) : string :=
  match slide_dir with
  | Some dir =>
      let slide_name :=
        if negb (String.eqb (path_suffix slide) ".svs")
        then (path_name slide ++ ".svs")%string
        else path_name slide in
      joinpath (Path dir) slide_name
  | None => Path slide
  end.

(** The loop body up to and including the slide-number test: [Ok None] is
    [continue], [Ok (Some j)] goes on to the [try] block. *)
Definition prepare_row (col_with_slide_names : string) (slide_dir : option string)
  (r : row) : say (option job) :=
  say_bind (quiet (row_get r col_with_slide_names)) (fun c =>
  say_bind (quiet (Path_of c)) (fun slide =>
  let slide_path := resolve_path slide_dir slide in
  if str_contains "DigitalPathology" slide_path
  then quiet (Raise (RuntimeError "Cannot remove labels in provided directory!!"))
  else
    let qr_data := match row_get r "QR" with Ok q => Some q | _ => None end in
    say_bind (read_text r "line1") (fun t1 =>
    say_bind (read_text r "line2") (fun t2 =>
    say_bind (read_text r "line3") (fun t3 =>
    say_bind (read_text r "line4") (fun t4 =>
    say_bind (quiet (py_int (prefix 5 (path_stem (Path slide_path))))) (fun n =>
    if n <? 563 then quiet (Ok None)
    else quiet (Ok (Some (mkJob slide_path qr_data t1 t2 t3 t4)))))))))).

(** The [try] block: build the switcher and switch the labels. *)
Definition run_job (fuel : nat) (j : job) (fs : filesystem)
  : res unit * filesystem :=
  match LabelSwitcher_init fuel (job_path j) true (job_qr j)
          (job_line1 j) (job_line2 j) (job_line3 j) (job_line4 j) fs with
  | (Ok label_switcher, fs') => switch_labels label_switcher fs'
  | (Raise e, fs') => (Raise e, fs')
  | (OutOfFuel, fs') => (OutOfFuel, fs')
  end.

(** One iteration of [for index, row in df.iterrows()]: the result
    ([Raise] leaves the loop), the disk and what was printed.  The
    handler [except Exception] catches every class but [SystemExit]. *)
Definition process_row (fuel : nat) (col_with_slide_names : string)
  (slide_dir : option string) (r : row) (fs : filesystem)
  : res unit * filesystem * list printed :=
  match prepare_row col_with_slide_names slide_dir r with
  | (Ok None, out) => (Ok tt, fs, out)
  | (Ok (Some j), out) =>
      match run_job fuel j fs with
      | (Ok _, fs') => (Ok tt, fs', out)
      | (Raise e, fs') =>
          if is_Exception e then (Ok tt, fs', (out ++ [Failure e])%list)
          else (Raise e, fs', out)
      | (OutOfFuel, fs') => (OutOfFuel, fs', out)
      end
  | (Raise e, out) => (Raise e, fs, out)
  | (OutOfFuel, out) => (OutOfFuel, fs, out)
  end.

(** The loop of [switch_labels_from_file] over the rows of the table that
    pandas has read. *)
Fixpoint switch_labels_from_file (fuel : nat) (df : list row)
  (col_with_slide_names : string) (slide_dir : option string)
  (fs : filesystem) : res unit * filesystem * list printed :=
  match df with
  | [] => (Ok tt, fs, [])
  | r :: rest =>
      match process_row fuel col_with_slide_names slide_dir r fs with
      | (Ok _, fs', out) =>
          let '(result, fs'', out') :=
            switch_labels_from_file fuel rest col_with_slide_names slide_dir fs' in
          (result, fs'', (out ++ out')%list)
      | (Raise e, fs', out) => (Raise e, fs', out)
      | (OutOfFuel, fs', out) => (OutOfFuel, fs', out)
      end
  end.

(** The number of a record's slide:
    [int(Path(slide_path).stem[:5])]. *)
Definition slide_number (col_with_slide_names : string)
  (slide_dir : option string) (r : row) : res Z :=
  c <- row_get r col_with_slide_names ;;
  slide <- Path_of c ;;
  py_int (prefix 5 (path_stem (Path (resolve_path slide_dir slide)))).

Close Scope res_scope.
End Batch.

(* ================================================================== *)
(** ** What is on disk, read without a stream

    The directory at offset [off] of [data], described from the layout
    alone: an 8-byte count, 20-byte records (2-byte tag, 2-byte type,
    8-byte count, 8-byte slot) and an 8-byte next-directory offset. *)

Section Layout.
Context {K : Constants}.
Open Scope res_scope.

Definition record_offset (off i : Z) : Z := off + 8 + 20 * i.

Definition entry_count (data : bytes) (off : Z) : Z :=
  le_decode (slice data off 8).

(** The value of a field of [count] items of type [ty] whose slot starts at
    [pre] and holds [slot]: read in place when it takes at most 8 bytes,
    read at [slot] for the tags 270 and 258, not read otherwise. *)
Definition value_at (data : bytes) (tag ty count pre slot : Z) : res pyvalue :=
  c <- subscript (FORMAT_CHARACTERS ty) ;;
  length <- calcsize count c ;;
  if length <=? 8 then
    v <- unpack count c (slice data pre length) ;;
    Ok (VTuple v)
  else if (tag =? 270) || (tag =? 258) then
    v <- unpack count c (slice data slot length) ;;
    if get_is (TYPE_DICT ty) "ASCII"
    then j <- bytes_join v ;; Ok (VBytes j)
    else Ok (VTuple v)
  else Ok (VStr "Too long to display").

(** Record number [i] (from 0) of the directory at [off]: its tag and its
    fields. *)
Definition entry_at (data : bytes) (off i : Z) : res (Z * ifd_entry) :=
  let p := record_offset off i in
  let tag := le_decode (slice data p 2) in
  let ty := le_decode (slice data (p + 2) 2) in
  let count := le_decode (slice data (p + 4) 8) in
  let slot := le_decode (slice data (p + 12) 8) in
  v <- value_at data tag ty count (p + 12) slot ;;
  Ok (tag, mkEntry p ty count (p + 12) slot v).

(** The records [i], [i+1], ... [i+n-1] in file order. *)
Fixpoint entries_from (data : bytes) (off i : Z) (n : nat)
  : res (list (Z * ifd_entry)) :=
  match n with
  | O => Ok []
  | S k =>
      e <- entry_at data off i ;;
      rest <- entries_from data off (i + 1) k ;;
      Ok (e :: rest)
  end.

(** All the records of the directory at [off], provided the file holds
    the count, the records and the next-directory offset. *)
Definition on_disk_entries (data : bytes) (off : Z) : res (list (Z * ifd_entry)) :=
  if (0 <=? off) && (record_offset off (entry_count data off) + 8 <=? blen data)
  then entries_from data off 0 (Z.to_nat (entry_count data off))
  else Raise StructError.

Definition on_disk_next (data : bytes) (off : Z) : Z :=
  le_decode (slice data (record_offset off (entry_count data off)) 8).

(** The encoded length of an entry: count times the byte size of its type. *)
Definition encoded_length (e : ifd_entry) : option Z :=
  option_map (fun c => ifd_count e * fmt_size c) (FORMAT_CHARACTERS (ifd_type e)).

(** The test of [update_ifd]: the value is external, or the tag is 273. *)
Definition is_patched (tag : Z) (e : ifd_entry) : bool :=
  match encoded_length e with
  | Some length => (length >? 8) || (tag =? 273)
  | None => false
  end.

(** Every value that [update_ifd] writes for insertion point [p] fits an
    unsigned 64-bit field. *)
Definition patches_fit (info : dict ifd_entry) (p : Z) : bool :=
  forallb (fun te : Z * ifd_entry =>
             negb (is_patched (fst te) (snd te))
             || ((0 <=? data_offset (snd te) + p - 16)
                 && (data_offset (snd te) + p - 16 <? 2 ^ 64))) info.

(** Every value slot of the directory lies inside [len] bytes and belongs
    to an entry whose type and size are known. *)
Definition slots_ok (info : dict ifd_entry) (len : Z) : Prop :=
  forall tag e, dict_get tag info = Some e ->
    0 <= pre_data_offset e /\ pre_data_offset e + 8 <= len /\
    exists c, FORMAT_CHARACTERS (ifd_type e) = Some c /\
              calcsize (ifd_count e) c = Ok (ifd_count e * fmt_size c).

(** The value slots of two entries with different tags do not overlap. *)
Definition slots_apart (info : dict ifd_entry) : Prop :=
  forall t1 e1 t2 e2,
    dict_get t1 info = Some e1 -> dict_get t2 info = Some e2 -> t1 <> t2 ->
    pre_data_offset e1 + 8 <= pre_data_offset e2 \/
    pre_data_offset e2 + 8 <= pre_data_offset e1.

Close Scope res_scope.
End Layout.

(** Byte [i] belongs to the strip that the descriptor names. *)
Definition in_strip (a : aux_image) (i : Z) : bool :=
  (strip_offset a <=? i) && (i <? strip_offset a + strip_byte_counts a).

(** The strip that the descriptor names lies inside [len] bytes. *)
Definition strip_inside (a : aux_image) (len : Z) : Prop :=
  0 <= strip_offset a /\ 0 <= strip_byte_counts a /\
  strip_offset a + strip_byte_counts a <= len.

(** Assigning the records to a dictionary, in order. *)
Definition dict_of_list {V} (l : list (Z * V)) : dict V :=
  fold_left (fun d kv => dict_set (fst kv) (snd kv) d) l [].

(** The keys of a list of records in order of first occurrence, leaving
    out those already [seen]. *)
Fixpoint first_occurrences (seen ks : list Z) : list Z :=
  match ks with
  | [] => []
  | k :: rest =>
      if existsb (Z.eqb k) seen then first_occurrences seen rest
      else k :: first_occurrences (seen ++ [k]) rest
  end.

(** The value of the last record with key [k]. *)
Fixpoint last_assoc {V} (k : Z) (l : list (Z * V)) : option V :=
  match l with
  | [] => None
  | (k', v) :: rest =>
      match last_assoc k rest with
      | Some v' => Some v'
      | None => if k =? k' then Some v else None
      end
  end.

(** A container starts with [II], version 43, offset size 8, reserved 0 and
    the 8-byte offset of the first directory. *)
Definition valid_header (data : bytes) : bool :=
  bytes_eqb (slice data 0 8) [x49; x49; x2b; x00; x08; x00; x00; x00]
  && (16 <=? blen data).

Definition first_directory (data : bytes) : Z := le_decode (slice data 8 8).

(* ================================================================== *)
(** ** Sample tables, containers and paths for concrete runs *)

(** The baseline TIFF codes for value types and compression schemes. *)
Definition tiff_tables : Constants := {|
  FORMAT_CHARACTERS := fun ty =>
    match ty with
    | 1 => Some Fmt_B | 2 => Some Fmt_c | 3 => Some Fmt_H | 4 => Some Fmt_I
    | 6 => Some Fmt_b | 8 => Some Fmt_h | 9 => Some Fmt_i
    | 11 => Some Fmt_f | 12 => Some Fmt_d
    | 16 => Some Fmt_Q | 17 => Some Fmt_q
    | _ => None
    end;
  TYPE_DICT := fun ty =>
    match ty with
    | 1 => Some "BYTE" | 2 => Some "ASCII" | 3 => Some "SHORT"
    | 4 => Some "LONG" | 16 => Some "LONG8"
    | _ => None
    end%string;
  COMPRESSION := fun c =>
    match c with
    | 1 => Some "Uncompressed" | 5 => Some "LZW" | 7 => Some "JPEG"
    | _ => None
    end%string
|}.

Definition u16 (z : Z) : bytes := le_encode 2 z.
Definition u64 (z : Z) : bytes := le_encode 8 z.

Definition make_header (first : Z) : bytes :=
  II ++ u16 43 ++ u16 8 ++ u16 0 ++ u64 first.

Definition make_record (tag ty count slot : Z) : bytes :=
  u16 tag ++ u16 ty ++ u64 count ++ u64 slot.

Definition make_directory (records : list bytes) (next : Z) : bytes :=
  u64 (Z.of_nat (List.length records)) ++ List.concat records ++ u64 next.

(** A slide of 176 bytes: the label strip at 16, the macro strip at 20,
    the label directory at 24 and the macro directory at 100, each with its
    compression code and no description. *)
Definition make_slide (label_compression macro_compression : Z) : bytes :=
  make_header 24
  ++ [x01; x02; x03; x04] ++ [x05; x06; x07; x08]
  ++ make_directory [make_record 259 3 1 label_compression;
                     make_record 273 16 1 16; make_record 279 16 1 4] 100
  ++ make_directory [make_record 259 3 1 macro_compression;
                     make_record 273 16 1 20; make_record 279 16 1 4] 0.

(** The label compressed with LZW, the macro with JPEG. *)
Definition sample_slide : bytes := make_slide 5 7.

(** The label directory is not compressed with LZW and has no description. *)
Definition slide_without_description : bytes := make_slide 1 7.

(** The label directory is compressed with JPEG and described, in place,
    as "none": it fails the label test.  The directories are at 24 and 120. *)
Definition slide_with_unmatched_label : bytes :=
  make_header 24
  ++ [x01; x02; x03; x04] ++ [x05; x06; x07; x08]
  ++ make_directory [make_record 259 3 1 7;
                     make_record 270 2 4 (le_decode (list_byte_of_string "none"));
                     make_record 273 16 1 16; make_record 279 16 1 4] 120
  ++ make_directory [make_record 259 3 1 7;
                     make_record 273 16 1 20; make_record 279 16 1 4] 0.

(** A directory at 16 whose two records carry the same tag 256. *)
Definition blob_with_duplicate_tag : bytes :=
  make_header 16
  ++ make_directory [make_record 256 3 1 10; make_record 256 3 1 20] 0.

(** A directory at 16 with one record: tag 273, two 8-byte offsets stored
    at 52, namely 100 and 200. *)
Definition blob_with_two_strips : bytes :=
  make_header 16
  ++ make_directory [make_record 273 16 2 52] 0
  ++ u64 100 ++ u64 200.

(** A label replacement: one directory at 16 with an inline width, the
    compression, a 12-byte description at 132 and a 4-byte strip at 144. *)
Definition sample_label_blob : bytes :=
  make_header 16
  ++ make_directory [make_record 256 3 1 609; make_record 259 3 1 5;
                     make_record 270 2 12 132; make_record 273 16 1 144;
                     make_record 279 16 1 4] 0
  ++ list_byte_of_string "sample label"
  ++ [x0a; x0b; x0c; x0d].

(** A macro replacement: one directory at 16 and a 4-byte strip at 92. *)
Definition sample_macro_blob : bytes :=
  make_header 16
  ++ make_directory [make_record 259 3 1 7; make_record 273 16 1 92;
                     make_record 279 16 1 4] 0
  ++ [x1a; x1b; x1c; x1d].

(** Libraries that find the font and return the two sample
    replacements. *)
Definition sample_builder : ImageBuilder := {|
  font := unit;
  image := file_type;
  ImageFont_truetype := fun _ => Ok tt;
  Image_new_red := fun _ => Ok Macro;
  draw_label := fun _ _ => Ok Label;
  BigTiffMaker_create_image := fun img _ =>
    Ok (mkStream match img with
                 | Label => sample_label_blob
                 | Macro => sample_macro_blob
                 end 0)
|}.

(** The same libraries on a machine without the Arial font. *)
Definition fontless_builder : ImageBuilder := {|
  font := unit;
  image := file_type;
  ImageFont_truetype := fun _ => Raise OSError;
  Image_new_red := fun _ => Ok Macro;
  draw_label := fun _ _ => Ok Label;
  BigTiffMaker_create_image := fun img _ =>
    Ok (mkStream match img with
                 | Label => sample_label_blob
                 | Macro => sample_macro_blob
                 end 0)
|}.

(** The built-in operations on texts of ASCII characters only: a
    character is a byte, and [int] reads white space (space and the
    characters 9 to 13), an optional sign and decimal digits. *)
Definition is_space (a : ascii) : bool :=
  let n := Z.of_nat (nat_of_ascii a) in
  (n =? 32) || ((9 <=? n) && (n <=? 13)).

Definition digit_of (a : ascii) : option Z :=
  let n := Z.of_nat (nat_of_ascii a) in
  if (48 <=? n) && (n <=? 57) then Some (n - 48) else None.

Fixpoint lstrip (s : string) : string :=
  match s with
  | String a rest => if is_space a then lstrip rest else s
  | EmptyString => s
  end.

Fixpoint string_rev (s acc : string) : string :=
  match s with
  | String a rest => string_rev rest (String a acc)
  | EmptyString => acc
  end.

Definition strip (s : string) : string :=
  string_rev (lstrip (string_rev (lstrip s) "")) "".

(** Decimal digits, single underscores allowed between two digits. *)
Fixpoint digits_value (s : string) (acc : Z) (after_digit : bool) : option Z :=
  match s with
  | EmptyString => if after_digit then Some acc else None
  | String a rest =>
      match digit_of a with
      | Some d => digits_value rest (10 * acc + d) true
      | None =>
          if Ascii.eqb a "_" && after_digit then digits_value rest acc false
          else None
      end
  end.

Definition ascii_int (s : string) : option Z :=
  let t := strip s in
  match t with
  | String "+" rest => digits_value rest 0 false
  | String "-" rest => option_map Z.opp (digits_value rest 0 false)
  | _ => digits_value t 0 false
  end.

Definition ascii_text : Builtins := {|
  int_value := ascii_int;
  len_of := fun s => Z.of_nat (String.length s);
  prefix := fun n s => substring 0 (Z.to_nat n) s
|}.

(** The text after the last ["/"]. *)
Fixpoint last_component (s acc : string) : string :=
  match s with
  | EmptyString => string_rev acc ""
  | String "/" rest => last_component rest ""
  | String a rest => last_component rest (String a acc)
  end.

(** The name split at its last dot, when that dot is neither first nor
    last: the stem and the suffix. *)
Fixpoint split_suffix (name stem : string) : string * string :=
  match name with
  | EmptyString => (string_rev stem "", "")
  | String "." rest =>
      match split_suffix rest (String "." stem) with
      | (_, EmptyString) =>
          match stem, rest with
          | EmptyString, _ | _, EmptyString =>
              (string_rev stem "" ++ String "." rest, "")
          | _, _ => (string_rev stem "", String "." rest)
          end
      | later => later
      end
  | String a rest => split_suffix rest (String a stem)
  end%string.

(** Paths already in normal form, POSIX style. *)
Definition posix_paths : Pathlib := {|
  Path := fun s => s;
  path_name := fun s => last_component s "";
  path_suffix := fun s => snd (split_suffix (last_component s "") "");
  path_stem := fun s => fst (split_suffix (last_component s "") "");
  joinpath := fun d n => (d ++ "/" ++ n)%string
|}.

Definition empty_disk : filesystem := fun _ => None.

Definition sample_path : string := "slides/00600.svs".

Definition protected_path : string := "DigitalPathology/00600.svs".

Definition sample_disk : filesystem := fs_write sample_path sample_slide empty_disk.

(** The same slide stored under a protected directory. *)
Definition protected_disk : filesystem :=
  fs_write protected_path sample_slide empty_disk.

(** A record that names a slide and nothing else. *)
Definition row_of (path : string) : row := [("File Location"%string, CStr path)].

(** [BigTiffFile(path)] on a disk, for a path known to parse. *)
Definition parsed (fs : filesystem) (path : string) : BigTiffFile :=
  match @BigTiffFile_of_path tiff_tables 5 fs path with
  | Ok t => t
  | _ => new_BigTiffFile (Some path)
  end.

Definition unmatched_disk : filesystem :=
  fs_write sample_path slide_with_unmatched_label empty_disk.

Definition undescribed_disk : filesystem :=
  fs_write sample_path slide_without_description empty_disk.

(** The records of a directory known to be readable. *)
Definition records_of (data : bytes) (off : Z) : list (Z * ifd_entry) :=
  match @on_disk_entries tiff_tables data off with
  | Ok recs => recs
  | _ => []
  end.

(** A descriptor known to be set. *)
Definition descriptor (o : option aux_image) : aux_image :=
  match o with
  | Some a => a
  | None => mkAux 0 [] 0 0
  end.

(** A directory known to be present, and an entry known to be present. *)
Definition directory_of (t : BigTiffFile) (k : Z) : dict ifd_entry :=
  match dict_get k (tiff_info t) with
  | Some info => info
  | None => []
  end.

Definition entry_of (info : dict ifd_entry) (tag : Z) : ifd_entry :=
  match dict_get tag info with
  | Some e => e
  | None => mkEntry 0 0 0 0 0 (VTuple [])
  end.

(* ================================================================== *)
(** ** Further notions used to state properties of the reader *)

(** A computation that leaves the bytes of the stream as they are (it may
    move the position). *)
Definition keeps_content {A} (m : io A) : Prop :=
  forall s, content (snd (m s)) = content s.

Section Chain.
Context {K : Constants}.
Open Scope res_scope.

(** The directories met when following the next-directory offsets from
    [off], each with its offset, its records and the offset it names
    next; [fuel] bounds the number of directories. *)
Fixpoint directories_from (fuel : nat) (data : bytes) (off : Z)
  : res (list (Z * list (Z * ifd_entry) * Z)) :=
  if off =? 0 then Ok []
  else match fuel with
       | O => OutOfFuel
       | S fuel' =>
           recs <- on_disk_entries data off ;;
           rest <- directories_from fuel' data (on_disk_next data off) ;;
           Ok ((off, recs, on_disk_next data off) :: rest)
       end.

(** The offset reached from [off] after [k] readable directories, none of
    them at offset 0. *)
Fixpoint walk (data : bytes) (off : Z) (k : nat) : option Z :=
  match k with
  | O => Some off
  | S k' =>
      if off =? 0 then None
      else match on_disk_entries data off with
           | Ok _ => walk data (on_disk_next data off) k'
           | _ => None
           end
  end.

Close Scope res_scope.
End Chain.

(** The dictionary that numbers the items of a list from [first]. *)
Fixpoint numbered {V} (first : Z) (l : list V) : dict V :=
  match l with
  | [] => []
  | v :: rest => (first, v) :: numbered (first + 1) rest
  end.

(** What [__init__] holds once it has read the directories [dirs]: they
    are numbered from 1 in the order met. *)
Definition next_dir_of (d : Z * list (Z * ifd_entry) * Z) : next_dir :=
  let '(off, recs, next) := d in
  mkNextDir (record_offset off (Z.of_nat (List.length recs))) next off.

Definition object_of_directories (path : option string)
  (dirs : list (Z * list (Z * ifd_entry) * Z)) : BigTiffFile :=
  mkTiff path
    (numbered 1 (map (fun d => dict_of_list (snd (fst d))) dirs))
    (numbered 1 (map next_dir_of dirs))
    (numbered 1 (map (fun d => fst (fst d)) dirs))
    (Z.of_nat (List.length dirs)) None None.

(** A directory at 16 whose second record has the unknown value type 99. *)
Definition blob_with_unknown_type : bytes :=
  make_header 16
  ++ make_directory [make_record 256 3 1 10; make_record 300 99 1 0] 0.

(** The path that a record of the table names: the column read, made a
    [Path] and resolved against [slide_dir] as the loop body does. *)
Definition record_path {P : Pathlib} (col_with_slide_names : string)
  (slide_dir : option string) (r : row) : res string :=
  res_bind (row_get r col_with_slide_names) (fun c =>
  res_bind (Path_of c) (fun slide =>
  Ok (resolve_path slide_dir slide))).

(** A directory at 16 whose next-directory offset is 16 again. *)
Definition blob_with_cycle : bytes :=
  make_header 16 ++ make_directory [make_record 256 3 1 10] 16.

(** A valid header that names no first directory. *)
Definition blob_without_directory : bytes := make_header 0.

(** Two directories, at 16 and 52, neither with a compression tag. *)
Definition blob_without_compression : bytes :=
  make_header 16
  ++ make_directory [make_record 256 3 1 10] 52
  ++ make_directory [make_record 256 3 1 10] 0.

(** The chain of directories of a container known to be readable. *)
Definition chain_of (data : bytes) : list (Z * list (Z * ifd_entry) * Z) :=
  match @directories_from tiff_tables 5 data (first_directory data) with
  | Ok dirs => dirs
  | _ => []
  end.

(** A value known to decode. *)
Definition decoded (r : res pyvalue) : pyvalue :=
  match r with
  | Ok v => v
  | _ => VTuple []
  end.

(** A second slide on the disk, and a disk with one replacement only. *)
Definition other_path : string := "slides/00700.svs".

Definition two_slide_disk : filesystem :=
  fs_write other_path sample_slide sample_disk.

Definition replacement_disk : filesystem :=
  fs_write sample_path sample_label_blob empty_disk.

(** The switcher built for the sample slide, without removal. *)
Definition sample_switcher : LabelSwitcher :=
  match @LabelSwitcher_init tiff_tables sample_builder 5 sample_path false
          None None None None None sample_disk with
  | (Ok ls, _) => ls
  | _ => mkSwitcher sample_path 0 0 (mkStream [] 0) (mkStream [] 0)
  end.

(** A result that is not the exception [SystemExit]: when it is an
    exception, [except Exception] catches it. *)
Definition catchable {A} (r : res A) : Prop := r <> Raise SystemExit.

Definition catchable_io {A} (m : io A) : Prop :=
  forall s, catchable (fst (m s)).

(** Two tag-273 records in one directory at 16, with slots 100 and 200. *)
Definition blob_with_repeated_strip_tag : bytes :=
  make_header 16
  ++ make_directory [make_record 273 16 1 100; make_record 273 16 1 200] 0.




(* ================================================================== *)
(** * Properties *)

(** ** Bytes, slices and writes *)

Ltac zbool :=
  symmetry;
  first [ apply Z.leb_le | apply Z.leb_gt | apply Z.ltb_lt | apply Z.ltb_ge
        | apply Z.eqb_eq | apply Z.eqb_neq ];
  lia.

Lemma blen_nonneg (b : bytes) : 0 <= blen b.
Proof. unfold blen. lia. Qed.

Lemma blen_app (a b : bytes) : blen (a ++ b) = blen a + blen b.
Proof. unfold blen. rewrite length_app. lia. Qed.

Lemma byte_to_Z_range (b : byte) : 0 <= byte_to_Z b < 256.
Proof.
  unfold byte_to_Z. pose proof (Byte.to_N_bounded b). lia.
Qed.

Lemma byte_to_of_Z (z : Z) : byte_to_Z (byte_of_Z z) = z mod 256.
Proof.
  unfold byte_to_Z, byte_of_Z.
  pose proof (Z.mod_pos_bound z 256 ltac:(lia)) as Hm.
  destruct (Byte.of_N (Z.to_N (z mod 256))) as [b|] eqn:E.
  - apply Byte.to_of_N in E. rewrite E. apply Z2N.id. lia.
  - apply Byte.of_N_None_iff in E.
    assert (Z.of_N (Z.to_N (z mod 256)) = z mod 256) as H by (apply Z2N.id; lia).
    exfalso. apply N2Z.inj_lt in E. rewrite H in E. simpl in E. lia.
Qed.

Lemma le_decode_nonneg (bs : bytes) : 0 <= le_decode bs.
Proof.
  induction bs as [|b bs IH]; cbn [le_decode]; [lia|].
  pose proof (byte_to_Z_range b). lia.
Qed.

Lemma le_decode_bound (bs : bytes) : le_decode bs < 256 ^ blen bs.
Proof.
  induction bs as [|b bs IH]; cbn [le_decode]; [reflexivity|].
  pose proof (byte_to_Z_range b).
  replace (blen (b :: bs)) with (Z.succ (blen bs))
    by (unfold blen; cbn [List.length]; lia).
  rewrite Z.pow_succ_r by apply blen_nonneg. lia.
Qed.

Lemma length_le_encode (n : nat) (z : Z) : List.length (le_encode n z) = n.
Proof. revert z. induction n; intros; simpl; auto. Qed.

Lemma blen_le_encode (n : nat) (z : Z) : blen (le_encode n z) = Z.of_nat n.
Proof. unfold blen. now rewrite length_le_encode. Qed.

Lemma le_decode_encode (n : nat) (z : Z) :
  le_decode (le_encode n z) = z mod 256 ^ Z.of_nat n.
Proof.
  revert z. induction n as [|n IH]; intros z.
  - simpl. now rewrite Z.mod_1_r.
  - cbn [le_encode le_decode]. rewrite byte_to_of_Z, IH.
    rewrite Nat2Z.inj_succ, Z.pow_succ_r by lia.
    rewrite Z.rem_mul_r by lia. lia.
Qed.

Lemma le_decode_encode_8 (z : Z) :
  0 <= z < 2 ^ 64 -> le_decode (le_encode 8 z) = z.
Proof.
  intros H. rewrite le_decode_encode.
  change (256 ^ Z.of_nat 8) with (2 ^ 64). now apply Z.mod_small.
Qed.

Lemma blen_slice (data : bytes) (p n : Z) :
  0 <= p -> 0 <= n -> p + n <= blen data -> blen (slice data p n) = n.
Proof.
  unfold blen, slice. intros Hp Hn Hb.
  rewrite length_firstn, length_skipn. lia.
Qed.

Lemma blen_slice_le (data : bytes) (p n : Z) :
  0 <= n -> blen (slice data p n) <= n.
Proof.
  unfold blen, slice. intros Hn. rewrite length_firstn. lia.
Qed.

Lemma slice_slice (data : bytes) (p n q m : Z) :
  0 <= p -> 0 <= q -> 0 <= m -> q + m <= n ->
  slice (slice data p n) q m = slice data (p + q) m.
Proof.
  unfold slice. intros Hp Hq Hm Hqm.
  rewrite skipn_firstn_comm, firstn_firstn, skipn_skipn.
  replace (Z.to_nat q + Z.to_nat p)%nat with (Z.to_nat (p + q)) by lia.
  f_equal. lia.
Qed.

Lemma slice_of_eq (data : bytes) (n q m : Z) (l : bytes) :
  slice data 0 n = l -> 0 <= q -> 0 <= m -> q + m <= n ->
  slice data q m = slice l q m.
Proof.
  intros <- Hq Hm Hqm. now rewrite slice_slice by lia.
Qed.

(** A write inside the content is a replacement of that range. *)
Lemma buf_write_inside (data : bytes) (p : Z) (bs : bytes) :
  0 <= p -> p + blen bs <= blen data ->
  buf_write data p bs =
  firstn (Z.to_nat p) data ++ bs ++ skipn (Z.to_nat p + List.length bs) data.
Proof.
  unfold buf_write, blen. intros Hp Hb.
  destruct bs as [|b bs].
  - simpl. rewrite Nat.add_0_r. symmetry. apply firstn_skipn.
  - replace (Z.to_nat p - List.length data)%nat with 0%nat by lia.
    simpl repeat. now rewrite app_nil_r.
Qed.

Lemma blen_buf_write (data : bytes) (p : Z) (bs : bytes) :
  0 <= p -> p + blen bs <= blen data ->
  blen (buf_write data p bs) = blen data.
Proof.
  intros Hp Hb. rewrite buf_write_inside by assumption.
  unfold blen in *. rewrite !length_app, length_firstn, length_skipn. lia.
Qed.

Lemma byte_at_buf_write (data : bytes) (p : Z) (bs : bytes) (i : Z) :
  0 <= p -> p + blen bs <= blen data ->
  byte_at (buf_write data p bs) i =
  if (p <=? i) && (i <? p + blen bs) then byte_at bs (i - p) else byte_at data i.
Proof.
  intros Hp Hb. rewrite buf_write_inside by assumption.
  unfold byte_at, blen in *.
  destruct (i <? 0) eqn:Hi.
  - replace (p <=? i) with false by lia. reflexivity.
  - destruct (p <=? i) eqn:Hpi; simpl.
    + rewrite nth_error_app2 by (rewrite length_firstn; lia).
      rewrite length_firstn.
      replace (Nat.min (Z.to_nat p) (List.length data)) with (Z.to_nat p) by lia.
      destruct (i <? p + Z.of_nat (List.length bs)) eqn:Hlt.
      * replace (i - p <? 0) with false by lia.
        rewrite nth_error_app1 by lia. f_equal. lia.
      * rewrite nth_error_app2 by lia. rewrite nth_error_skipn. f_equal. lia.
    + rewrite nth_error_app1 by (rewrite length_firstn; lia).
      rewrite nth_error_firstn.
      replace (Z.to_nat i <? Z.to_nat p)%nat with true; [reflexivity|].
      symmetry. apply Nat.ltb_lt. lia.
Qed.

Lemma slice_buf_write_same (data : bytes) (p : Z) (bs : bytes) :
  0 <= p -> p + blen bs <= blen data ->
  slice (buf_write data p bs) p (blen bs) = bs.
Proof.
  intros Hp Hb. rewrite buf_write_inside by assumption.
  unfold slice, blen in *.
  rewrite skipn_app, length_firstn.
  replace (Z.to_nat p - Nat.min (Z.to_nat p) (List.length data))%nat with 0%nat by lia.
  rewrite skipn_all2 by (rewrite length_firstn; lia).
  simpl. rewrite Nat2Z.id, firstn_app, Nat.sub_diag, firstn_all. simpl.
  now rewrite app_nil_r.
Qed.

Lemma slice_buf_write_other (data : bytes) (p : Z) (bs : bytes) (q m : Z) :
  0 <= p -> p + blen bs <= blen data -> 0 <= q -> 0 <= m ->
  q + m <= p \/ p + blen bs <= q ->
  slice (buf_write data p bs) q m = slice data q m.
Proof.
  intros Hp Hb Hq Hm Hd. rewrite buf_write_inside by assumption.
  unfold slice, blen in *.
  destruct Hd as [Hd|Hd].
  - rewrite skipn_app, firstn_app, length_skipn, length_firstn.
    replace (Z.to_nat m - (Nat.min (Z.to_nat p) (List.length data) - Z.to_nat q))%nat
      with 0%nat by lia.
    simpl. rewrite app_nil_r, skipn_firstn_comm, firstn_firstn. f_equal. lia.
  - rewrite app_assoc, skipn_app.
    rewrite skipn_all2 by (rewrite length_app, length_firstn; lia).
    simpl. rewrite length_app, length_firstn, skipn_skipn. do 2 f_equal. lia.
Qed.

(* ------------------------------------------------------------------ *)
(** ** The reader *)

Lemma stream_eta (s : stream) : mkStream (content s) (position s) = s.
Proof. now destruct s. Qed.

Lemma seek_nonneg (p : Z) (s : stream) :
  0 <= p -> seek p s = (Ok tt, mkStream (content s) p).
Proof. intros H. unfold seek. now replace (p <? 0) with false by lia. Qed.

Lemma read_inside (n : Z) (data : bytes) (pos : Z) :
  0 <= pos -> 0 <= n -> pos + n <= blen data ->
  read n (mkStream data pos) = (Ok (slice data pos n), mkStream data (pos + n)).
Proof.
  intros Hp Hn Hb. unfold read. cbn [content position].
  now rewrite blen_slice by assumption.
Qed.

Section ReaderProps.
Context {K : Constants}.

(** [_ifd_value] computes [value_at] on the content of the stream. *)
Lemma _ifd_value_fst (tag ty count pre slot : Z) (s : stream) :
  0 <= pre -> 0 <= slot -> 0 <= position s ->
  fst (_ifd_value tag ty count pre slot s) = value_at (content s) tag ty count pre slot.
Proof.
  intros Hpre Hslot Hpos.
  unfold _ifd_value, value_at, io_bind, io_lift, io_ret, tell.
  destruct (FORMAT_CHARACTERS ty) as [c|]; cbn [subscript res_bind]; [|reflexivity].
  destruct (calcsize count c) as [len| |]; cbn [res_bind]; try reflexivity.
  destruct (len <=? 8).
  - rewrite seek_nonneg by assumption. unfold read. cbn [content position].
    destruct (unpack count c (slice (content s) pre len)); cbn [res_bind];
      try reflexivity.
    now rewrite seek_nonneg.
  - destruct ((tag =? 270) || (tag =? 258)); [|reflexivity].
    rewrite seek_nonneg by assumption. unfold read. cbn [content position].
    destruct (unpack count c (slice (content s) slot len)) as [v| |];
      cbn [res_bind]; try reflexivity.
    destruct (get_is (TYPE_DICT ty) "ASCII").
    + destruct (bytes_join v); cbn [res_bind]; try reflexivity.
      now rewrite seek_nonneg.
    + now rewrite seek_nonneg.
Qed.

(** When it returns a value, [_ifd_value] has put the stream back where it
    was. *)
Lemma _ifd_value_ok (tag ty count pre slot : Z) (s : stream) (v : pyvalue) :
  0 <= pre -> 0 <= slot -> 0 <= position s ->
  value_at (content s) tag ty count pre slot = Ok v ->
  _ifd_value tag ty count pre slot s = (Ok v, s).
Proof.
  intros Hpre Hslot Hpos.
  unfold _ifd_value, value_at, io_bind, io_lift, io_ret, tell.
  destruct (FORMAT_CHARACTERS ty) as [c|]; cbn [subscript res_bind]; [|discriminate].
  destruct (calcsize count c) as [len| |]; cbn [res_bind]; try discriminate.
  destruct (len <=? 8).
  - rewrite seek_nonneg by assumption. unfold read. cbn [content position].
    destruct (unpack count c (slice (content s) pre len)); cbn [res_bind];
      try discriminate.
    rewrite seek_nonneg by assumption. cbn [content].
    rewrite stream_eta. congruence.
  - destruct ((tag =? 270) || (tag =? 258)); [|congruence].
    rewrite seek_nonneg by assumption. unfold read. cbn [content position].
    destruct (unpack count c (slice (content s) slot len)) as [v'| |];
      cbn [res_bind]; try discriminate.
    destruct (get_is (TYPE_DICT ty) "ASCII").
    + destruct (bytes_join v'); cbn [res_bind]; try discriminate.
      rewrite seek_nonneg by assumption. cbn [content].
      rewrite stream_eta. congruence.
    + rewrite seek_nonneg by assumption. cbn [content].
      rewrite stream_eta. congruence.
Qed.

Lemma read_header_ok (data : bytes) :
  valid_header data = true ->
  _read_header (mkStream data 0) = (Ok (first_directory data), mkStream data 16).
Proof.
  unfold valid_header. intros H. apply andb_prop in H as [Hh Hl].
  unfold bytes_eqb in Hh.
  destruct (list_eq_dec byte_eq_dec (slice data 0 8) _) as [E|]; [|discriminate].
  apply Z.leb_le in Hl.
  unfold _read_header, io_bind, io_lift, io_ret.
  rewrite read_inside by lia.
  rewrite (slice_of_eq data 8 0 2 _ E) by lia.
  change (utf8_decode2 _) with (@Ok bytes II).
  cbn iota beta.
  rewrite read_inside by lia.
  rewrite (slice_of_eq data 8 (0 + 2) 2 _ E) by lia.
  change (unpack_H _) with (@Ok Z 43). cbn iota beta.
  rewrite read_inside by lia.
  rewrite (slice_of_eq data 8 (0 + 2 + 2) 4 _ E) by lia.
  change (unpack_HH _) with (@Ok (Z * Z) (8, 0)). cbn iota beta.
  rewrite read_inside by lia.
  unfold unpack_Q. rewrite blen_slice by lia. cbn.
  reflexivity.
Qed.

Lemma entry_at_inv (data : bytes) (off i tag : Z) (e : ifd_entry) :
  entry_at data off i = Ok (tag, e) ->
  tag = le_decode (slice data (record_offset off i) 2) /\
  pre_tag_offset e = record_offset off i /\
  ifd_type e = le_decode (slice data (record_offset off i + 2) 2) /\
  ifd_count e = le_decode (slice data (record_offset off i + 4) 8) /\
  pre_data_offset e = record_offset off i + 12 /\
  data_offset e = le_decode (slice data (record_offset off i + 12) 8) /\
  value_at data tag (ifd_type e) (ifd_count e) (pre_data_offset e) (data_offset e)
    = Ok (value e).
Proof.
  unfold entry_at. intros H.
  destruct (value_at data _ _ _ _ _) as [v| |] eqn:E; cbn [res_bind] in H;
    try discriminate.
  inversion H; subst; clear H. cbn. repeat split; try reflexivity. exact E.
Qed.

Lemma entries_from_length (data : bytes) (off : Z) (n : nat) :
  forall i recs, entries_from data off i n = Ok recs -> List.length recs = n.
Proof.
  induction n as [|n IH]; intros i recs H; cbn [entries_from] in H.
  - now inversion H.
  - destruct (entry_at data off i); cbn [res_bind] in H; try discriminate.
    destruct (entries_from data off (i + 1) n) eqn:E; cbn [res_bind] in H;
      try discriminate.
    inversion H; subst. cbn. f_equal. eauto.
Qed.

Lemma entries_from_In (data : bytes) (off : Z) (n : nat) :
  forall i recs te, entries_from data off i n = Ok recs -> In te recs ->
  exists j, i <= j < i + Z.of_nat n /\ entry_at data off j = Ok te.
Proof.
  induction n as [|n IH]; intros i recs te H Hin; cbn [entries_from] in H.
  - inversion H; subst. destruct Hin.
  - destruct (entry_at data off i) as [e0| |] eqn:E0; cbn [res_bind] in H;
      try discriminate.
    destruct (entries_from data off (i + 1) n) eqn:E; cbn [res_bind] in H;
      try discriminate.
    inversion H; subst. destruct Hin as [<-|Hin].
    + exists i. split; [lia|assumption].
    + destruct (IH _ _ _ E Hin) as [j [Hj Hej]]. exists j. split; [lia|assumption].
Qed.

(** The loop over the records reads them as they are on disk and assigns
    them, in file order, to the dictionary. *)
Lemma read_entries_ok (data : bytes) (off : Z) :
  forall (n : nat) (i : Z) (acc : dict ifd_entry) (recs : list (Z * ifd_entry)),
  0 <= off -> 0 <= i ->
  record_offset off (i + Z.of_nat n) <= blen data ->
  entries_from data off i n = Ok recs ->
  read_entries n acc (mkStream data (record_offset off i)) =
  (Ok (fold_left (fun d kv => dict_set (fst kv) (snd kv) d) recs acc),
   mkStream data (record_offset off (i + Z.of_nat n))).
Proof.
  induction n as [|n IH]; intros i acc recs Hoff Hi Hb H; cbn [entries_from] in H.
  - inversion H; subst. cbn. now rewrite Z.add_0_r.
  - destruct (entry_at data off i) as [[tag e]| |] eqn:E0; cbn [res_bind] in H;
      try discriminate.
    destruct (entries_from data off (i + 1) n) as [rest| |] eqn:E;
      cbn [res_bind] in H; try discriminate.
    inversion H; subst recs; clear H.
    assert (Hp : 0 <= record_offset off i) by (unfold record_offset; lia).
    assert (Hq : record_offset off i + 20 <= blen data)
      by (unfold record_offset in *; lia).
    unfold entry_at in E0.
    destruct (value_at data _ _ _ _ _) as [v| |] eqn:Ev; cbn [res_bind] in E0;
      try discriminate.
    inversion E0; subst tag e; clear E0.
    cbn [read_entries fold_left fst snd].
    unfold io_bind at 1. unfold tell at 1. cbn [position].
    unfold io_bind at 1. rewrite read_inside by lia.
    unfold io_bind at 1, io_lift at 1, unpack_HHQ.
    rewrite blen_slice by lia. cbn [Z.eqb Pos.eqb].
    rewrite !slice_slice by lia. rewrite Z.add_0_r.
    unfold io_bind at 1. unfold tell at 1. cbn [position].
    unfold io_bind at 1. rewrite read_inside by lia.
    unfold io_bind at 1, io_lift at 1, unpack_Q.
    rewrite blen_slice by lia. cbn [Z.eqb Pos.eqb].
    unfold io_bind at 1.
    rewrite (_ifd_value_ok _ _ _ _ _ _ v); cbn [content position];
      try lia; try apply le_decode_nonneg; try exact Ev.
    replace (record_offset off i + 12 + 8) with (record_offset off (i + 1))
      by (unfold record_offset; lia).
    rewrite (IH (i + 1) _ rest); try lia; try assumption.
    + do 3 f_equal. lia.
    + now replace (i + 1 + Z.of_nat n) with (i + Z.of_nat (S n)) by lia.
Qed.

Lemma read_IFDs_ok (self : BigTiffFile) (data : bytes) (pos off : Z)
  (recs : list (Z * ifd_entry)) :
  on_disk_entries data off = Ok recs ->
  _read_IFDs self off (mkStream data pos) =
  (Ok (mkTiff (file_path self)
         (dict_set (directory_count self + 1) (dict_of_list recs) (tiff_info self))
         (dict_set (directory_count self + 1)
            (mkNextDir (record_offset off (entry_count data off))
               (on_disk_next data off) off)
            (next_dir_offsets self))
         (dict_set (directory_count self + 1) off (directory_offsets self))
         (directory_count self + 1) (_label self) (_macro self),
       on_disk_next data off),
   mkStream data (record_offset off (entry_count data off) + 8)).
Proof.
  unfold on_disk_entries. intros H.
  destruct ((0 <=? off) && _) eqn:Hc; [|discriminate].
  apply andb_prop in Hc as [Hoff Hb]. apply Z.leb_le in Hoff, Hb.
  pose proof (le_decode_nonneg (slice data off 8)) as Hn.
  fold (entry_count data off) in Hn.
  unfold record_offset in Hb.
  unfold _read_IFDs.
  unfold io_bind at 1. rewrite seek_nonneg by assumption. cbn [content].
  unfold io_bind at 1. rewrite read_inside by lia.
  unfold io_bind at 1, io_lift at 1, unpack_Q.
  rewrite blen_slice by lia. cbn [Z.eqb Pos.eqb].
  fold (entry_count data off).
  unfold io_bind at 1.
  replace (off + 8) with (record_offset off 0) by (unfold record_offset; lia).
  rewrite (read_entries_ok data off _ 0 [] recs); try lia; try assumption.
  - rewrite Z2Nat.id by assumption. cbn [Z.add].
    unfold io_bind at 1. unfold tell at 1. cbn [position].
    unfold io_bind at 1. rewrite read_inside; unfold record_offset; try lia.
    unfold io_bind at 1, io_lift at 1, unpack_Q.
    rewrite blen_slice by lia. cbn [Z.eqb Pos.eqb].
    reflexivity.
  - rewrite Z2Nat.id by assumption. unfold record_offset. lia.
Qed.

End ReaderProps.

(* ------------------------------------------------------------------ *)
(** ** Dictionaries *)

Lemma dict_get_set {V} (k k' : Z) (v : V) (d : dict V) :
  dict_get k (dict_set k' v d) = if k =? k' then Some v else dict_get k d.
Proof.
  induction d as [|[k0 v0] d IH]; cbn [dict_set dict_get].
  - reflexivity.
  - destruct (k' =? k0) eqn:E; cbn [dict_get].
    + apply Z.eqb_eq in E. subst k0. now destruct (k =? k').
    + destruct (k =? k0) eqn:E0.
      * apply Z.eqb_eq in E0. subst k0.
        now replace (k =? k') with false by lia.
      * exact IH.
Qed.

Lemma dict_get_In {V} (k : Z) (v : V) (d : dict V) :
  dict_get k d = Some v -> In (k, v) d.
Proof.
  induction d as [|[k0 v0] d IH]; cbn [dict_get]; [discriminate|].
  destruct (k =? k0) eqn:E.
  - apply Z.eqb_eq in E. intros H. inversion H; subst. now left.
  - intros H. right. auto.
Qed.

Lemma dict_keys_get {V} (k : Z) (d : dict V) :
  In k (dict_keys d) -> exists v, dict_get k d = Some v.
Proof.
  unfold dict_keys.
  induction d as [|[k0 v0] d IH]; cbn [map dict_get fst]; [intros []|].
  intros [->|H].
  - rewrite Z.eqb_refl. eauto.
  - destruct (k =? k0); eauto.
Qed.

Lemma dict_set_In {V} (k : Z) (v : V) (d : dict V) (kv : Z * V) :
  In kv (dict_set k v d) -> kv = (k, v) \/ In kv d.
Proof.
  induction d as [|[k0 v0] d IH]; cbn [dict_set].
  - intros [<-|[]]. now left.
  - destruct (k =? k0).
    + intros [<-|H]; [now left|right; now right].
    + intros [<-|H]; [right; now left|].
      destruct (IH H); [now left|right; now right].
Qed.

Lemma fold_dict_set_In {V} (l : list (Z * V)) :
  forall (acc : dict V) (kv : Z * V),
  In kv (fold_left (fun d x => dict_set (fst x) (snd x) d) l acc) ->
  In kv l \/ In kv acc.
Proof.
  induction l as [|[k v] l IH]; intros acc kv H; cbn [fold_left fst snd] in H.
  - now right.
  - destruct (IH _ _ H) as [H1|H1]; [left; now right|].
    destruct (dict_set_In _ _ _ _ H1) as [->|H2]; [left; now left|now right].
Qed.

Lemma dict_of_list_In {V} (l : list (Z * V)) (k : Z) (v : V) :
  dict_get k (dict_of_list l) = Some v -> In (k, v) l.
Proof.
  intros H. apply dict_get_In in H.
  destruct (fold_dict_set_In _ _ _ H) as [H1|[]]. exact H1.
Qed.

(* ------------------------------------------------------------------ *)
(** ** The offset patcher *)

Section PatcherProps.
Context {K : Constants}.

Lemma read_chain_end (fuel : nat) (self : BigTiffFile) :
  read_chain fuel self 0 = io_ret self.
Proof. now destruct fuel. Qed.

(** A container with a valid header and one readable directory parses to
    that directory, for any positive fuel. *)
Lemma of_stream_single (fuel : nat) (data : bytes) (recs : list (Z * ifd_entry)) :
  let off := first_directory data in
  valid_header data = true -> off <> 0 ->
  on_disk_entries data off = Ok recs ->
  on_disk_next data off = 0 ->
  BigTiffFile_of_stream (S fuel) (mkStream data 0) =
  (Ok (mkTiff None [(1, dict_of_list recs)]
         [(1, mkNextDir (record_offset off (entry_count data off)) 0 off)]
         [(1, off)] 1 None None),
   mkStream data (record_offset off (entry_count data off) + 8)).
Proof.
  intros off Hh Hoff Hrecs Hnext.
  unfold BigTiffFile_of_stream, io_bind.
  rewrite read_header_ok by assumption. fold off.
  cbn [read_chain].
  replace (off =? 0) with false by lia.
  unfold io_bind. rewrite (read_IFDs_ok _ _ _ _ recs) by assumption.
  rewrite Hnext, read_chain_end. reflexivity.
Qed.

Lemma calcsize_Ok (count : Z) (c : fmt_char) (len : Z) :
  calcsize count c = Ok len -> len = count * fmt_size c.
Proof.
  unfold calcsize. destruct (_ >? _); [discriminate|]. congruence.
Qed.

Lemma value_at_known (data : bytes) (tag ty count pre slot : Z) (v : pyvalue) :
  value_at data tag ty count pre slot = Ok v ->
  exists c, FORMAT_CHARACTERS ty = Some c /\
            calcsize count c = Ok (count * fmt_size c).
Proof.
  unfold value_at. intros H.
  destruct (FORMAT_CHARACTERS ty) as [c|]; cbn [subscript res_bind] in H;
    [|discriminate].
  exists c. split; [reflexivity|].
  destruct (calcsize count c) as [len| |] eqn:E; cbn [res_bind] in H;
    try discriminate.
  f_equal. eapply calcsize_Ok; eassumption.
Qed.

(** The entries of a directory read from disk sit in their records. *)
Lemma on_disk_entry (data : bytes) (off : Z) (recs : list (Z * ifd_entry))
  (tag : Z) (e : ifd_entry) :
  on_disk_entries data off = Ok recs ->
  dict_get tag (dict_of_list recs) = Some e ->
  0 <= off /\
  record_offset off (entry_count data off) + 8 <= blen data /\
  exists i, 0 <= i < entry_count data off /\ entry_at data off i = Ok (tag, e).
Proof.
  unfold on_disk_entries. intros H Hget.
  destruct ((0 <=? off) && _) eqn:Hc; [|discriminate].
  apply andb_prop in Hc as [Hoff Hb]. apply Z.leb_le in Hoff, Hb.
  split; [assumption|]. split; [assumption|].
  apply dict_of_list_In in Hget.
  destruct (entries_from_In _ _ _ _ _ _ H Hget) as [j [Hj Hej]].
  exists j. split; [|assumption].
  pose proof (le_decode_nonneg (slice data off 8)) as Hn.
  fold (entry_count data off) in Hn. lia.
Qed.

Lemma on_disk_slots_ok (data : bytes) (off : Z) (recs : list (Z * ifd_entry)) :
  on_disk_entries data off = Ok recs ->
  slots_ok (dict_of_list recs) (blen data).
Proof.
  intros H tag e Hget.
  destruct (on_disk_entry _ _ _ _ _ H Hget) as (Hoff & Hb & i & Hi & Hei).
  destruct (entry_at_inv _ _ _ _ _ Hei) as (_ & _ & _ & _ & Hpre & _ & Hv).
  rewrite Hpre. unfold record_offset in *.
  split; [lia|]. split; [lia|]. eapply value_at_known; eassumption.
Qed.

Lemma on_disk_slots_apart (data : bytes) (off : Z) (recs : list (Z * ifd_entry)) :
  on_disk_entries data off = Ok recs ->
  slots_apart (dict_of_list recs).
Proof.
  intros H t1 e1 t2 e2 H1 H2 Hne.
  destruct (on_disk_entry _ _ _ _ _ H H1) as (_ & _ & i & Hi & Hei).
  destruct (on_disk_entry _ _ _ _ _ H H2) as (_ & _ & j & Hj & Hej).
  destruct (entry_at_inv _ _ _ _ _ Hei) as (_ & _ & _ & _ & Hp1 & _).
  destruct (entry_at_inv _ _ _ _ _ Hej) as (_ & _ & _ & _ & Hp2 & _).
  assert (i <> j) by (intros ->; rewrite Hei in Hej; congruence).
  rewrite Hp1, Hp2. unfold record_offset. lia.
Qed.

Lemma on_disk_slot_before_next (data : bytes) (off : Z)
  (recs : list (Z * ifd_entry)) (tag : Z) (e : ifd_entry) :
  on_disk_entries data off = Ok recs ->
  dict_get tag (dict_of_list recs) = Some e ->
  pre_data_offset e + 8 <= record_offset off (entry_count data off).
Proof.
  intros H Hget.
  destruct (on_disk_entry _ _ _ _ _ H Hget) as (_ & _ & i & Hi & Hei).
  destruct (entry_at_inv _ _ _ _ _ Hei) as (_ & _ & _ & _ & Hp & _).
  rewrite Hp. unfold record_offset. lia.
Qed.

Lemma patches_fit_get (info : dict ifd_entry) (p tag : Z) (e : ifd_entry) :
  patches_fit info p = true -> dict_get tag info = Some e ->
  is_patched tag e = true ->
  0 <= data_offset e + p - 16 < 2 ^ 64.
Proof.
  unfold patches_fit. intros H Hget Hp.
  rewrite forallb_forall in H. specialize (H _ (dict_get_In _ _ _ Hget)).
  cbn [fst snd] in H. rewrite Hp in H. cbn [negb orb] in H.
  apply andb_prop in H as [H1 H2]. lia.
Qed.

Lemma pack_Q_fits (v : Z) : 0 <= v < 2 ^ 64 -> pack_Q v = Ok (le_encode 8 v).
Proof.
  intros H. unfold pack_Q.
  replace (0 <=? v) with true by lia. now replace (v <? 2 ^ 64) with true by lia.
Qed.

(** One iteration of the patch loop. *)
Lemma patch_entry_ok (info : dict ifd_entry) (p tag : Z) (e : ifd_entry)
  (data : bytes) (pos : Z) :
  dict_get tag info = Some e ->
  slots_ok info (blen data) ->
  (is_patched tag e = true -> 0 <= data_offset e + p - 16 < 2 ^ 64) ->
  exists pos',
    patch_entry info p tag (mkStream data pos) =
    (Ok tt,
     mkStream (if is_patched tag e
               then buf_write data (pre_data_offset e)
                      (le_encode 8 (data_offset e + p - 16))
               else data) pos').
Proof.
  intros Hget Hok Hfit.
  destruct (Hok _ _ Hget) as (Hp0 & Hp8 & c & Hc & Hsize).
  unfold patch_entry, io_bind, io_lift, io_ret.
  rewrite Hget. cbn [subscript]. rewrite Hc. cbn [subscript]. rewrite Hsize.
  unfold is_patched, encoded_length in *. rewrite Hc in *. cbn [option_map] in *.
  destruct ((ifd_count e * fmt_size c >? 8) || (tag =? 273)).
  - rewrite pack_Q_fits by auto. rewrite seek_nonneg by assumption.
    unfold write. cbn [content position]. eauto.
  - eauto.
Qed.

(** The patch loop: every patched slot holds its new value, and what is
    away from the patched slots is as before. *)
Lemma patch_entries_ok (info : dict ifd_entry) (p len : Z) :
  slots_ok info len -> slots_apart info -> patches_fit info p = true ->
  forall (tags : list Z) (data : bytes) (pos : Z),
  blen data = len ->
  (forall t, In t tags -> exists e, dict_get t info = Some e) ->
  exists data' pos',
    patch_entries info p tags (mkStream data pos) = (Ok tt, mkStream data' pos') /\
    blen data' = len /\
    (forall t e, In t tags -> dict_get t info = Some e -> is_patched t e = true ->
       slice data' (pre_data_offset e) 8 = le_encode 8 (data_offset e + p - 16)) /\
    (forall q m, 0 <= q -> 0 <= m ->
       (forall t e, In t tags -> dict_get t info = Some e -> is_patched t e = true ->
          q + m <= pre_data_offset e \/ pre_data_offset e + 8 <= q) ->
       slice data' q m = slice data q m).
Proof.
  intros Hok Hapart Hfit.
  induction tags as [|tag tags IH]; intros data pos Hlen Hkeys.
  - exists data, pos. cbn [patch_entries]. unfold io_ret.
    split; [reflexivity|]. split; [assumption|]. split; [intros t e []|].
    reflexivity.
  - destruct (Hkeys tag (or_introl eq_refl)) as [e Hget].
    assert (Hok' : slots_ok info (blen data)) by now rewrite Hlen.
    destruct (patch_entry_ok info p tag e data pos Hget Hok'
                (patches_fit_get _ _ _ _ Hfit Hget)) as [pos1 Hstep].
    destruct (Hok _ _ Hget) as (Hp0 & Hp8 & _).
    set (data1 := if is_patched tag e
                  then buf_write data (pre_data_offset e)
                         (le_encode 8 (data_offset e + p - 16))
                  else data) in *.
    assert (Hlen1 : blen data1 = len).
    { subst data1. destruct (is_patched tag e); [|assumption].
      rewrite blen_buf_write; rewrite ?blen_le_encode; lia. }
    destruct (IH data1 pos1 Hlen1 (fun t Ht => Hkeys t (or_intror Ht)))
      as (data' & pos' & Hrun & Hlen' & Hnew & Hold).
    exists data', pos'. cbn [patch_entries]. unfold io_bind at 1.
    rewrite Hstep. split; [exact Hrun|]. split; [exact Hlen'|]. split.
    + intros t e' Hin Hget' Hpatched.
      destruct (in_dec Z.eq_dec t tags) as [Hr|Hr]; [now apply (Hnew t e')|].
      destruct Hin as [<-|Hin]; [|contradiction].
      rewrite Hget in Hget'. inversion Hget'; subst e'.
      rewrite Hold; try lia.
      * subst data1. rewrite Hpatched.
        replace 8 with (blen (le_encode 8 (data_offset e + p - 16))) at 2
          by apply blen_le_encode.
        apply slice_buf_write_same; rewrite ?blen_le_encode; lia.
      * intros t2 e2 Hin2 Hget2 _.
        assert (tag <> t2) by (intros ->; contradiction).
        destruct (Hapart _ _ _ _ Hget Hget2 H); lia.
    + intros q m Hq Hm Hfree.
      rewrite Hold; try assumption.
      * subst data1. destruct (is_patched tag e) eqn:Hpatched; [|reflexivity].
        apply slice_buf_write_other; rewrite ?blen_le_encode; try lia.
        specialize (Hfree tag e (or_introl eq_refl) Hget Hpatched).
        change (Z.of_nat 8) with 8. lia.
      * intros t2 e2 Hin2. apply Hfree. now right.
Qed.

End PatcherProps.

Section UpdateIfd.
Context {K : Constants}.

Lemma on_disk_bounds (data : bytes) (off : Z) (recs : list (Z * ifd_entry)) :
  on_disk_entries data off = Ok recs ->
  0 <= off /\ 0 <= entry_count data off /\
  record_offset off (entry_count data off) + 8 <= blen data.
Proof.
  unfold on_disk_entries. intros H.
  destruct ((0 <=? off) && _) eqn:Hc; [|discriminate].
  apply andb_prop in Hc as [Hoff Hb]. apply Z.leb_le in Hoff, Hb.
  pose proof (le_decode_nonneg (slice data off 8)) as Hn. auto.
Qed.

Lemma on_disk_length (data : bytes) (off : Z) (recs : list (Z * ifd_entry)) :
  on_disk_entries data off = Ok recs ->
  Z.of_nat (List.length recs) = entry_count data off.
Proof.
  intros H. destruct (on_disk_bounds _ _ _ H) as (_ & Hn & _).
  unfold on_disk_entries in H.
  destruct (_ && _); [|discriminate].
  rewrite (entries_from_length _ _ _ _ _ H). lia.
Qed.

(** [update_ifd] on a container with a valid header and one readable
    directory: the patch loop runs to its end, and a label then gets its
    next-directory field rewritten. *)
Lemma update_ifd_run (ft : file_type) (fuel : nat) (data : bytes) (p : Z)
  (recs : list (Z * ifd_entry)) :
  let off := first_directory data in
  let info := dict_of_list recs in
  let after := record_offset off (entry_count data off) in
  valid_header data = true -> off <> 0 ->
  on_disk_entries data off = Ok recs ->
  on_disk_next data off = 0 ->
  patches_fit info p = true ->
  (ft = Label -> 0 <= blen data + p < 2 ^ 64) ->
  exists data1 pos1,
    blen data1 = blen data /\
    (forall t e, dict_get t info = Some e -> is_patched t e = true ->
       slice data1 (pre_data_offset e) 8 = le_encode 8 (data_offset e + p - 16)) /\
    (forall q m, 0 <= q -> 0 <= m ->
       (forall t e, dict_get t info = Some e -> is_patched t e = true ->
          q + m <= pre_data_offset e \/ pre_data_offset e + 8 <= q) ->
       slice data1 q m = slice data q m) /\
    update_ifd ft (S fuel) p (mkStream data 0) =
    match ft with
    | Macro => (Ok None, mkStream data1 pos1)
    | Label =>
        (Ok (Some (blen data + p)),
         mkStream (buf_write data1 after (le_encode 8 (blen data + p)))
           (after + 8))
    end.
Proof.
  intros off info after Hh Hoff Hrecs Hnext Hfit Hrange.
  destruct (on_disk_bounds _ _ _ Hrecs) as (Ho & Hn & Hb).
  destruct (patch_entries_ok info p (blen data)
              (on_disk_slots_ok _ _ _ Hrecs) (on_disk_slots_apart _ _ _ Hrecs) Hfit
              (dict_keys info) data (after + 8) eq_refl
              (fun t => dict_keys_get t info))
    as (data1 & pos1 & Hrun & Hlen & Hnew & Hold).
  assert (Hkey : forall t e, dict_get t info = Some e -> In t (dict_keys info)).
  { intros t e H. apply dict_get_In in H. unfold dict_keys.
    change t with (fst (t, e)). now apply in_map. }
  exists data1, pos1. split; [exact Hlen|]. split; [|split].
  - intros t e Hget Hp.
    apply (Hnew t e); [eapply Hkey; eassumption|assumption|assumption].
  - intros q m Hq Hm Hfree. apply Hold; try assumption.
    intros t e _. apply Hfree.
  - unfold update_ifd. unfold io_bind at 1.
    rewrite (of_stream_single fuel data recs) by assumption.
    fold off after info. cbn [tiff_info next_dir_offsets dict_get Z.eqb Pos.eqb].
    unfold io_bind at 1, io_lift at 1. cbn [subscript].
    unfold io_bind at 1. rewrite Hrun.
    destruct ft; [|reflexivity].
    unfold io_bind at 1, io_lift at 1. cbn [subscript pre_offset_offset].
    unfold io_bind at 1, seek_end at 1. cbn [content].
    unfold io_bind at 1, tell at 1. cbn [position].
    rewrite Hlen.
    unfold io_bind at 1, io_lift at 1. rewrite pack_Q_fits by auto.
    unfold io_bind at 1. rewrite seek_nonneg by (unfold after, record_offset; lia).
    unfold write, io_ret. cbn [content position].
    rewrite blen_le_encode. reflexivity.
Qed.

(** C1 as the code has it.  In a replacement container with a valid
    header and a single readable directory, patching with insertion point
    [p] goes over the directory as parsed, which holds one entry per tag:
    the last record with that tag.  It leaves in the 8-byte value slot of
    every such entry either [data_offset + p - 16] (little-endian), when
    the encoded length of the entry (count times the byte size of its
    type) exceeds 8 or its tag is 273, or the bytes that were there before;
    the slot of a record superseded by a later record with the same tag is
    left as it was, whatever its length and tag.  The patch succeeds for
    any positive fuel once the new values fit an unsigned 64-bit field. *)
Theorem update_ifd_patches_value_slots (ft : file_type) (fuel : nat)
  (data : bytes) (p : Z) (recs : list (Z * ifd_entry)) :
  valid_header data = true ->
  first_directory data <> 0 ->
  on_disk_entries data (first_directory data) = Ok recs ->
  on_disk_next data (first_directory data) = 0 ->
  patches_fit (dict_of_list recs) p = true ->
  (ft = Label -> 0 <= blen data + p < 2 ^ 64) ->
  exists tiff_data r file',
    fst (BigTiffFile_of_stream (S fuel) (mkStream data 0)) = Ok tiff_data /\
    dict_get 1 (tiff_info tiff_data) = Some (dict_of_list recs) /\
    update_ifd ft (S fuel) p (mkStream data 0) = (Ok r, file') /\
    blen (content file') = blen data /\
    (forall tag e, dict_get tag (dict_of_list recs) = Some e ->
       slice (content file') (pre_data_offset e) 8 =
       (if is_patched tag e
        then le_encode 8 (data_offset e + p - 16)
        else slice data (pre_data_offset e) 8) /\
       (is_patched tag e = true ->
        le_decode (slice (content file') (pre_data_offset e) 8)
        = data_offset e + p - 16)) /\
    (forall i tag e,
       0 <= i < entry_count data (first_directory data) ->
       entry_at data (first_directory data) i = Ok (tag, e) ->
       dict_get tag (dict_of_list recs) <> Some e ->
       slice (content file') (pre_data_offset e) 8
       = slice data (pre_data_offset e) 8).
Proof.
  intros Hh Hoff Hrecs Hnext Hfit Hrange.
  destruct (update_ifd_run ft fuel data p recs Hh Hoff Hrecs Hnext Hfit Hrange)
    as (data1 & pos1 & Hlen & Hnew & Hold & Hrun).
  destruct (on_disk_bounds _ _ _ Hrecs) as (Ho & Hn & Hb).
  pose proof (on_disk_slots_ok _ _ _ Hrecs) as Hok.
  pose proof (on_disk_slots_apart _ _ _ Hrecs) as Hapart.
  set (off := first_directory data) in *.
  set (after := record_offset off (entry_count data off)) in *.
  (* the slots after the patch loop *)
  assert (Hslot1 : forall tag e, dict_get tag (dict_of_list recs) = Some e ->
            slice data1 (pre_data_offset e) 8 =
            if is_patched tag e then le_encode 8 (data_offset e + p - 16)
            else slice data (pre_data_offset e) 8).
  { intros tag e Hget. destruct (is_patched tag e) eqn:Hp; [now apply (Hnew tag)|].
    destruct (Hok _ _ Hget) as (Hp0 & _).
    apply Hold; try lia.
    intros t e2 Hget2 Hp2.
    assert (tag <> t) by (intros ->; rewrite Hget in Hget2; congruence).
    destruct (Hapart _ _ _ _ Hget Hget2 H); lia. }
  eexists. exists (match ft with Label => Some (blen data + p) | Macro => None end).
  exists (match ft with
          | Label => mkStream (buf_write data1 after (le_encode 8 (blen data + p)))
                       (after + 8)
          | Macro => mkStream data1 pos1
          end).
  split; [rewrite (of_stream_single fuel data recs) by assumption; reflexivity|].
  split; [reflexivity|].
  split; [rewrite Hrun; now destruct ft|].
  assert (Hafter : 0 <= after) by (unfold after, record_offset; lia).
  split.
  - destruct ft; cbn [content]; [|assumption].
    rewrite blen_buf_write; rewrite ?blen_le_encode; fold after in Hb; lia.
  - split.
    + intros tag e Hget.
      assert (Hs : slice (content match ft with
                          | Label => mkStream (buf_write data1 after
                                        (le_encode 8 (blen data + p))) (after + 8)
                          | Macro => mkStream data1 pos1
                          end) (pre_data_offset e) 8
                   = slice data1 (pre_data_offset e) 8).
      { destruct ft; cbn [content]; [|reflexivity].
        destruct (Hok _ _ Hget) as (Hp0 & _).
        pose proof (on_disk_slot_before_next _ _ _ _ _ Hrecs Hget) as Hbefore.
        fold off after in Hbefore. fold after in Hb.
        apply slice_buf_write_other; rewrite ?blen_le_encode; lia. }
      rewrite Hs, (Hslot1 _ _ Hget). split; [reflexivity|].
      intros Hp. rewrite Hp. apply le_decode_encode_8.
      eapply patches_fit_get; eassumption.
    + intros i tag e Hi Hei Hsup.
      destruct (entry_at_inv _ _ _ _ _ Hei) as (_ & _ & _ & _ & Hpre & _).
      assert (Hs1 : slice data1 (pre_data_offset e) 8
                    = slice data (pre_data_offset e) 8).
      { apply Hold; [rewrite Hpre; unfold record_offset; lia|lia|].
        intros t e2 Hget2 _.
        destruct (on_disk_entry _ _ _ _ _ Hrecs Hget2) as (_ & _ & i2 & Hi2 & Hei2).
        destruct (entry_at_inv _ _ _ _ _ Hei2) as (_ & _ & _ & _ & Hpre2 & _).
        assert (i <> i2).
        { intros ->. fold off in Hei2. rewrite Hei in Hei2.
          inversion Hei2; subst. contradiction. }
        rewrite Hpre, Hpre2. unfold record_offset. lia. }
      rewrite <- Hs1. destruct ft; cbn [content]; [|reflexivity].
      fold after in Hb.
      apply slice_buf_write_other; rewrite ?blen_le_encode; try lia;
        rewrite Hpre; unfold after, record_offset; lia.
Qed.

(** Patching a label replacement with insertion point [p] rewrites the
    8-byte field right after its tag table to the length of the replacement
    itself plus [p], and returns that value. *)
Lemma update_ifd_label_next_pointer (fuel : nat) (data : bytes) (p : Z)
  (recs : list (Z * ifd_entry)) :
  let off := first_directory data in
  let after := record_offset off (entry_count data off) in
  valid_header data = true ->
  off <> 0 ->
  on_disk_entries data off = Ok recs ->
  on_disk_next data off = 0 ->
  patches_fit (dict_of_list recs) p = true ->
  0 <= blen data + p < 2 ^ 64 ->
  exists file',
    update_ifd Label (S fuel) p (mkStream data 0)
    = (Ok (Some (blen data + p)), file') /\
    after = off + 8 + 20 * Z.of_nat (List.length recs) /\
    slice (content file') after 8 = le_encode 8 (blen data + p) /\
    le_decode (slice (content file') after 8) = blen data + p.
Proof.
  intros off after Hh Hoff Hrecs Hnext Hfit Hrange.
  destruct (update_ifd_run Label fuel data p recs Hh Hoff Hrecs Hnext Hfit
              (fun _ => Hrange))
    as (data1 & pos1 & Hlen & Hnew & Hold & Hrun).
  destruct (on_disk_bounds _ _ _ Hrecs) as (Ho & Hn & Hb).
  fold off after in Hb, Hrun.
  assert (Hafter : 0 <= after) by (unfold after, record_offset; fold off; lia).
  eexists. split; [exact Hrun|]. cbn [content].
  assert (Hs : slice (buf_write data1 after (le_encode 8 (blen data + p))) after 8
               = le_encode 8 (blen data + p)).
  { replace 8 with (blen (le_encode 8 (blen data + p))) at 2
      by apply blen_le_encode.
    apply slice_buf_write_same; rewrite ?blen_le_encode; lia. }
  split; [|split; [exact Hs|rewrite Hs; now apply le_decode_encode_8]].
  unfold after, record_offset. now rewrite (on_disk_length _ _ _ Hrecs).
Qed.

End UpdateIfd.

(* ------------------------------------------------------------------ *)
(** ** The value decoder *)

Section DecoderProps.
Context {K : Constants}.

Lemma calcsize_fits (count : Z) (c : fmt_char) :
  count * fmt_size c <= PY_SSIZE_T_MAX ->
  calcsize count c = Ok (count * fmt_size c).
Proof.
  intros H. unfold calcsize.
  now replace (count * fmt_size c >? PY_SSIZE_T_MAX) with false by lia.
Qed.

Lemma fmt_size_pos (c : fmt_char) : 0 < fmt_size c.
Proof. destruct c; reflexivity. Qed.

(** C6 as the code has it.  With [length = count * size of the type]:
    when [length <= 8] (8 included) the value is decoded from the slot
    itself, and this succeeds when the slot is inside the file; when
    [length > 8] the slot is a pointer, and the value is read at the
    pointer target for the tags 270 (image description) and 258
    (bits per sample) only; every other tag, the strip offsets 273 and the
    strip byte counts 279 included, gives the string
    ['Too long to display'].  A returned value leaves the stream where it
    was. *)
Theorem _ifd_value_selective (tag ty count pre slot : Z) (s : stream)
  (c : fmt_char) :
  FORMAT_CHARACTERS ty = Some c ->
  0 <= count ->
  count * fmt_size c <= PY_SSIZE_T_MAX ->
  0 <= pre -> 0 <= slot -> 0 <= position s ->
  let length := count * fmt_size c in
  let data := content s in
  (length <= 8 ->
     fst (_ifd_value tag ty count pre slot s)
     = res_bind (unpack count c (slice data pre length)) (fun v => Ok (VTuple v))
     /\ (pre + 8 <= blen data ->
         _ifd_value tag ty count pre slot s
         = (Ok (VTuple (map (decode_elem c)
                          (chunks (Z.to_nat count) (Z.to_nat (fmt_size c))
                             (slice data pre length)))), s)))
  /\ (8 < length -> tag = 270 \/ tag = 258 ->
      fst (_ifd_value tag ty count pre slot s)
      = res_bind (unpack count c (slice data slot length)) (fun v =>
          if get_is (TYPE_DICT ty) "ASCII"
          then res_bind (bytes_join v) (fun j => Ok (VBytes j))
          else Ok (VTuple v)))
  /\ ((8 < length -> tag <> 270 -> tag <> 258 ->
       _ifd_value tag ty count pre slot s
       = (Ok (VStr "Too long to display"), s))
  /\ (forall v, fst (_ifd_value tag ty count pre slot s) = Ok v ->
      _ifd_value tag ty count pre slot s = (Ok v, s))).
Proof.
  intros Hc Hcount Hmax Hpre Hslot Hpos length data.
  pose proof (_ifd_value_fst tag ty count pre slot s Hpre Hslot Hpos) as Hfst.
  assert (Hval : forall v, value_at data tag ty count pre slot = Ok v ->
                 _ifd_value tag ty count pre slot s = (Ok v, s))
    by (intros v; now apply _ifd_value_ok).
  fold data in Hfst.
  unfold value_at in Hfst, Hval.
  rewrite Hc in Hfst, Hval. cbn [subscript res_bind] in Hfst, Hval.
  rewrite (calcsize_fits _ _ Hmax) in Hfst, Hval. cbn [res_bind] in Hfst, Hval.
  fold length in Hfst, Hval.
  split; [|split; [|split]].
  - intros Hle. split.
    + rewrite Hfst. now replace (length <=? 8) with true by lia.
    + intros Hb. apply Hval. replace (length <=? 8) with true by lia.
      unfold unpack. rewrite (calcsize_fits _ _ Hmax). cbn [res_bind].
      pose proof (fmt_size_pos c).
      rewrite blen_slice by (unfold length in *; nia).
      fold length. now rewrite Z.eqb_refl.
  - intros Hgt Htag. rewrite Hfst. replace (length <=? 8) with false by lia.
    replace ((tag =? 270) || (tag =? 258)) with true
      by (destruct Htag; subst; reflexivity).
    reflexivity.
  - intros Hgt H270 H258. apply Hval.
    replace (length <=? 8) with false by lia.
    replace (tag =? 270) with false by lia.
    now replace (tag =? 258) with false by lia.
  - intros v Hv. apply Hval. now rewrite <- Hfst.
Qed.

End DecoderProps.

(* ------------------------------------------------------------------ *)
(** ** The directory reader *)

Lemma dict_keys_set {V} (k : Z) (v : V) (d : dict V) :
  dict_keys (dict_set k v d) =
  if existsb (Z.eqb k) (dict_keys d) then dict_keys d else dict_keys d ++ [k].
Proof.
  unfold dict_keys.
  induction d as [|[k0 v0] d IH]; cbn [dict_set map fst existsb]; [reflexivity|].
  destruct (k =? k0) eqn:E; cbn [orb map fst].
  - apply Z.eqb_eq in E. now subst.
  - rewrite IH. now destruct (existsb (Z.eqb k) (map fst d)).
Qed.

Lemma fold_dict_set_keys {V} (l : list (Z * V)) :
  forall acc : dict V,
  dict_keys (fold_left (fun d x => dict_set (fst x) (snd x) d) l acc)
  = dict_keys acc ++ first_occurrences (dict_keys acc) (map fst l).
Proof.
  induction l as [|[k v] l IH]; intros acc;
    cbn [fold_left map fst snd first_occurrences].
  - now rewrite app_nil_r.
  - rewrite IH, dict_keys_set.
    destruct (existsb (Z.eqb k) (dict_keys acc)); [reflexivity|].
    now rewrite <- app_assoc.
Qed.

Lemma fold_dict_set_get {V} (l : list (Z * V)) :
  forall (acc : dict V) (k : Z),
  dict_get k (fold_left (fun d x => dict_set (fst x) (snd x) d) l acc)
  = match last_assoc k l with
    | Some v => Some v
    | None => dict_get k acc
    end.
Proof.
  induction l as [|[k0 v0] l IH]; intros acc k;
    cbn [fold_left fst snd last_assoc]; [reflexivity|].
  rewrite IH. destruct (last_assoc k l); [reflexivity|].
  rewrite dict_get_set. now destruct (k =? k0).
Qed.

Lemma dict_set_fresh {V} (k : Z) (v : V) (d : dict V) :
  ~ In k (dict_keys d) -> dict_set k v d = d ++ [(k, v)].
Proof.
  unfold dict_keys.
  induction d as [|[k0 v0] d IH]; cbn [dict_set map fst app]; [reflexivity|].
  intros H. destruct (k =? k0) eqn:E.
  - apply Z.eqb_eq in E. subst. exfalso. apply H. now left.
  - f_equal. apply IH. intros Hin. apply H. now right.
Qed.

Lemma fold_dict_set_distinct {V} (l : list (Z * V)) :
  forall acc : dict V,
  NoDup (dict_keys acc ++ map fst l) ->
  fold_left (fun d x => dict_set (fst x) (snd x) d) l acc = acc ++ l.
Proof.
  induction l as [|[k v] l IH]; intros acc H; cbn [fold_left fst snd map] in *.
  - now rewrite app_nil_r.
  - assert (Hk : ~ In k (dict_keys acc)).
    { intros Hin. apply NoDup_remove_2 in H. apply H.
      apply in_or_app. now left. }
    rewrite dict_set_fresh by assumption.
    rewrite IH.
    + now rewrite <- app_assoc.
    + unfold dict_keys in *. rewrite map_app, <- app_assoc. exact H.
Qed.

Section DirectoryProps.
Context {K : Constants}.

(** C9 as the code has it.  For a directory whose count, [N] records and
    next-directory offset are readable, [_read_IFDs] returns the
    next-directory offset and stores under the new directory number a
    dictionary keyed by tag: its keys are the tags of the [N] records in
    order of first occurrence, and each key holds the fields of the last
    record with that tag.  When the [N] tags are pairwise distinct the
    dictionary is the sequence of all [N] entries in file order. *)
Theorem read_IFDs_keeps_one_entry_per_tag (self : BigTiffFile) (data : bytes)
  (pos off : Z) (recs : list (Z * ifd_entry)) :
  on_disk_entries data off = Ok recs ->
  exists self' s' info,
    _read_IFDs self off (mkStream data pos)
    = (Ok (self', on_disk_next data off), s') /\
    content s' = data /\
    Z.of_nat (List.length recs) = entry_count data off /\
    dict_get (directory_count self + 1) (tiff_info self') = Some info /\
    dict_keys info = first_occurrences [] (map fst recs) /\
    (forall tag, dict_get tag info = last_assoc tag recs) /\
    (NoDup (map fst recs) -> info = recs).
Proof.
  intros Hrecs.
  eexists. eexists. exists (dict_of_list recs).
  split; [apply read_IFDs_ok; exact Hrecs|].
  split; [reflexivity|].
  split; [now apply on_disk_length|].
  split; [cbn [tiff_info]; now rewrite dict_get_set, Z.eqb_refl|].
  unfold dict_of_list. split; [|split].
  - now rewrite fold_dict_set_keys.
  - intros tag. rewrite fold_dict_set_get. now destruct (last_assoc tag recs).
  - intros Hnd. now rewrite fold_dict_set_distinct.
Qed.

End DirectoryProps.

(* ------------------------------------------------------------------ *)
(** ** Zero-fill *)

Lemma byte_at_repeat (n : nat) (i : Z) :
  byte_at (repeat x00 n) i =
  if (0 <=? i) && (i <? Z.of_nat n) then Some x00 else None.
Proof.
  unfold byte_at. destruct (i <? 0) eqn:Hi.
  - now replace (0 <=? i) with false by lia.
  - replace (0 <=? i) with true by lia. cbn [andb].
    destruct (i <? Z.of_nat n) eqn:Hn.
    + apply nth_error_repeat. lia.
    + apply nth_error_None. rewrite repeat_length. lia.
Qed.

Lemma blen_repeat (n : nat) : blen (repeat x00 n) = Z.of_nat n.
Proof. unfold blen. now rewrite repeat_length. Qed.

(** ** Writes at any position *)

Lemma slice_buf_write_same_gen (data : bytes) (p : Z) (bs : bytes) :
  0 <= p -> slice (buf_write data p bs) p (blen bs) = bs.
Proof.
  intros Hp. unfold buf_write, slice, blen.
  destruct bs as [|b bs]; [reflexivity|].
  set (padded := (data ++ repeat x00 (Z.to_nat p - List.length data))%list).
  assert (Hlen : (Z.to_nat p <= List.length padded)%nat).
  { unfold padded. rewrite length_app, repeat_length. lia. }
  rewrite skipn_app, length_firstn.
  replace (Z.to_nat p - Nat.min (Z.to_nat p) (List.length padded))%nat
    with 0%nat by lia.
  rewrite skipn_all2 by (rewrite length_firstn; lia).
  cbn [skipn app]. rewrite Nat2Z.id.
  change (b :: bs ++ ?r)%list with ((b :: bs) ++ r)%list.
  rewrite firstn_app, Nat.sub_diag, firstn_all. cbn [firstn].
  now rewrite app_nil_r.
Qed.

Lemma slice_buf_write_before (data : bytes) (p : Z) (bs : bytes) (q m : Z) :
  0 <= q -> 0 <= m -> q + m <= p -> q + m <= blen data ->
  slice (buf_write data p bs) q m = slice data q m.
Proof.
  intros Hq Hm Hp Hb. unfold buf_write, slice, blen in *.
  destruct bs as [|b bs]; [reflexivity|].
  set (padded := (data ++ repeat x00 (Z.to_nat p - List.length data))%list).
  assert (Hlen : (Z.to_nat p <= List.length padded)%nat).
  { unfold padded. rewrite length_app, repeat_length. lia. }
  rewrite skipn_app, firstn_app, length_skipn, length_firstn.
  replace (Z.to_nat m - (Nat.min (Z.to_nat p) (List.length padded) - Z.to_nat q))%nat
    with 0%nat by lia.
  cbn [firstn]. rewrite app_nil_r, skipn_firstn_comm, firstn_firstn.
  replace (Nat.min (Z.to_nat m) (Z.to_nat p - Z.to_nat q)) with (Z.to_nat m) by lia.
  unfold padded. rewrite skipn_app, firstn_app, length_skipn.
  replace (Z.to_nat m - (List.length data - Z.to_nat q))%nat with 0%nat by lia.
  cbn [firstn]. now rewrite app_nil_r.
Qed.

Lemma blen_buf_write_ge (data : bytes) (p : Z) (bs : bytes) :
  0 <= p ->
  blen data <= blen (buf_write data p bs) /\
  (bs <> [] -> p + blen bs <= blen (buf_write data p bs)).
Proof.
  intros Hp. unfold buf_write, blen.
  destruct bs as [|b bs]; [split; [lia|congruence]|].
  set (padded := (data ++ repeat x00 (Z.to_nat p - List.length data))%list).
  assert (Hlen : List.length padded = Nat.max (List.length data) (Z.to_nat p)).
  { unfold padded. rewrite length_app, repeat_length. lia. }
  rewrite !length_app, length_firstn, length_skipn, Hlen.
  cbn [List.length]. split; [lia|intros _; lia].
Qed.

Lemma blen_buf_write_end (data : bytes) (p : Z) (bs : bytes) :
  0 <= p <= blen data -> p + blen bs <= blen (buf_write data p bs).
Proof.
  intros Hp. destruct bs as [|b bs].
  - unfold buf_write, blen in *. cbn [List.length]. lia.
  - apply blen_buf_write_ge; [lia|discriminate].
Qed.

Lemma byte_at_ext (a b : bytes) :
  (forall i, byte_at a i = byte_at b i) -> a = b.
Proof.
  intros H. apply nth_error_ext. intros n.
  specialize (H (Z.of_nat n)). unfold byte_at in H.
  replace (Z.of_nat n <? 0) with false in H by zbool.
  now rewrite Nat2Z.id in H.
Qed.

Lemma byte_at_slice (data : bytes) (p n i : Z) :
  0 <= p ->
  byte_at (slice data p n) i =
  if (0 <=? i) && (i <? n) then byte_at data (p + i) else None.
Proof.
  intros Hp. unfold byte_at, slice.
  destruct (i <? 0) eqn:Hi.
  - now replace (0 <=? i) with false by zbool.
  - apply Z.ltb_ge in Hi. replace (0 <=? i) with true by zbool. cbn [andb].
    replace (p + i <? 0) with false by zbool.
    destruct (i <? n) eqn:Hn.
    + apply Z.ltb_lt in Hn. rewrite nth_error_firstn.
      replace (Z.to_nat i <? Z.to_nat n)%nat with true
        by (symmetry; apply Nat.ltb_lt; lia).
      rewrite nth_error_skipn. f_equal. lia.
    + apply Z.ltb_ge in Hn. apply nth_error_None.
      rewrite length_firstn. lia.
Qed.

Lemma byte_at_zeroed (data : bytes) (off count i : Z) :
  0 <= off -> 0 <= count -> off + count <= blen data ->
  byte_at (buf_write data off (repeat x00 (Z.to_nat count))) i =
  if (off <=? i) && (i <? off + count) then Some x00 else byte_at data i.
Proof.
  intros Hoff Hcount Hb.
  assert (Hlen : blen (repeat x00 (Z.to_nat count)) = count)
    by (rewrite blen_repeat; lia).
  rewrite byte_at_buf_write by lia. rewrite Hlen.
  destruct ((off <=? i) && (i <? off + count)) eqn:E; [|reflexivity].
  apply andb_prop in E as [E1 E2]. rewrite byte_at_repeat.
  apply Z.leb_le in E1. apply Z.ltb_lt in E2.
  rewrite Z2Nat.id by assumption.
  replace (0 <=? i - off) with true by zbool.
  now replace (i - off <? count) with true by zbool.
Qed.

Lemma zero_fill_inside (data : bytes) (pos off count : Z) :
  0 <= off -> 0 <= count -> off + count <= blen data ->
  exists data',
    zero_fill off count (mkStream data pos) = (Ok tt, mkStream data' (off + count)) /\
    blen data' = blen data /\
    forall i, byte_at data' i =
              if (off <=? i) && (i <? off + count) then Some x00 else byte_at data i.
Proof.
  intros Hoff Hcount Hb.
  exists (buf_write data off (repeat x00 (Z.to_nat count))).
  assert (Hlen : blen (repeat x00 (Z.to_nat count)) = count)
    by (rewrite blen_repeat; lia).
  split; [|split].
  - unfold zero_fill, io_bind. rewrite seek_nonneg by assumption.
    unfold write. cbn [content position]. now rewrite Hlen.
  - apply blen_buf_write; lia.
  - intros i. rewrite byte_at_buf_write by lia. rewrite Hlen.
    destruct ((off <=? i) && (i <? off + count)) eqn:E; [|reflexivity].
    apply andb_prop in E as [E1 E2]. rewrite byte_at_repeat.
    apply Z.leb_le in E1. apply Z.ltb_lt in E2.
    rewrite Z2Nat.id by assumption.
    replace (0 <=? i - off) with true by (symmetry; apply Z.leb_le; lia).
    now replace (i - off <? count) with true by (symmetry; apply Z.ltb_lt; lia).
Qed.







(** The guard of [de_identify_slide]: on a protected path nothing is
    written, whatever the descriptors are. *)
Lemma de_identify_refuses_protected_path (self : BigTiffFile) (fs : filesystem) :
  str_contains "DigitalPathology" (path_text self) = true ->
  exists e, de_identify_slide self fs = (Raise e, fs).
Proof.
  intros Hguard. unfold de_identify_slide. rewrite Hguard.
  destruct (_label self); cbn [aux_field res_bind]; [|eauto].
  destruct (_macro self); cbn [aux_field res_bind]; eauto.
Qed.

(* ------------------------------------------------------------------ *)
(** ** The label and macro locator *)

Section LocatorProps.
Context {K : Constants}.

Ltac break_match H :=
  repeat match type of H with
         | context [match ?x with _ => _ end] =>
             destruct x; try discriminate; cbn beta iota in H
         end.

(** Reading a directory leaves the path and the two descriptors alone. *)
Lemma read_IFDs_keeps (self self' : BigTiffFile) (off n : Z) (s s' : stream) :
  _read_IFDs self off s = (Ok (self', n), s') ->
  file_path self' = file_path self /\
  _label self' = _label self /\ _macro self' = _macro self.
Proof.
  unfold _read_IFDs, io_bind, io_lift, io_ret, tell. intros H.
  break_match H. inversion H; subst. cbn. auto.
Qed.

Lemma read_chain_keeps (fuel : nat) :
  forall (self self' : BigTiffFile) (next : Z) (s s' : stream),
  read_chain fuel self next s = (Ok self', s') ->
  file_path self' = file_path self /\
  _label self' = _label self /\ _macro self' = _macro self.
Proof.
  induction fuel as [|fuel IH]; intros self self' next s s' H;
    cbn [read_chain] in H.
  - destruct (next =? 0); [|discriminate].
    unfold io_ret in H. inversion H; subst. auto.
  - destruct (next =? 0).
    + unfold io_ret in H. inversion H; subst. auto.
    + unfold io_bind in H.
      destruct (_read_IFDs self next s) as [[[self1 n1]| |] s1] eqn:E;
        try discriminate.
      apply read_IFDs_keeps in E. apply IH in H.
      destruct E as (E1 & E2 & E3), H as (H1 & H2 & H3). repeat split; congruence.
Qed.

(** What [__init__] on a path returns went through
    [_get_label_and_macro_info], starting with both descriptors unset. *)
Lemma of_path_inv (fuel : nat) (fs : filesystem) (path : string)
  (self : BigTiffFile) :
  BigTiffFile_of_path fuel fs path = Ok self ->
  exists self0,
    _label self0 = None /\ _macro self0 = None /\
    file_path self0 = Some path /\
    _get_label_and_macro_info self0 = Ok self.
Proof.
  unfold BigTiffFile_of_path, with_open_rb. intros H.
  destruct (open_file fs path) as [f| |]; cbn [res_bind] in H; try discriminate.
  unfold io_bind in H.
  destruct (_read_header f) as [[off| |] s1]; cbn [fst res_bind] in H;
    try discriminate.
  destruct (read_chain fuel (new_BigTiffFile (Some path)) off s1)
    as [[self0| |] s2] eqn:E; cbn [fst res_bind] in H; try discriminate.
  apply read_chain_keeps in E. destruct E as (E1 & E2 & E3).
  exists self0. cbn in E1, E2, E3. auto.
Qed.

Lemma locator_keeps_tiff_info (self self' : BigTiffFile) :
  _get_label_and_macro_info self = Ok self' ->
  tiff_info self' = tiff_info self /\ file_path self' = file_path self.
Proof.
  unfold _get_label_and_macro_info. intros H.
  destruct (subscript (dict_get _ (tiff_info self))) as [ldir| |];
    cbn [res_bind] in H; try discriminate.
  destruct (subscript (dict_get 259 ldir)) as [e259| |];
    cbn [res_bind] in H; try discriminate.
  destruct (label_test _ _) as [is_label| |]; cbn [res_bind] in H;
    try discriminate.
  destruct (if is_label then _ else Ok self) as [self1| |] eqn:E1;
    cbn [res_bind] in H; try discriminate.
  assert (H1 : tiff_info self1 = tiff_info self /\ file_path self1 = file_path self).
  { destruct is_label.
    - destruct (aux_of _ ldir); cbn [res_bind] in E1; try discriminate.
      inversion E1; subst. auto.
    - inversion E1; subst. auto. }
  destruct (subscript (dict_get _ (tiff_info self1))) as [mdir| |];
    cbn [res_bind] in H; try discriminate.
  destruct (subscript (dict_get 259 mdir)) as [m259| |];
    cbn [res_bind] in H; try discriminate.
  destruct (macro_test _ _) as [[|]| |]; cbn [res_bind] in H; try discriminate.
  - destruct (aux_of _ mdir); cbn [res_bind] in H; try discriminate.
    inversion H; subst. cbn. exact H1.
  - inversion H; subst. exact H1.
Qed.

(** A candidate that fails its test leaves its descriptor as it was. *)
Lemma locator_unmatched (self self' : BigTiffFile)
  (ldir mdir : dict ifd_entry) (e259 m259 : ifd_entry) :
  _get_label_and_macro_info self = Ok self' ->
  dict_get (dict_len (tiff_info self) - 1) (tiff_info self) = Some ldir ->
  dict_get 259 ldir = Some e259 ->
  dict_get (dict_len (tiff_info self)) (tiff_info self) = Some mdir ->
  dict_get 259 mdir = Some m259 ->
  (label_test (data_offset e259) (option_value (dict_get 270 ldir)) = Ok false ->
   _label self' = _label self) /\
  (macro_test (data_offset m259) (option_value (dict_get 270 mdir)) = Ok false ->
   _macro self' = _macro self).
Proof.
  unfold _get_label_and_macro_info. intros H Hl He Hm Hme.
  rewrite Hl in H. cbn [subscript res_bind] in H.
  rewrite He in H. cbn [subscript res_bind] in H.
  destruct (label_test _ _) as [[|]| |] eqn:Elabel; cbn [res_bind] in H;
    try discriminate.
  - destruct (aux_of _ ldir) as [a| |]; cbn [res_bind] in H; try discriminate.
    cbn [set_label tiff_info] in H. rewrite Hm in H. cbn [subscript res_bind] in H.
    rewrite Hme in H. cbn [subscript res_bind] in H.
    split; [discriminate|].
    intros Emacro. rewrite Emacro in H. cbn [res_bind] in H.
    inversion H; subst. reflexivity.
  - rewrite Hm in H. cbn [subscript res_bind] in H.
    rewrite Hme in H. cbn [subscript res_bind] in H.
    destruct (macro_test _ _) as [[|]| |] eqn:Emacro; cbn [res_bind] in H;
      try discriminate.
    + destruct (aux_of _ mdir) as [a| |]; cbn [res_bind] in H; try discriminate.
      inversion H; subst. split; [reflexivity|discriminate].
    + inversion H; subst. split; reflexivity.
Qed.

(** C4 as the code has it.  In a parsed file, a candidate directory that
    fails its test leaves its descriptor unset ([None]); every operation
    that then reads the descriptor raises [TypeError] (subscripting
    [None]) before it opens the file, whichever of the two is missing. *)
Theorem unmatched_candidate_raises_TypeError (fuel : nat) (fs fs' : filesystem)
  (path : string) (self : BigTiffFile) (ldir mdir : dict ifd_entry)
  (e259 m259 : ifd_entry) :
  BigTiffFile_of_path fuel fs path = Ok self ->
  dict_get (dict_len (tiff_info self) - 1) (tiff_info self) = Some ldir ->
  dict_get 259 ldir = Some e259 ->
  dict_get (dict_len (tiff_info self)) (tiff_info self) = Some mdir ->
  dict_get 259 mdir = Some m259 ->
  (label_test (data_offset e259) (option_value (dict_get 270 ldir)) = Ok false ->
   _label self = None /\
   de_identify_slide self fs' = (Raise TypeError, fs') /\
   _get_label_data self fs' = Raise TypeError /\
   label_IFD_offset_adjustment self = Raise TypeError) /\
  (macro_test (data_offset m259) (option_value (dict_get 270 mdir)) = Ok false ->
   _macro self = None /\
   de_identify_slide self fs' = (Raise TypeError, fs')).
Proof.
  intros Hparse Hl He Hm Hme.
  destruct (of_path_inv _ _ _ _ Hparse) as (self0 & Hl0 & Hm0 & _ & Hloc).
  destruct (locator_keeps_tiff_info _ _ Hloc) as (Hinfo & _).
  rewrite Hinfo in Hl, Hm.
  destruct (locator_unmatched _ _ _ _ _ _ Hloc Hl He Hm Hme) as (HL & HM).
  split.
  - intros Htest. specialize (HL Htest). rewrite Hl0 in HL.
    unfold de_identify_slide, _get_label_data, label_IFD_offset_adjustment.
    rewrite HL. cbn [aux_field res_bind]. auto.
  - intros Htest. specialize (HM Htest). rewrite Hm0 in HM.
    unfold de_identify_slide. rewrite HM.
    destruct (_label self); cbn [aux_field res_bind]; auto.
Qed.

(** Without a description, a label candidate passes on its compression
    alone; when the compression is not LZW the test itself raises
    [TypeError] (the [in] test on [None]). *)
Lemma label_test_without_description (compression : Z) :
  label_test compression None =
  if get_is (COMPRESSION compression) "LZW" then Ok true else Raise TypeError.
Proof. unfold label_test. now destruct (get_is _ _). Qed.

Lemma macro_test_without_description (compression : Z) :
  macro_test compression None =
  if get_is (COMPRESSION compression) "JPEG"
     || get_is (COMPRESSION compression) "JPEG 7"
  then Ok true else Raise TypeError.
Proof. unfold macro_test. now destruct (_ || _). Qed.

End LocatorProps.

(* ------------------------------------------------------------------ *)
(** ** Which exceptions the code raises *)

Lemma catchable_Raise {A C} (e : exn) :
  @catchable A (Raise e) -> @catchable C (Raise e).
Proof. unfold catchable. intros H E. apply H. congruence. Qed.

Lemma catchable_bind {A C} (m : res A) (k : A -> res C) :
  catchable m -> (forall a, catchable (k a)) -> catchable (res_bind m k).
Proof.
  unfold catchable. intros Hm Hk. destruct m as [a|e|]; cbn [res_bind].
  - apply Hk.
  - intros H. apply Hm. congruence.
  - discriminate.
Qed.

Lemma catchable_io_bind {A C} (m : io A) (k : A -> io C) :
  catchable_io m -> (forall a, catchable_io (k a)) -> catchable_io (io_bind m k).
Proof.
  unfold catchable_io, catchable, io_bind. intros Hm Hk s.
  specialize (Hm s). destruct (m s) as [[a|e|] s']; cbn [fst] in *.
  - apply Hk.
  - intros H. apply Hm. congruence.
  - discriminate.
Qed.

Lemma catchable_io_lift {A} (r : res A) : catchable r -> catchable_io (io_lift r).
Proof. intros H s. exact H. Qed.

Lemma catchable_io_ret {A} (a : A) : catchable_io (io_ret a).
Proof. intros s. discriminate. Qed.

Lemma catchable_read (n : Z) : catchable_io (read n).
Proof. intros s. discriminate. Qed.

Lemma catchable_tell : catchable_io tell.
Proof. intros s. discriminate. Qed.

Lemma catchable_seek (p : Z) : catchable_io (seek p).
Proof. intros s. unfold seek. destruct (p <? 0); discriminate. Qed.

Lemma catchable_seek_end : catchable_io seek_end.
Proof. intros s. discriminate. Qed.

Lemma catchable_write (bs : bytes) : catchable_io (write bs).
Proof. intros s. discriminate. Qed.

Lemma catchable_subscript {A} (o : option A) : catchable (subscript o).
Proof. destruct o; discriminate. Qed.

Lemma catchable_calcsize (count : Z) (c : fmt_char) : catchable (calcsize count c).
Proof. unfold calcsize. destruct (_ >? _); discriminate. Qed.

Lemma catchable_unpack (count : Z) (c : fmt_char) (data : bytes) :
  catchable (unpack count c data).
Proof.
  unfold unpack. apply catchable_bind; [apply catchable_calcsize|].
  intros size. destruct (_ =? _); discriminate.
Qed.

Lemma catchable_unpack_H (data : bytes) : catchable (unpack_H data).
Proof. unfold unpack_H. destruct (_ =? _); discriminate. Qed.

Lemma catchable_unpack_HH (data : bytes) : catchable (unpack_HH data).
Proof. unfold unpack_HH. destruct (_ =? _); discriminate. Qed.

Lemma catchable_unpack_Q (data : bytes) : catchable (unpack_Q data).
Proof. unfold unpack_Q. destruct (_ =? _); discriminate. Qed.

Lemma catchable_unpack_HHQ (data : bytes) : catchable (unpack_HHQ data).
Proof. unfold unpack_HHQ. destruct (_ =? _); discriminate. Qed.

Lemma catchable_pack_Q (v : Z) : catchable (pack_Q v).
Proof. unfold pack_Q. destruct (_ && _); discriminate. Qed.

Lemma catchable_utf8_decode2 (b : bytes) : catchable (utf8_decode2 b).
Proof.
  unfold utf8_decode2. destruct b as [|a [|c [|d l]]]; try discriminate.
  - destruct (_ <? _); discriminate.
  - destruct (_ || _); discriminate.
Qed.

Lemma catchable_bytes_join (l : list elem) : catchable (bytes_join l).
Proof.
  induction l as [|[z|b|f] l IH]; cbn [bytes_join]; try discriminate.
  apply catchable_bind; [exact IH|]. intros t. discriminate.
Qed.

Lemma catchable_bytes_in (needle : bytes) (v : option pyvalue) :
  catchable (bytes_in needle v).
Proof. destruct v as [[l|b|s]|]; discriminate. Qed.

Lemma catchable_aux_field {A} (o : option aux_image) (f : aux_image -> A) :
  catchable (aux_field o f).
Proof. destruct o; discriminate. Qed.

Lemma catchable_with_open_rb {A} (fs : filesystem) (path : string) (body : io A) :
  catchable_io body -> catchable (with_open_rb fs path body).
Proof.
  intros H. unfold with_open_rb, open_file.
  destruct (fs path); [apply H|discriminate].
Qed.

Lemma catchable_with_open_rw {A} (fs : filesystem) (path : string) (body : io A) :
  catchable_io body -> catchable (fst (with_open_rw fs path body)).
Proof.
  intros H. unfold with_open_rw, open_file.
  destruct (fs path) as [data|]; [|discriminate].
  specialize (H (mkStream data 0)). now destruct (body (mkStream data 0)).
Qed.

Section Catchable.
Context {K : Constants}.

Ltac calm :=
  repeat first
    [ apply catchable_io_bind; [|intros ?]
    | apply catchable_io_ret | apply catchable_read | apply catchable_tell
    | apply catchable_seek | apply catchable_seek_end | apply catchable_write
    | apply catchable_io_lift
    | apply catchable_bind; [|intros ?]
    | apply catchable_subscript | apply catchable_calcsize
    | apply catchable_unpack | apply catchable_unpack_H
    | apply catchable_unpack_HH | apply catchable_unpack_Q
    | apply catchable_unpack_HHQ | apply catchable_pack_Q
    | apply catchable_utf8_decode2 | apply catchable_bytes_join
    | apply catchable_bytes_in | apply catchable_aux_field
    | match goal with
      | |- catchable_io (if ?b then _ else _) => destruct b
      | |- catchable (if ?b then _ else _) => destruct b
      | |- catchable_io (match ?x with _ => _ end) => destruct x
      | |- catchable (match ?x with _ => _ end) => destruct x
      | |- catchable (Ok _) => discriminate
      | |- catchable (Raise _) => discriminate
      | |- catchable OutOfFuel => discriminate
      end ].

Lemma catchable_read_header : catchable_io _read_header.
Proof. unfold _read_header. calm. Qed.

Lemma catchable_ifd_value (tag ty count pre slot : Z) :
  catchable_io (_ifd_value tag ty count pre slot).
Proof. unfold _ifd_value. calm. Qed.

Lemma catchable_read_entries (n : nat) :
  forall info, catchable_io (read_entries n info).
Proof.
  induction n as [|n IH]; intros info; cbn [read_entries]; calm;
    first [apply IH|apply catchable_ifd_value].
Qed.

Lemma catchable_read_IFDs (self : BigTiffFile) (off : Z) :
  catchable_io (_read_IFDs self off).
Proof. unfold _read_IFDs. calm; apply catchable_read_entries. Qed.

Lemma catchable_read_chain (fuel : nat) :
  forall self off, catchable_io (read_chain fuel self off).
Proof.
  induction fuel as [|fuel IH]; intros self off; cbn [read_chain]; calm;
    first [apply IH|apply catchable_read_entries].
Qed.

Lemma catchable_of_stream (fuel : nat) : catchable_io (BigTiffFile_of_stream fuel).
Proof.
  unfold BigTiffFile_of_stream. calm; apply catchable_read_chain.
Qed.

Lemma catchable_locator (self : BigTiffFile) :
  catchable (_get_label_and_macro_info self).
Proof.
  unfold _get_label_and_macro_info, label_test, macro_test, aux_of. calm.
Qed.

Lemma catchable_of_path (fuel : nat) (fs : filesystem) (path : string) :
  catchable (BigTiffFile_of_path fuel fs path).
Proof.
  unfold BigTiffFile_of_path. apply catchable_bind.
  - apply catchable_with_open_rb. calm; apply catchable_read_chain.
  - intros self. apply catchable_locator.
Qed.

Lemma catchable_de_identify (self : BigTiffFile) (fs : filesystem) :
  catchable (fst (de_identify_slide self fs)).
Proof.
  unfold de_identify_slide.
  destruct (_label self), (_macro self); cbn [aux_field res_bind];
    try discriminate.
  destruct (str_contains _ _); [discriminate|].
  destruct (file_path self); [|discriminate].
  apply catchable_with_open_rw. unfold zero_fill. calm.
Qed.

Lemma catchable_offset_adjustment (self : BigTiffFile) :
  catchable (label_IFD_offset_adjustment self).
Proof. unfold label_IFD_offset_adjustment. calm. Qed.

Lemma catchable_get_slide_offset (fuel : nat) (path : string) (remove : bool)
  (fs : filesystem) :
  catchable (fst (_get_slide_offset fuel path remove fs)).
Proof.
  unfold _get_slide_offset.
  pose proof (catchable_of_path fuel fs path) as Hp.
  destruct (BigTiffFile_of_path fuel fs path) as [slide| |]; cbn [fst];
    [|exact (catchable_Raise _ Hp)|discriminate].
  destruct remove; [|apply catchable_offset_adjustment].
  pose proof (catchable_de_identify slide fs) as Hd.
  destruct (de_identify_slide slide fs) as [[u| |] fs']; cbn [fst] in *;
    [apply catchable_offset_adjustment|exact (catchable_Raise _ Hd)|discriminate].
Qed.

Lemma catchable_patch_entries (info : dict ifd_entry) (p : Z) (tags : list Z) :
  catchable_io (patch_entries info p tags).
Proof.
  induction tags as [|t tags IH]; cbn [patch_entries]; calm;
    first [exact IH|unfold patch_entry; calm].
Qed.

Lemma catchable_update_ifd (ft : file_type) (fuel : nat) (p : Z) :
  catchable_io (update_ifd ft fuel p).
Proof.
  unfold update_ifd. calm;
    first [apply catchable_patch_entries|apply catchable_read_chain].
Qed.

Lemma catchable_switch_labels (self : LabelSwitcher) (fs : filesystem) :
  catchable (fst (switch_labels self fs)).
Proof. unfold switch_labels. apply catchable_with_open_rw. calm. Qed.

End Catchable.

(* ------------------------------------------------------------------ *)
(** ** The batch driver *)

Section BatchProps.
Context {K : Constants} {B : ImageBuilder} {P : Pathlib} {T : Builtins}.

Lemma say_bind_quiet_Ok {A C} (a : A) (k : A -> say C) :
  say_bind (quiet (Ok a)) k = k a.
Proof. unfold say_bind, quiet. now destruct (k a). Qed.

Lemma say_bind_fst_job {A} (m : say A) (k : A -> say (option job)) (j : job) :
  fst (say_bind m k) = Ok (Some j) ->
  exists a, fst m = Ok a /\ fst (k a) = Ok (Some j).
Proof.
  unfold say_bind. destruct m as [[a| |] out]; cbn [fst]; try discriminate.
  destruct (k a) as [r out'] eqn:E. cbn [fst]. intros ->.
  exists a. now rewrite E.
Qed.

(** [prepare_row] hands a job to the [try] block only for a slide
    numbered 563 or more. *)
Lemma prepare_row_job (col : string) (dir : option string) (r : row) (j : job) :
  fst (prepare_row col dir r) = Ok (Some j) ->
  exists n, slide_number col dir r = Ok n /\ 563 <= n.
Proof.
  unfold prepare_row, slide_number. intros H.
  destruct (row_get r col) as [c| |]; try discriminate.
  rewrite say_bind_quiet_Ok in H. cbn [res_bind].
  destruct (Path_of c) as [slide| |]; try discriminate.
  rewrite say_bind_quiet_Ok in H. cbn [res_bind].
  destruct (str_contains _ _); [discriminate|].
  apply say_bind_fst_job in H as (t1 & _ & H).
  apply say_bind_fst_job in H as (t2 & _ & H).
  apply say_bind_fst_job in H as (t3 & _ & H).
  apply say_bind_fst_job in H as (t4 & _ & H).
  apply say_bind_fst_job in H as (n & Hn & H).
  cbn [quiet fst] in Hn. exists n. split; [exact Hn|].
  destruct (n <? 563) eqn:E; [discriminate|]. lia.
Qed.

Lemma say_bind_no_fuel {A C} (m : say A) (k : A -> say C) :
  fst m <> OutOfFuel -> (forall a, fst (k a) <> OutOfFuel) ->
  fst (say_bind m k) <> OutOfFuel.
Proof.
  unfold say_bind. intros Hm Hk.
  destruct m as [[a| |] out]; cbn [fst] in *; try discriminate.
  - specialize (Hk a). destruct (k a). exact Hk.
  - contradiction.
Qed.

Lemma row_get_no_fuel (r : row) (h : string) : row_get r h <> OutOfFuel.
Proof.
  induction r as [|[h0 c0] r IH]; cbn [row_get]; [discriminate|].
  destruct (String.eqb h0 h); [discriminate|exact IH].
Qed.

Lemma read_text_no_fuel (r : row) (h : string) :
  fst (read_text r h) <> OutOfFuel.
Proof.
  unfold read_text. pose proof (row_get_no_fuel r h) as Hr.
  destruct (row_get r h) as [c|e|]; [|destruct e; discriminate|contradiction].
  destruct c; cbn [py_len fst]; discriminate.
Qed.

Lemma py_int_no_fuel (s : string) : py_int s <> OutOfFuel.
Proof. unfold py_int. destruct (int_value s); discriminate. Qed.

Lemma prepare_row_no_fuel (col : string) (dir : option string) (r : row) :
  fst (prepare_row col dir r) <> OutOfFuel.
Proof.
  unfold prepare_row.
  apply say_bind_no_fuel; [apply row_get_no_fuel|intros c].
  apply say_bind_no_fuel; [destruct c; discriminate|intros slide].
  destruct (str_contains _ _); [discriminate|].
  repeat (apply say_bind_no_fuel; [apply read_text_no_fuel|intros ?]).
  apply say_bind_no_fuel; [apply py_int_no_fuel|intros n].
  destruct (n <? 563); discriminate.
Qed.

Lemma process_row_disk_when_no_job (fuel : nat) (col : string)
  (dir : option string) (r : row) (fs : filesystem) :
  (forall j, fst (prepare_row col dir r) <> Ok (Some j)) ->
  snd (fst (process_row fuel col dir r fs)) = fs.
Proof.
  unfold process_row. intros H.
  destruct (prepare_row col dir r) as [[[j|]| |] out]; cbn [fst snd];
    try reflexivity.
  exfalso. now apply (H j).
Qed.

(** C10.  A record whose resolved slide path has a stem whose first five
    characters read as an integer [n]: when [n < 563] the loop body never
    reaches the [try] block, so no switcher is built and the disk is left as
    it was, and the body ends in [continue] once the checks before the
    number test pass; a record that does reach the [try] block has
    [563 <= n]. *)
Theorem slides_below_563_are_skipped (fuel : nat) (col : string)
  (dir : option string) (r : row) (fs : filesystem) (n : Z) :
  slide_number col dir r = Ok n ->
  (n < 563 ->
     (forall j, fst (prepare_row col dir r) <> Ok (Some j)) /\
     snd (fst (process_row fuel col dir r fs)) = fs /\
     (fst (prepare_row col dir r) = Ok None \/
      exists e, fst (prepare_row col dir r) = Raise e) /\
     ((forall e, fst (prepare_row col dir r) <> Raise e) ->
      fst (fst (process_row fuel col dir r fs)) = Ok tt)) /\
  (forall j, fst (prepare_row col dir r) = Ok (Some j) -> 563 <= n).
Proof.
  intros Hn.
  assert (Hjob : forall j, fst (prepare_row col dir r) = Ok (Some j) -> 563 <= n).
  { intros j Hj. destruct (prepare_row_job _ _ _ _ Hj) as (n' & Hn' & Hge).
    congruence. }
  split; [|exact Hjob].
  intros Hlt.
  assert (Hno : forall j, fst (prepare_row col dir r) <> Ok (Some j))
    by (intros j Hj; specialize (Hjob j Hj); lia).
  split; [exact Hno|]. split; [now apply process_row_disk_when_no_job|].
  pose proof (prepare_row_no_fuel col dir r) as Hfuel.
  split.
  - destruct (fst (prepare_row col dir r)) as [[j|]| |] eqn:E.
    + exfalso. now apply (Hno j).
    + now left.
    + right. eauto.
    + contradiction.
  - intros Hraise. unfold process_row.
    destruct (prepare_row col dir r) as [[[j|]| |] out]; cbn [fst] in *.
    + exfalso. now apply (Hno j).
    + reflexivity.
    + exfalso. now apply (Hraise e).
    + contradiction.
Qed.

Lemma run_job_exit (fuel : nat) (j : job) (fs fs1 : filesystem) :
  run_job fuel j fs = (Raise SystemExit, fs1) ->
  create_image Label
    (Some [job_qr j; job_line1 j; job_line2 j; job_line3 j; job_line4 j])
  = Raise SystemExit \/
  create_image Macro None = Raise SystemExit.
Proof.
  unfold run_job, LabelSwitcher_init. intros H.
  pose proof (catchable_get_slide_offset fuel (job_path j) true fs) as Hs.
  destruct (_get_slide_offset fuel (job_path j) true fs) as [[p| |] fs'];
    cbn [fst] in Hs.
  - unfold _get_label_img, _get_macro_img in H.
    destruct (create_image Label _) as [limg|e|] eqn:El; cbn [res_bind] in H.
    + pose proof (catchable_update_ifd Label fuel p limg) as Hl.
      destruct (update_ifd Label fuel p limg) as [[[next|]| |] limg'];
        cbn [fst res_bind] in *; try (inversion H; subst; congruence).
      destruct (create_image Macro None) as [mimg|e|] eqn:Em;
        cbn [res_bind] in H.
      * pose proof (catchable_update_ifd Macro fuel next mimg) as Hm.
        destruct (update_ifd Macro fuel next mimg) as [[r| |] mimg'];
          cbn [fst res_bind] in *; try (inversion H; subst; congruence).
        pose proof (catchable_switch_labels
                      (mkSwitcher (job_path j) p next limg' mimg') fs') as Hw.
        rewrite H in Hw. now elim Hw.
      * inversion H; subst. now right.
      * discriminate.
    + inversion H; subst. now left.
    + discriminate.
  - inversion H; subst. now elim Hs.
  - discriminate.
Qed.

Lemma create_label_without_font (params : option (list (option cell)))
  (e1 e2 : exn) :
  ImageFont_truetype "arial.ttf" = Raise e1 -> is_OSError e1 = true ->
  ImageFont_truetype "Arial.ttf" = Raise e2 -> is_OSError e2 = true ->
  create_image Label params = Raise SystemExit.
Proof.
  intros H1 O1 H2 O2. unfold create_image, _create_label.
  now rewrite H1, O1, H2, O2.
Qed.

(** C8 as the code has it.  A record that has reached the [try] block:
    whatever [LabelSwitcher] or [switch_labels] raises for it is caught and
    printed, and the loop goes on with the next record, unless it is
    [SystemExit], which ends the batch.  [SystemExit] never comes from
    reading, zero-filling, patching or splicing, only out of
    [create_image]; it does when the font is found under neither name,
    after the slide has been read and zero-filled.  A record whose
    resolved path contains the protected text does not reach the [try]
    block: [RuntimeError] ends the batch before anything is written. *)
Theorem switcher_errors_do_not_stop_the_batch (fuel : nat) (col : string)
  (dir : option string) (r : row) (rest : list row) (fs : filesystem) :
  (forall j out e fs1,
     prepare_row col dir r = (Ok (Some j), out) ->
     run_job fuel j fs = (Raise e, fs1) ->
     e <> SystemExit ->
     process_row fuel col dir r fs = (Ok tt, fs1, (out ++ [Failure e])%list) /\
     switch_labels_from_file fuel (r :: rest) col dir fs =
     (let '(result, fs2, out') :=
        switch_labels_from_file fuel rest col dir fs1 in
      (result, fs2, ((out ++ [Failure e]) ++ out')%list))) /\
  (forall j out fs1,
     prepare_row col dir r = (Ok (Some j), out) ->
     run_job fuel j fs = (Raise SystemExit, fs1) ->
     switch_labels_from_file fuel (r :: rest) col dir fs
     = (Raise SystemExit, fs1, out) /\
     (create_image Label
        (Some [job_qr j; job_line1 j; job_line2 j; job_line3 j; job_line4 j])
      = Raise SystemExit \/
      create_image Macro None = Raise SystemExit)) /\
  (forall j out p fs1 e1 e2,
     prepare_row col dir r = (Ok (Some j), out) ->
     _get_slide_offset fuel (job_path j) true fs = (Ok p, fs1) ->
     ImageFont_truetype "arial.ttf" = Raise e1 -> is_OSError e1 = true ->
     ImageFont_truetype "Arial.ttf" = Raise e2 -> is_OSError e2 = true ->
     switch_labels_from_file fuel (r :: rest) col dir fs
     = (Raise SystemExit, fs1, out)) /\
  (forall p,
     record_path col dir r = Ok p ->
     str_contains "DigitalPathology" p = true ->
     switch_labels_from_file fuel (r :: rest) col dir fs
     = (Raise (RuntimeError "Cannot remove labels in provided directory!!"),
        fs, [])).
Proof.
  assert (Hexit : forall j out fs1,
            prepare_row col dir r = (Ok (Some j), out) ->
            run_job fuel j fs = (Raise SystemExit, fs1) ->
            switch_labels_from_file fuel (r :: rest) col dir fs
            = (Raise SystemExit, fs1, out)).
  { intros j out fs1 Hprep Hrun. cbn [switch_labels_from_file].
    unfold process_row. now rewrite Hprep, Hrun. }
  split; [|split; [|split]].
  - intros j out e fs1 Hprep Hrun He.
    assert (Hrow : process_row fuel col dir r fs
                   = (Ok tt, fs1, (out ++ [Failure e])%list)).
    { unfold process_row. rewrite Hprep, Hrun.
      destruct e; try reflexivity. now elim He. }
    split; [exact Hrow|].
    cbn [switch_labels_from_file]. now rewrite Hrow.
  - intros j out fs1 Hprep Hrun. split; [now apply (Hexit j)|].
    now apply (run_job_exit fuel j fs fs1).
  - intros j out p fs1 e1 e2 Hprep Hslide H1 O1 H2 O2.
    apply (Hexit j); [assumption|].
    unfold run_job, LabelSwitcher_init. rewrite Hslide.
    unfold _get_label_img.
    now rewrite (create_label_without_font _ e1 e2 H1 O1 H2 O2).
  - intros p Hp Hguard. cbn [switch_labels_from_file].
    unfold process_row, prepare_row. unfold record_path in Hp.
    destruct (row_get r col) as [c| |]; cbn [res_bind] in Hp; try discriminate.
    rewrite say_bind_quiet_Ok.
    destruct (Path_of c) as [slide| |]; cbn [res_bind] in Hp; try discriminate.
    rewrite say_bind_quiet_Ok. inversion Hp; subst p.
    now rewrite Hguard.
Qed.

End BatchProps.

(* ================================================================== *)
(** * Further properties of the code *)

(** ** The reader never writes *)

Lemma keeps_ret {A} (a : A) : keeps_content (io_ret a).
Proof. intros s. reflexivity. Qed.

Lemma keeps_lift {A} (r : res A) : keeps_content (io_lift r).
Proof. intros s. reflexivity. Qed.

Lemma keeps_read (n : Z) : keeps_content (read n).
Proof. intros s. reflexivity. Qed.

Lemma keeps_tell : keeps_content tell.
Proof. intros s. reflexivity. Qed.

Lemma keeps_seek (p : Z) : keeps_content (seek p).
Proof. intros s. unfold seek. now destruct (p <? 0). Qed.

Lemma keeps_bind {A C} (m : io A) (k : A -> io C) :
  keeps_content m -> (forall a, keeps_content (k a)) -> keeps_content (io_bind m k).
Proof.
  intros Hm Hk s. unfold io_bind. specialize (Hm s).
  destruct (m s) as [[a| |] s1]; cbn [snd] in *; try assumption.
  now rewrite Hk.
Qed.

Section ReaderFrame.
Context {K : Constants}.

Ltac keeps :=
  repeat first
    [ apply keeps_ret | apply keeps_lift | apply keeps_read | apply keeps_tell
    | apply keeps_seek
    | apply keeps_bind; [|intros ?]
    | match goal with
      | |- keeps_content (if ?b then _ else _) => destruct b
      | |- keeps_content (match ?x with (_, _) => _ end) => destruct x
      end ].

Lemma keeps_read_header : keeps_content _read_header.
Proof. unfold _read_header. keeps. Qed.

Lemma keeps_ifd_value (tag ty count pre slot : Z) :
  keeps_content (_ifd_value tag ty count pre slot).
Proof. unfold _ifd_value. keeps. Qed.

Lemma keeps_read_entries (n : nat) :
  forall acc, keeps_content (read_entries n acc).
Proof.
  induction n as [|n IH]; intros acc; cbn [read_entries].
  - apply keeps_ret.
  - keeps; try apply keeps_ifd_value. apply IH.
Qed.

Lemma keeps_read_IFDs (self : BigTiffFile) (off : Z) :
  keeps_content (_read_IFDs self off).
Proof. unfold _read_IFDs. keeps. apply keeps_read_entries. Qed.

Lemma keeps_read_chain (fuel : nat) :
  forall self next, keeps_content (read_chain fuel self next).
Proof.
  induction fuel as [|fuel IH]; intros self next; cbn [read_chain];
    destruct (next =? 0); try apply keeps_ret; try apply keeps_lift.
  apply keeps_bind; [apply keeps_read_IFDs|]. intros [self' next']. apply IH.
Qed.

(** X1.  Building a [BigTiffFile] from a [BytesIO] never changes the bytes of
    the buffer, whatever the outcome (a value, an exception, no end). *)
Theorem reading_a_stream_keeps_its_bytes (fuel : nat) (s : stream) :
  content (snd (BigTiffFile_of_stream fuel s)) = content s.
Proof.
  unfold BigTiffFile_of_stream.
  apply keeps_bind; [apply keeps_read_header|]. intros off. apply keeps_read_chain.
Qed.

End ReaderFrame.

(* ------------------------------------------------------------------ *)
(** ** The header *)

Lemma blen_slice_exact (data : bytes) (p n : Z) :
  0 <= p -> 0 <= n ->
  blen (slice data p n) = Z.min n (Z.max 0 (blen data - p)).
Proof.
  unfold blen, slice. intros Hp Hn. rewrite length_firstn, length_skipn. lia.
Qed.

Lemma slice_split (data : bytes) (p n m : Z) :
  0 <= p -> 0 <= n -> 0 <= m ->
  slice data p (n + m) = slice data p n ++ slice data (p + n) m.
Proof.
  unfold slice. intros Hp Hn Hm.
  replace (Z.to_nat (p + n)) with (Z.to_nat n + Z.to_nat p)%nat by lia.
  rewrite <- skipn_skipn.
  replace (Z.to_nat (n + m)) with (Z.to_nat n + Z.to_nat m)%nat by lia.
  generalize (skipn (Z.to_nat p) data) as l. generalize (Z.to_nat n) as k.
  induction k as [|k IH]; intros l; [reflexivity|].
  destruct l as [|x l]; cbn [Nat.add firstn skipn app].
  - now rewrite firstn_nil.
  - f_equal. apply IH.
Qed.

Lemma byte_to_Z_inj (a b : byte) : byte_to_Z a = byte_to_Z b -> a = b.
Proof.
  unfold byte_to_Z. intros H. apply N2Z.inj in H.
  pose proof (Byte.of_to_N a) as Ha. rewrite H, Byte.of_to_N in Ha. congruence.
Qed.

Lemma le_decode_inj (a : bytes) :
  forall b, List.length a = List.length b -> le_decode a = le_decode b -> a = b.
Proof.
  induction a as [|x a IH]; intros [|y b] Hlen H; try discriminate; [reflexivity|].
  cbn [le_decode] in H.
  pose proof (byte_to_Z_range x). pose proof (byte_to_Z_range y).
  assert (byte_to_Z x = byte_to_Z y /\ le_decode a = le_decode b) as [Hx Ha] by lia.
  apply byte_to_Z_inj in Hx. subst y. f_equal. apply IH; [|assumption].
  cbn [List.length] in Hlen. lia.
Qed.

Lemma utf8_decode2_Ok (b x : bytes) : utf8_decode2 b = Ok x -> x = b.
Proof.
  unfold utf8_decode2.
  destruct b as [|a [|c [|d r]]]; try discriminate; try congruence.
  - destruct (_ <? _); [congruence|discriminate].
  - destruct (_ || _); [congruence|discriminate].
Qed.

Lemma utf8_decode2_no_fuel (b : bytes) : utf8_decode2 b <> OutOfFuel.
Proof.
  unfold utf8_decode2.
  destruct b as [|a [|c [|d r]]]; try discriminate.
  - destruct (_ <? _); discriminate.
  - destruct (_ || _); discriminate.
Qed.

Section HeaderProps.
Context {K : Constants}.

(** With 16 bytes at hand the header is read to its end, and the test on
    its fields decides. *)
Lemma read_header_full (data : bytes) :
  16 <= blen data ->
  fst (_read_header (mkStream data 0)) =
  match utf8_decode2 (slice data 0 2) with
  | Ok endian =>
      if negb (bytes_eqb endian II)
         || negb (le_decode (slice data 2 2) =? 43)
         || negb (le_decode (slice data 4 2) =? 8)
         || negb (le_decode (slice data 6 2) =? 0)
      then Raise (Exception_ "File Not Supported")
      else Ok (first_directory data)
  | Raise e => Raise e
  | OutOfFuel => OutOfFuel
  end.
Proof.
  intros Hlen. unfold _read_header, io_bind, io_lift, io_ret.
  rewrite read_inside by lia.
  destruct (utf8_decode2 (slice data 0 2)) as [endian| |]; try reflexivity.
  rewrite read_inside by lia.
  unfold unpack_H. rewrite blen_slice by lia. cbn [Z.eqb Pos.eqb Z.add].
  rewrite read_inside by lia.
  unfold unpack_HH. rewrite blen_slice by lia. cbn [Z.eqb Pos.eqb Z.add].
  rewrite !slice_slice by lia. cbn [Z.add Pos.add Pos.succ].
  rewrite read_inside by lia.
  unfold unpack_Q. rewrite blen_slice by lia. cbn [Z.eqb Pos.eqb Z.add].
  unfold first_directory.
  destruct (_ || _); reflexivity.
Qed.

Lemma valid_header_fields (data : bytes) :
  16 <= blen data ->
  valid_header data =
  bytes_eqb (slice data 0 2) II
  && (le_decode (slice data 2 2) =? 43)
  && (le_decode (slice data 4 2) =? 8)
  && (le_decode (slice data 6 2) =? 0).
Proof.
  intros Hlen. unfold valid_header.
  replace (16 <=? blen data) with true by lia. rewrite andb_true_r.
  change 8 with (2 + (2 + (2 + 2))) at 1.
  rewrite !slice_split by lia. cbn [Z.add Pos.add Pos.succ].
  assert (L : forall p, 0 <= p -> p + 2 <= 16 ->
              List.length (slice data p 2) = 2%nat).
  { intros p Hp Hp2. pose proof (blen_slice data p 2 Hp ltac:(lia) ltac:(lia)) as H.
    unfold blen in H. lia. }
  pose proof (L 0 ltac:(lia) ltac:(lia)) as L0.
  pose proof (L 2 ltac:(lia) ltac:(lia)) as L2.
  pose proof (L 4 ltac:(lia) ltac:(lia)) as L4.
  pose proof (L 6 ltac:(lia) ltac:(lia)) as L6.
  destruct (slice data 0 2) as [|a0 [|a1 [|? ?]]]; try discriminate.
  destruct (slice data 2 2) as [|a2 [|a3 [|? ?]]] eqn:E2; try discriminate.
  destruct (slice data 4 2) as [|a4 [|a5 [|? ?]]] eqn:E4; try discriminate.
  destruct (slice data 6 2) as [|a6 [|a7 [|? ?]]] eqn:E6; try discriminate.
  cbn [app].
  assert (D : forall (x y u v : byte),
              (le_decode [x; y] =? le_decode [u; v]) = bytes_eqb [x; y] [u; v]).
  { intros x y u v. unfold bytes_eqb.
    destruct (list_eq_dec byte_eq_dec [x; y] [u; v]) as [E|N].
    - rewrite E. apply Z.eqb_refl.
    - apply Z.eqb_neq. intros H. apply N. now apply le_decode_inj. }
  change 43 with (le_decode [x2b; x00]).
  change 8 with (le_decode [x08; x00]).
  change 0 with (le_decode [x00; x00]).
  rewrite !D. unfold bytes_eqb, II.
  repeat match goal with
         | |- context [list_eq_dec byte_eq_dec ?a ?b] =>
             destruct (list_eq_dec byte_eq_dec a b)
         end; cbn [andb]; try reflexivity; congruence.
Qed.

(** X2.  The header reader, in full.  Read from the start of a stream, the
    header is accepted exactly when its first eight bytes are [II], 43, 8
    and 0 and sixteen bytes are there; the result is then the offset held
    in bytes 8 to 15 and the stream is left at 16.  Otherwise the reader
    raises: [UnicodeDecodeError] when the byte-order mark is not UTF-8,
    [struct.error] when fewer than sixteen bytes are there, and
    [Exception] ("File Not Supported") when a field has another value. *)
Theorem read_header_outcome (data : bytes) :
  (valid_header data = true ->
   _read_header (mkStream data 0) = (Ok (first_directory data), mkStream data 16)) /\
  (forall off, fst (_read_header (mkStream data 0)) = Ok off ->
   valid_header data = true /\ off = first_directory data) /\
  (forall e, utf8_decode2 (slice data 0 2) = Raise e ->
   fst (_read_header (mkStream data 0)) = Raise e) /\
  ((exists x, utf8_decode2 (slice data 0 2) = Ok x) -> blen data < 16 ->
   fst (_read_header (mkStream data 0)) = Raise StructError) /\
  ((exists x, utf8_decode2 (slice data 0 2) = Ok x) -> 16 <= blen data ->
   valid_header data = false ->
   exists e, fst (_read_header (mkStream data 0)) = Raise e /\
             class_name e = "Exception"%string).
Proof.
  assert (H3 : forall e, utf8_decode2 (slice data 0 2) = Raise e ->
               fst (_read_header (mkStream data 0)) = Raise e).
  { intros e He. unfold _read_header, io_bind, io_lift. unfold read at 1.
    cbn [content position]. now rewrite He. }
  assert (H4 : (exists x, utf8_decode2 (slice data 0 2) = Ok x) -> blen data < 16 ->
               fst (_read_header (mkStream data 0)) = Raise StructError).
  { intros [x Hx] Hlen. pose proof (utf8_decode2_Ok _ _ Hx) as ->.
    unfold _read_header, io_bind, io_lift, io_ret, read. cbn [content position].
    rewrite Hx.
    pose proof (blen_nonneg data) as Hd.
    pose proof (blen_slice_exact data 0 2 ltac:(lia) ltac:(lia)) as B0.
    set (p1 := 0 + blen (slice data 0 2)) in *.
    pose proof (blen_slice_exact data p1 2 ltac:(lia) ltac:(lia)) as B1.
    unfold unpack_H. destruct (blen (slice data p1 2) =? 2) eqn:E1; [|reflexivity].
    cbn [fst snd content position].
    set (p2 := p1 + blen (slice data p1 2)) in *.
    pose proof (blen_slice_exact data p2 4 ltac:(lia) ltac:(lia)) as B2.
    unfold unpack_HH. destruct (blen (slice data p2 4) =? 4) eqn:E2; [|reflexivity].
    cbn [fst snd content position].
    set (p3 := p2 + blen (slice data p2 4)) in *.
    pose proof (blen_slice_exact data p3 8 ltac:(lia) ltac:(lia)) as B3.
    unfold unpack_Q. destruct (blen (slice data p3 8) =? 8) eqn:E3; [|reflexivity].
    exfalso. lia. }
  assert (H5 : (exists x, utf8_decode2 (slice data 0 2) = Ok x) -> 16 <= blen data ->
               valid_header data = false ->
               fst (_read_header (mkStream data 0))
               = Raise (Exception_ "File Not Supported")).
  { intros [x Hx] Hlen Hv. pose proof (utf8_decode2_Ok _ _ Hx) as ->.
    rewrite read_header_full by assumption. rewrite Hx.
    rewrite valid_header_fields in Hv by assumption.
    destruct (bytes_eqb _ II), (_ =? 43), (_ =? 8), (_ =? 0);
      cbn [negb orb andb] in *; try reflexivity; discriminate. }
  split; [apply read_header_ok|].
  split; [|split; [exact H3|split; [exact H4|]]].
  2: { intros Hx Hlen Hv. rewrite H5 by assumption. eexists.
       split; reflexivity. }
  intros off Hoff.
  destruct (utf8_decode2 (slice data 0 2)) as [x|e|] eqn:Hx.
  - destruct (Z_lt_le_dec (blen data) 16) as [Hlt|Hge].
    + rewrite H4 in Hoff by eauto. discriminate.
    + destruct (valid_header data) eqn:Hv.
      * split; [reflexivity|]. rewrite (read_header_ok data Hv) in Hoff.
        cbn [fst] in Hoff. congruence.
      * rewrite H5 in Hoff by eauto. discriminate.
  - rewrite (H3 e eq_refl) in Hoff. discriminate.
  - exfalso. eapply utf8_decode2_no_fuel; eassumption.
Qed.

End HeaderProps.

(* ------------------------------------------------------------------ *)
(** ** The directory reader and the layout *)

Section ReaderRefinement.
Context {K : Constants}.

Lemma read_entries_step (data : bytes) (off i : Z) (k : nat) (acc : dict ifd_entry) :
  0 <= off -> 0 <= i -> record_offset off i + 20 <= blen data ->
  fst (read_entries (S k) acc (mkStream data (record_offset off i))) =
  match entry_at data off i with
  | Ok te =>
      fst (read_entries k (dict_set (fst te) (snd te) acc)
             (mkStream data (record_offset off (i + 1))))
  | Raise e => Raise e
  | OutOfFuel => OutOfFuel
  end.
Proof.
  intros Hoff Hi Hq.
  assert (Hp : 0 <= record_offset off i) by (unfold record_offset; lia).
  cbn [read_entries].
  unfold io_bind at 1. unfold tell at 1. cbn [position].
  unfold io_bind at 1. rewrite read_inside by lia.
  unfold io_bind at 1, io_lift at 1, unpack_HHQ.
  rewrite blen_slice by lia. cbn [Z.eqb Pos.eqb].
  rewrite !slice_slice by lia. rewrite Z.add_0_r.
  unfold io_bind at 1. unfold tell at 1. cbn [position].
  unfold io_bind at 1. rewrite read_inside by lia.
  unfold io_bind at 1, io_lift at 1, unpack_Q.
  rewrite blen_slice by lia. cbn [Z.eqb Pos.eqb].
  unfold io_bind at 1. unfold entry_at.
  set (tag := le_decode (slice data (record_offset off i) 2)).
  set (ty := le_decode (slice data (record_offset off i + 2) 2)).
  set (count := le_decode (slice data (record_offset off i + 4) 8)).
  set (slot := le_decode (slice data (record_offset off i + 12) 8)).
  set (s := mkStream data (record_offset off i + 12 + 8)).
  assert (Hfst : fst (_ifd_value tag ty count (record_offset off i + 12) slot s)
                 = value_at data tag ty count (record_offset off i + 12) slot).
  { apply (_ifd_value_fst tag ty count _ slot s); subst s; cbn [position];
      try lia. apply le_decode_nonneg. }
  destruct (value_at data tag ty count (record_offset off i + 12) slot) as [v| |] eqn:Ev;
    cbn [res_bind fst snd].
  - rewrite (_ifd_value_ok _ _ _ _ _ s v); subst s; cbn [content position];
      try lia; try apply le_decode_nonneg; try exact Ev.
    replace (record_offset off i + 12 + 8) with (record_offset off (i + 1))
      by (unfold record_offset; lia).
    reflexivity.
  - destruct (_ifd_value tag ty count (record_offset off i + 12) slot s) as [r s2].
    cbn [fst] in Hfst. now subst r.
  - destruct (_ifd_value tag ty count (record_offset off i + 12) slot s) as [r s2].
    cbn [fst] in Hfst. now subst r.
Qed.

Lemma read_entries_fst (data : bytes) (off : Z) :
  forall (n : nat) (i : Z) (acc : dict ifd_entry),
  0 <= off -> 0 <= i ->
  record_offset off (i + Z.of_nat n) <= blen data ->
  fst (read_entries n acc (mkStream data (record_offset off i))) =
  res_bind (entries_from data off i n) (fun recs =>
    Ok (fold_left (fun d kv => dict_set (fst kv) (snd kv) d) recs acc)).
Proof.
  induction n as [|n IH]; intros i acc Hoff Hi Hb.
  - reflexivity.
  - rewrite read_entries_step; try assumption;
      [|unfold record_offset in *; lia].
    cbn [entries_from].
    destruct (entry_at data off i) as [te| |]; cbn [res_bind]; try reflexivity.
    rewrite IH; try lia;
      [|now replace (i + 1 + Z.of_nat n) with (i + Z.of_nat (S n)) by lia].
    destruct (entries_from data off (i + 1) n); reflexivity.
Qed.

(** The directory that [_read_IFDs] adds for the records [recs]. *)
Lemma read_IFDs_fst (self : BigTiffFile) (data : bytes) (pos off : Z) :
  0 <= off -> record_offset off (entry_count data off) + 8 <= blen data ->
  fst (_read_IFDs self off (mkStream data pos)) =
  res_bind (entries_from data off 0 (Z.to_nat (entry_count data off))) (fun recs =>
    Ok (mkTiff (file_path self)
          (dict_set (directory_count self + 1) (dict_of_list recs) (tiff_info self))
          (dict_set (directory_count self + 1)
             (mkNextDir (record_offset off (entry_count data off))
                (on_disk_next data off) off)
             (next_dir_offsets self))
          (dict_set (directory_count self + 1) off (directory_offsets self))
          (directory_count self + 1) (_label self) (_macro self),
        on_disk_next data off)).
Proof.
  intros Hoff Hb.
  pose proof (le_decode_nonneg (slice data off 8)) as Hn.
  fold (entry_count data off) in Hn.
  destruct (entries_from data off 0 (Z.to_nat (entry_count data off)))
    as [recs| |] eqn:E; cbn [res_bind].
  - rewrite (read_IFDs_ok self data pos off recs); [reflexivity|].
    unfold on_disk_entries.
    replace (0 <=? off) with true by lia.
    now replace (record_offset off (entry_count data off) + 8 <=? blen data)
      with true by lia.
  - unfold record_offset in Hb. unfold _read_IFDs.
    unfold io_bind at 1. rewrite seek_nonneg by assumption. cbn [content].
    unfold io_bind at 1. rewrite read_inside by lia.
    unfold io_bind at 1, io_lift at 1, unpack_Q.
    rewrite blen_slice by lia. cbn [Z.eqb Pos.eqb].
    fold (entry_count data off).
    unfold io_bind at 1.
    pose proof (read_entries_fst data off (Z.to_nat (entry_count data off)) 0 []
                  Hoff ltac:(lia)) as Hfst.
    rewrite E in Hfst. cbn [res_bind] in Hfst.
    replace (off + 8) with (record_offset off 0) by (unfold record_offset; lia).
    destruct (read_entries _ _ _) as [r s2]. cbn [fst] in Hfst.
    rewrite Hfst; [reflexivity|]. unfold record_offset. lia.
  - unfold record_offset in Hb. unfold _read_IFDs.
    unfold io_bind at 1. rewrite seek_nonneg by assumption. cbn [content].
    unfold io_bind at 1. rewrite read_inside by lia.
    unfold io_bind at 1, io_lift at 1, unpack_Q.
    rewrite blen_slice by lia. cbn [Z.eqb Pos.eqb].
    fold (entry_count data off).
    unfold io_bind at 1.
    pose proof (read_entries_fst data off (Z.to_nat (entry_count data off)) 0 []
                  Hoff ltac:(lia)) as Hfst.
    rewrite E in Hfst. cbn [res_bind] in Hfst.
    replace (off + 8) with (record_offset off 0) by (unfold record_offset; lia).
    destruct (read_entries _ _ _) as [r s2]. cbn [fst] in Hfst.
    rewrite Hfst; [reflexivity|]. unfold record_offset. lia.
Qed.

Lemma entries_from_first_error (data : bytes) (off : Z) (e : exn) :
  forall (n : nat) (i : Z) (k : nat) (before : list (Z * ifd_entry)),
  (k < n)%nat ->
  entries_from data off i k = Ok before ->
  entry_at data off (i + Z.of_nat k) = Raise e ->
  entries_from data off i n = Raise e.
Proof.
  induction n as [|n IH]; intros i k before Hk Hbefore Hbad; [lia|].
  cbn [entries_from]. destruct k as [|k].
  - rewrite Z.add_0_r in Hbad. now rewrite Hbad.
  - cbn [entries_from] in Hbefore.
    destruct (entry_at data off i) as [te| |]; cbn [res_bind] in *;
      try discriminate.
    destruct (entries_from data off (i + 1) k) as [b| |] eqn:Eb;
      cbn [res_bind] in Hbefore; try discriminate.
    rewrite (IH (i + 1) k b); [reflexivity|lia|assumption|].
    now replace (i + 1 + Z.of_nat k) with (i + Z.of_nat (S k)) by lia.
Qed.

(** X3.  Decoding a value puts the stream back.  Whenever [_ifd_value]
    returns a value, whether decoded in the slot, fetched from where the
    slot points, or the not-displayed text, the stream has the position
    and the bytes it had before the call: the records of a directory can
    be read one after the other. *)
Theorem _ifd_value_restores_the_stream (tag ty count pre slot : Z)
  (s : stream) (v : pyvalue) :
  0 <= pre -> 0 <= slot -> 0 <= position s ->
  fst (_ifd_value tag ty count pre slot s) = Ok v ->
  snd (_ifd_value tag ty count pre slot s) = s.
Proof.
  intros Hpre Hslot Hpos Hv.
  rewrite _ifd_value_fst in Hv by assumption.
  now rewrite (_ifd_value_ok tag ty count pre slot s v).
Qed.

(** X4.  What the directory reader raises.  For a directory whose count,
    records and next-directory offset are all inside the file, [_read_IFDs]
    raises what the first record whose value cannot be decoded raises; a
    record whose value type is not in [FORMAT_CHARACTERS] raises
    [KeyError]. *)
Theorem read_IFDs_raises_for_first_bad_record (self : BigTiffFile)
  (data : bytes) (pos off k : Z) (before : list (Z * ifd_entry)) (e : exn) :
  0 <= off ->
  record_offset off (entry_count data off) + 8 <= blen data ->
  0 <= k < entry_count data off ->
  entries_from data off 0 (Z.to_nat k) = Ok before ->
  entry_at data off k = Raise e ->
  fst (_read_IFDs self off (mkStream data pos)) = Raise e /\
  (FORMAT_CHARACTERS (le_decode (slice data (record_offset off k + 2) 2)) = None ->
   e = KeyError).
Proof.
  intros Hoff Hb Hk Hbefore Hbad. split.
  - rewrite read_IFDs_fst by assumption.
    rewrite (entries_from_first_error data off e _ 0 (Z.to_nat k) before);
      [reflexivity|lia|assumption|].
    now rewrite Z2Nat.id by lia.
  - intros Hty. unfold entry_at, value_at in Hbad. rewrite Hty in Hbad.
    cbn [subscript res_bind] in Hbad. congruence.
Qed.


End ReaderRefinement.

(* ------------------------------------------------------------------ *)
(** ** The chain of directories *)

Lemma numbered_snoc {V} (l : list V) :
  forall (first : Z) (v : V),
  dict_set (first + Z.of_nat (List.length l)) v (numbered first l)
  = numbered first (l ++ [v]).
Proof.
  induction l as [|x l IH]; intros first v; cbn [numbered List.length app dict_set].
  - now rewrite Z.add_0_r.
  - replace (first + Z.of_nat (S (List.length l)) =? first) with false
      by (symmetry; apply Z.eqb_neq; lia).
    f_equal.
    replace (first + Z.of_nat (S (List.length l)))
      with (first + 1 + Z.of_nat (List.length l)) by lia.
    apply IH.
Qed.

Lemma dict_get_numbered {V} (l : list V) :
  forall (first k : Z),
  dict_get k (numbered first l) =
  if (first <=? k) && (k <? first + Z.of_nat (List.length l))
  then nth_error l (Z.to_nat (k - first)) else None.
Proof.
  induction l as [|x l IH]; intros first k; cbn [numbered dict_get List.length].
  - destruct (first <=? k) eqn:E1; cbn [andb]; [|reflexivity].
    now replace (k <? first + Z.of_nat 0) with false by zbool.
  - destruct (k =? first) eqn:E.
    + apply Z.eqb_eq in E. subst k.
      replace (first <=? first) with true by zbool.
      replace (first <? first + Z.of_nat (S (List.length l))) with true by zbool.
      now rewrite Z.sub_diag.
    + rewrite IH. apply Z.eqb_neq in E.
      destruct (first <=? k) eqn:E1.
      * replace (first + 1 <=? k) with true by zbool. cbn [andb].
        replace (first + 1 + Z.of_nat (List.length l))
          with (first + Z.of_nat (S (List.length l))) by lia.
        destruct (k <? first + Z.of_nat (S (List.length l))); [|reflexivity].
        replace (Z.to_nat (k - first)) with (S (Z.to_nat (k - (first + 1)))) by lia.
        reflexivity.
      * now replace (first + 1 <=? k) with false by zbool.
Qed.

Lemma dict_len_numbered {V} (l : list V) (first : Z) :
  dict_len (numbered first l) = Z.of_nat (List.length l).
Proof.
  unfold dict_len. f_equal. revert first.
  induction l as [|x l IH]; intros first; cbn [numbered List.length]; auto.
Qed.

Section ChainProps.
Context {K : Constants}.

Lemma object_of_directories_snoc (path : option string)
  (done : list (Z * list (Z * ifd_entry) * Z)) (data : bytes) (off : Z)
  (recs : list (Z * ifd_entry)) :
  on_disk_entries data off = Ok recs ->
  let self := object_of_directories path done in
  mkTiff (file_path self)
    (dict_set (directory_count self + 1) (dict_of_list recs) (tiff_info self))
    (dict_set (directory_count self + 1)
       (mkNextDir (record_offset off (entry_count data off)) (on_disk_next data off) off)
       (next_dir_offsets self))
    (dict_set (directory_count self + 1) off (directory_offsets self))
    (directory_count self + 1) (_label self) (_macro self)
  = object_of_directories path (done ++ [(off, recs, on_disk_next data off)]).
Proof.
  intros Hrecs self. unfold self, object_of_directories.
  cbn [file_path tiff_info next_dir_offsets directory_offsets directory_count
       _label _macro].
  rewrite !map_app. cbn [map fst snd next_dir_of].
  rewrite (on_disk_length _ _ _ Hrecs).
  rewrite <- !numbered_snoc. rewrite !length_map, length_app.
  cbn [List.length]. rewrite (Z.add_comm (Z.of_nat (List.length done)) 1).
  f_equal. lia.
Qed.

Lemma read_chain_directories (data : bytes) (path : option string) :
  forall (fuel : nat) (off pos : Z) (done dirs : list (Z * list (Z * ifd_entry) * Z)),
  directories_from fuel data off = Ok dirs ->
  exists pos',
    read_chain fuel (object_of_directories path done) off (mkStream data pos)
    = (Ok (object_of_directories path (done ++ dirs)), mkStream data pos').
Proof.
  induction fuel as [|fuel IH]; intros off pos done dirs H;
    cbn [directories_from read_chain] in *.
  - destruct (off =? 0); [|discriminate]. inversion H; subst.
    exists pos. now rewrite app_nil_r.
  - destruct (off =? 0).
    + inversion H; subst. exists pos. now rewrite app_nil_r.
    + destruct (on_disk_entries data off) as [recs| |] eqn:Hrecs;
        cbn [res_bind] in H; try discriminate.
      destruct (directories_from fuel data (on_disk_next data off)) as [rest| |] eqn:Hrest;
        cbn [res_bind] in H; try discriminate.
      inversion H; subst dirs; clear H.
      unfold io_bind. rewrite (read_IFDs_ok _ _ _ _ recs Hrecs).
      rewrite (object_of_directories_snoc path done data off recs Hrecs).
      destruct (IH (on_disk_next data off)
                  (record_offset off (entry_count data off) + 8)
                  (done ++ [(off, recs, on_disk_next data off)]) rest Hrest)
        as [pos' Hrun].
      exists pos'. rewrite Hrun. now rewrite <- app_assoc.
Qed.

(** The directories met from [off] are linked: each names the next one,
    the last names 0, and none is at 0. *)
Lemma directories_linked (data : bytes) :
  forall (fuel : nat) (off : Z) (dirs : list (Z * list (Z * ifd_entry) * Z)),
  directories_from fuel data off = Ok dirs ->
  hd 0 (map (fun d => fst (fst d)) dirs ++ [0]) = off /\
  map snd dirs = tl (map (fun d => fst (fst d)) dirs ++ [0]) /\
  Forall (fun d => fst (fst d) <> 0 /\
                   on_disk_entries data (fst (fst d)) = Ok (snd (fst d)) /\
                   on_disk_next data (fst (fst d)) = snd d) dirs.
Proof.
  induction fuel as [|fuel IH]; intros off dirs H; cbn [directories_from] in H.
  - destruct (off =? 0) eqn:E; [|discriminate]. inversion H; subst.
    apply Z.eqb_eq in E. cbn. auto.
  - destruct (off =? 0) eqn:E.
    + inversion H; subst. apply Z.eqb_eq in E. cbn. auto.
    + destruct (on_disk_entries data off) as [recs| |] eqn:Hrecs;
        cbn [res_bind] in H; try discriminate.
      destruct (directories_from fuel data (on_disk_next data off)) as [rest| |] eqn:Hrest;
        cbn [res_bind] in H; try discriminate.
      inversion H; subst dirs; clear H.
      destruct (IH _ _ Hrest) as (Hhd & Htl & Hall).
      cbn [map fst snd app hd tl]. split; [reflexivity|]. split.
      * rewrite Htl. f_equal.
        destruct (map (fun d => fst (fst d)) rest ++ [0]) as [|x l] eqn:El.
        { destruct (map (fun d => fst (fst d)) rest); discriminate. }
        cbn [hd tl] in *. now subst.
      * constructor; [|exact Hall]. cbn [fst snd].
        apply Z.eqb_neq in E. auto.
Qed.

(** X6.  The chain of directories is read in order.  When the header is valid
    and following the next-directory offsets from the first directory
    meets the readable directories [dirs] and then offset 0 (within the
    fuel given), building a [BigTiffFile] from the stream returns an
    object whose three dictionaries number these directories 1, 2, ... in
    the order met, whose [directory_count] is their number, and whose
    descriptors are unset; the directories are linked, each naming the
    next and the last naming 0. *)
Theorem chain_is_read_in_order (fuel : nat) (data : bytes)
  (dirs : list (Z * list (Z * ifd_entry) * Z)) :
  valid_header data = true ->
  directories_from fuel data (first_directory data) = Ok dirs ->
  fst (BigTiffFile_of_stream fuel (mkStream data 0))
  = Ok (object_of_directories None dirs) /\
  hd 0 (map (fun d => fst (fst d)) dirs ++ [0]) = first_directory data /\
  map snd dirs = tl (map (fun d => fst (fst d)) dirs ++ [0]).
Proof.
  intros Hh Hdirs.
  destruct (directories_linked _ _ _ _ Hdirs) as (Hhd & Htl & _).
  split; [|auto].
  unfold BigTiffFile_of_stream, io_bind. rewrite read_header_ok by assumption.
  destruct (read_chain_directories data None fuel (first_directory data) 16 [] dirs
              Hdirs) as [pos' Hrun].
  change (new_BigTiffFile None) with (object_of_directories None []).
  now rewrite Hrun.
Qed.

Lemma of_path_directories (fuel : nat) (fs : filesystem) (path : string)
  (data : bytes) (dirs : list (Z * list (Z * ifd_entry) * Z)) :
  fs path = Some data ->
  valid_header data = true ->
  directories_from fuel data (first_directory data) = Ok dirs ->
  BigTiffFile_of_path fuel fs path
  = _get_label_and_macro_info (object_of_directories (Some path) dirs).
Proof.
  intros Hfile Hh Hdirs.
  unfold BigTiffFile_of_path, with_open_rb, open_file. rewrite Hfile.
  unfold io_bind. rewrite read_header_ok by assumption.
  destruct (read_chain_directories data (Some path) fuel (first_directory data) 16
              [] dirs Hdirs) as [pos' Hrun].
  change (new_BigTiffFile (Some path)) with (object_of_directories (Some path) []).
  rewrite Hrun. reflexivity.
Qed.

(** X7.  A file with fewer than two directories cannot be opened: the label is
    looked for in directory number [D - 1], which does not exist, and
    [BigTiffFile(path)] raises [KeyError]. *)
Theorem fewer_than_two_directories_raise_KeyError (fuel : nat) (fs : filesystem)
  (path : string) (data : bytes) (dirs : list (Z * list (Z * ifd_entry) * Z)) :
  fs path = Some data ->
  valid_header data = true ->
  directories_from fuel data (first_directory data) = Ok dirs ->
  (List.length dirs <= 1)%nat ->
  BigTiffFile_of_path fuel fs path = Raise KeyError.
Proof.
  intros Hfile Hh Hdirs Hlen.
  rewrite (of_path_directories fuel fs path data dirs) by assumption.
  unfold _get_label_and_macro_info, object_of_directories. cbn [tiff_info].
  rewrite dict_len_numbered, length_map, dict_get_numbered, length_map.
  replace ((1 <=? Z.of_nat (List.length dirs) - 1)
           && (Z.of_nat (List.length dirs) - 1 <? 1 + Z.of_nat (List.length dirs)))
    with false; [reflexivity|].
  symmetry. apply andb_false_iff. left. apply Z.leb_gt. lia.
Qed.

End ChainProps.

Section CycleProps.
Context {K : Constants}.

Lemma walk_run (data : bytes) :
  forall (k : nat) (off off' : Z),
  walk data off k = Some off' ->
  forall (fuel : nat) (self : BigTiffFile) (pos : Z),
  ((k <= fuel)%nat ->
   exists self' pos',
     read_chain fuel self off (mkStream data pos)
     = read_chain (fuel - k) self' off' (mkStream data pos')) /\
  ((fuel < k)%nat ->
   fst (read_chain fuel self off (mkStream data pos)) = OutOfFuel).
Proof.
  induction k as [|k IH]; intros off off' H fuel self pos; cbn [walk] in H.
  - inversion H; subst. split; [|lia]. intros _. exists self, pos.
    now rewrite Nat.sub_0_r.
  - destruct (off =? 0) eqn:E; [discriminate|].
    destruct (on_disk_entries data off) as [recs| |] eqn:Hrecs; try discriminate.
    destruct fuel as [|fuel]; cbn [read_chain]; rewrite E.
    + split; [lia|reflexivity].
    + unfold io_bind. rewrite (read_IFDs_ok _ _ _ _ recs Hrecs).
      destruct (IH _ _ H fuel
                  (mkTiff (file_path self)
                     (dict_set (directory_count self + 1) (dict_of_list recs)
                        (tiff_info self))
                     (dict_set (directory_count self + 1)
                        (mkNextDir (record_offset off (entry_count data off))
                           (on_disk_next data off) off) (next_dir_offsets self))
                     (dict_set (directory_count self + 1) off (directory_offsets self))
                     (directory_count self + 1) (_label self) (_macro self))
                  (record_offset off (entry_count data off) + 8)) as [IH1 IH2].
      split.
      * intros Hle. destruct (IH1 ltac:(lia)) as (self' & pos' & Hrun).
        exists self', pos'. rewrite Hrun. reflexivity.
      * intros Hlt. apply IH2. lia.
Qed.

Lemma cycle_never_ends (data : bytes) (off : Z) (k : nat) :
  walk data off (S k) = Some off ->
  forall (fuel : nat) (self : BigTiffFile) (pos : Z),
  fst (read_chain fuel self off (mkStream data pos)) = OutOfFuel.
Proof.
  intros Hcycle fuel.
  induction fuel as [fuel IH] using (well_founded_induction lt_wf).
  intros self pos.
  destruct (walk_run data (S k) off off Hcycle fuel self pos) as [H1 H2].
  destruct (le_lt_dec (S k) fuel) as [Hle|Hlt].
  - destruct (H1 Hle) as (self' & pos' & Hrun). rewrite Hrun. apply IH. lia.
  - now apply H2.
Qed.

(** X8.  A chain of directories that comes back to a directory already read is
    followed without end: when, from a valid header, [j] readable
    directories lead to a directory from which one or more readable
    directories lead back to itself, [BigTiffFile] never returns, on a
    stream and on a path, whatever the fuel. *)
Theorem cyclic_chain_never_returns (fs : filesystem) (path : string)
  (data : bytes) (off : Z) (j k : nat) :
  fs path = Some data ->
  valid_header data = true ->
  walk data (first_directory data) j = Some off ->
  walk data off (S k) = Some off ->
  forall fuel,
    fst (BigTiffFile_of_stream fuel (mkStream data 0)) = OutOfFuel /\
    BigTiffFile_of_path fuel fs path = OutOfFuel.
Proof.
  intros Hfile Hh Hreach Hcycle fuel.
  assert (Hchain : forall self,
             fst (read_chain fuel self (first_directory data) (mkStream data 16))
             = OutOfFuel).
  { intros self.
    destruct (walk_run data j _ _ Hreach fuel self 16) as [H1 H2].
    destruct (le_lt_dec j fuel) as [Hle|Hlt].
    - destruct (H1 Hle) as (self' & pos' & Hrun). rewrite Hrun.
      now apply (cycle_never_ends data off k).
    - now apply H2. }
  split.
  - unfold BigTiffFile_of_stream, io_bind. rewrite read_header_ok by assumption.
    apply Hchain.
  - unfold BigTiffFile_of_path, with_open_rb, open_file. rewrite Hfile.
    unfold io_bind. rewrite read_header_ok by assumption.
    rewrite Hchain. reflexivity.
Qed.

End CycleProps.

(* ------------------------------------------------------------------ *)
(** ** The label and macro locator, again *)

Lemma chunks_short (n sz : nat) :
  forall (data : bytes) (b : bytes),
  In b (chunks n sz data) -> (List.length b <= sz)%nat.
Proof.
  induction n as [|n IH]; intros data b H; cbn [chunks] in H; [destruct H|].
  destruct H as [<-|H]; [|eauto].
  rewrite length_firstn. lia.
Qed.

Lemma bytes_eqb_length (a b : bytes) :
  List.length a <> List.length b -> bytes_eqb a b = false.
Proof.
  intros H. unfold bytes_eqb. destruct (list_eq_dec byte_eq_dec a b); [|reflexivity].
  subst. contradiction.
Qed.

Section LocatorMore.
Context {K : Constants}.

(** Among the items of a field decoded in place, none is a [bytes] longer
    than one byte. *)
Lemma inline_items_are_short (count : Z) (c : fmt_char) (data needle : bytes) :
  (2 <= List.length needle)%nat ->
  existsb (elem_is_bytes needle)
    (map (decode_elem c) (chunks (Z.to_nat count) (Z.to_nat (fmt_size c)) data))
  = false.
Proof.
  intros Hneedle.
  destruct (existsb _ _) eqn:E; [|reflexivity].
  apply existsb_exists in E as (x & Hin & Hx).
  apply in_map_iff in Hin as (b & <- & Hb).
  apply chunks_short in Hb.
  destruct c; cbn [decode_elem elem_is_bytes] in Hx; try discriminate.
  rewrite bytes_eqb_length in Hx; [discriminate|].
  cbn [fmt_size] in Hb. change (Z.to_nat 1) with 1%nat in Hb. lia.
Qed.

(** X9.  A description stored in place is never looked into.  When tag 270
    takes at most 8 bytes its value is the tuple that [struct.unpack]
    returns, and membership in a tuple compares whole items: the label and
    macro tests then depend on the compression alone, even when the
    description spells "label" or "macro". *)
Theorem inline_description_never_matches (data : bytes)
  (ty count pre slot compression : Z) (c : fmt_char) (v : pyvalue) :
  FORMAT_CHARACTERS ty = Some c ->
  count * fmt_size c <= 8 ->
  value_at data 270 ty count pre slot = Ok v ->
  label_test compression (Some v)
  = Ok (get_is (COMPRESSION compression) "LZW") /\
  macro_test compression (Some v)
  = Ok (get_is (COMPRESSION compression) "JPEG"
        || get_is (COMPRESSION compression) "JPEG 7").
Proof.
  intros Hc Hlen Hv. unfold value_at in Hv. rewrite Hc in Hv.
  cbn [subscript res_bind] in Hv.
  assert (Hmax : count * fmt_size c <= PY_SSIZE_T_MAX)
    by (unfold PY_SSIZE_T_MAX; lia).
  rewrite (calcsize_fits _ _ Hmax) in Hv. cbn [res_bind] in Hv.
  replace (count * fmt_size c <=? 8) with true in Hv by zbool.
  unfold unpack in Hv. rewrite (calcsize_fits _ _ Hmax) in Hv.
  cbn [res_bind] in Hv.
  destruct (blen _ =? _); cbn [res_bind] in Hv; [|discriminate].
  inversion Hv; subst v; clear Hv.
  unfold label_test, macro_test, bytes_in.
  rewrite !inline_items_are_short by (cbn; lia).
  cbn [res_bind].
  split.
  - now destruct (get_is (COMPRESSION compression) "LZW").
  - now destruct (_ || _).
Qed.

(** The dictionary that the locator stores for a candidate. *)
Lemma aux_of_present (directory : Z) (info : dict ifd_entry) (e273 e279 : ifd_entry) :
  dict_get 273 info = Some e273 -> dict_get 279 info = Some e279 ->
  aux_of directory info
  = Ok (mkAux directory info (data_offset e273) (data_offset e279)).
Proof. intros H1 H2. unfold aux_of. now rewrite H1, H2. Qed.

(** Acceptance on compression alone: with or without a description. *)
Lemma locator_accepts (self : BigTiffFile)
  (ldir mdir : dict ifd_entry) (l259 l273 l279 m259 m273 m279 : ifd_entry) :
  let D := dict_len (tiff_info self) in
  dict_get (D - 1) (tiff_info self) = Some ldir ->
  dict_get D (tiff_info self) = Some mdir ->
  dict_get 259 ldir = Some l259 ->
  dict_get 273 ldir = Some l273 ->
  dict_get 279 ldir = Some l279 ->
  dict_get 259 mdir = Some m259 ->
  dict_get 273 mdir = Some m273 ->
  dict_get 279 mdir = Some m279 ->
  get_is (COMPRESSION (data_offset l259)) "LZW" = true ->
  get_is (COMPRESSION (data_offset m259)) "JPEG"
  || get_is (COMPRESSION (data_offset m259)) "JPEG 7" = true ->
  _get_label_and_macro_info self
  = Ok (mkTiff (file_path self) (tiff_info self) (next_dir_offsets self)
          (directory_offsets self) (directory_count self)
          (Some (mkAux (D - 1) ldir (data_offset l273) (data_offset l279)))
          (Some (mkAux D mdir (data_offset m273) (data_offset m279)))).
Proof.
  intros D Hl Hm Hl259 Hl273 Hl279 Hm259 Hm273 Hm279 Hlzw Hjpeg.
  unfold _get_label_and_macro_info. fold D.
  rewrite Hl. cbn [subscript res_bind]. rewrite Hl259. cbn [subscript res_bind].
  unfold label_test. rewrite Hlzw. cbn [res_bind].
  rewrite (aux_of_present _ _ _ _ Hl273 Hl279). cbn [res_bind set_label tiff_info].
  rewrite Hm. cbn [subscript res_bind]. rewrite Hm259. cbn [subscript res_bind].
  unfold macro_test. rewrite Hjpeg. cbn [res_bind].
  rewrite (aux_of_present _ _ _ _ Hm273 Hm279). cbn [res_bind].
  reflexivity.
Qed.

(** X10.  The tags the locator cannot do without.  A label candidate without a
    compression tag (259) makes the locator raise [KeyError] before any
    test; so does a candidate accepted on its compression that lacks its
    strip offset (273) or its strip byte count (279). *)
Theorem locator_missing_tags_raise_KeyError (self : BigTiffFile)
  (ldir : dict ifd_entry) :
  dict_get (dict_len (tiff_info self) - 1) (tiff_info self) = Some ldir ->
  (dict_get 259 ldir = None ->
   _get_label_and_macro_info self = Raise KeyError) /\
  (forall l259,
     dict_get 259 ldir = Some l259 ->
     get_is (COMPRESSION (data_offset l259)) "LZW" = true ->
     dict_get 273 ldir = None \/ dict_get 279 ldir = None ->
     _get_label_and_macro_info self = Raise KeyError).
Proof.
  intros Hl. unfold _get_label_and_macro_info.
  rewrite Hl. cbn [subscript res_bind]. split.
  - intros H259. now rewrite H259.
  - intros l259 Hl259 Hlzw Hmissing.
    rewrite Hl259. cbn [subscript res_bind].
    unfold label_test. rewrite Hlzw. cbn [res_bind]. unfold aux_of.
    destruct (dict_get 273 ldir) as [e273|]; cbn [subscript res_bind].
    + destruct Hmissing as [H|H]; [discriminate|]. now rewrite H.
    + reflexivity.
Qed.

(** X11.  The label and the macro are the last two directories.  For a file
    with a valid header whose chain of directories ends with a directory
    compressed with LZW followed by one compressed with JPEG, each with its
    tags 273 and 279, [BigTiffFile(path)] succeeds, with or without
    descriptions: the label descriptor names directory [D - 1] and the
    macro descriptor directory [D], each with the raw slots of its tags
    273 and 279, and [label_IFD_offset_adjustment] is the offset of the
    second-to-last directory. *)
Theorem label_and_macro_are_the_last_two_directories (fuel : nat)
  (fs : filesystem) (path : string) (data : bytes)
  (front : list (Z * list (Z * ifd_entry) * Z))
  (loff lnext moff mnext : Z) (lrecs mrecs : list (Z * ifd_entry))
  (l259 l273 l279 m259 m273 m279 : ifd_entry) :
  let dirs := (front ++ [(loff, lrecs, lnext); (moff, mrecs, mnext)])%list in
  let D := Z.of_nat (List.length dirs) in
  fs path = Some data ->
  valid_header data = true ->
  directories_from fuel data (first_directory data) = Ok dirs ->
  dict_get 259 (dict_of_list lrecs) = Some l259 ->
  dict_get 273 (dict_of_list lrecs) = Some l273 ->
  dict_get 279 (dict_of_list lrecs) = Some l279 ->
  dict_get 259 (dict_of_list mrecs) = Some m259 ->
  dict_get 273 (dict_of_list mrecs) = Some m273 ->
  dict_get 279 (dict_of_list mrecs) = Some m279 ->
  get_is (COMPRESSION (data_offset l259)) "LZW" = true ->
  get_is (COMPRESSION (data_offset m259)) "JPEG"
  || get_is (COMPRESSION (data_offset m259)) "JPEG 7" = true ->
  exists self,
    BigTiffFile_of_path fuel fs path = Ok self /\
    file_path self = Some path /\
    directory_count self = D /\
    _label self
    = Some (mkAux (D - 1) (dict_of_list lrecs) (data_offset l273) (data_offset l279)) /\
    _macro self
    = Some (mkAux D (dict_of_list mrecs) (data_offset m273) (data_offset m279)) /\
    label_IFD_offset_adjustment self = Ok loff.
Proof.
  intros dirs D Hfile Hh Hdirs Hl259 Hl273 Hl279 Hm259 Hm273 Hm279 Hlzw Hjpeg.
  rewrite (of_path_directories fuel fs path data dirs) by assumption.
  set (self0 := object_of_directories (Some path) dirs).
  assert (HD : dict_len (tiff_info self0) = D).
  { unfold self0, object_of_directories. cbn [tiff_info].
    now rewrite dict_len_numbered, length_map. }
  assert (Hlen : D = Z.of_nat (List.length front) + 2).
  { unfold D, dirs. rewrite length_app. cbn [List.length]. lia. }
  assert (Hnth : forall {V} (f : Z * list (Z * ifd_entry) * Z -> V),
             dict_get (D - 1) (numbered 1 (map f dirs))
             = Some (f (loff, lrecs, lnext)) /\
             dict_get D (numbered 1 (map f dirs))
             = Some (f (moff, mrecs, mnext))).
  { intros V f. rewrite !dict_get_numbered, !length_map.
    fold D. split.
    - replace ((1 <=? D - 1) && (D - 1 <? 1 + D)) with true
        by (symmetry; apply andb_true_iff; split; [apply Z.leb_le|apply Z.ltb_lt]; lia).
      unfold dirs. rewrite map_app. rewrite nth_error_app2 by (rewrite length_map; lia).
      rewrite length_map.
      replace (Z.to_nat (D - 1 - 1) - List.length front)%nat with 0%nat by lia.
      reflexivity.
    - replace ((1 <=? D) && (D <? 1 + D)) with true
        by (symmetry; apply andb_true_iff; split; [apply Z.leb_le|apply Z.ltb_lt]; lia).
      unfold dirs. rewrite map_app. rewrite nth_error_app2 by (rewrite length_map; lia).
      rewrite length_map.
      replace (Z.to_nat (D - 1) - List.length front)%nat with 1%nat by lia.
      reflexivity. }
  destruct (Hnth _ (fun d => dict_of_list (snd (fst d)))) as [Hl Hm].
  destruct (Hnth _ (fun d => fst (fst d))) as [Hloff _].
  cbn [fst snd] in Hl, Hm, Hloff.
  rewrite (locator_accepts self0 (dict_of_list lrecs) (dict_of_list mrecs)
             l259 l273 l279 m259 m273 m279); rewrite ?HD; try assumption.
  eexists. split; [reflexivity|].
  cbn [file_path directory_count _label _macro].
  split; [reflexivity|]. split; [reflexivity|]. split; [reflexivity|].
  split; [reflexivity|].
  unfold label_IFD_offset_adjustment. cbn [_label aux_field res_bind aux_directory
    directory_offsets]. unfold self0, object_of_directories.
  cbn [directory_offsets]. now rewrite Hloff.
Qed.

End LocatorMore.

(* ------------------------------------------------------------------ *)
(** ** De-identification, read back and repeated *)

Section DeIdentifyMore.
Context {K : Constants}.

(** The bytes that [de_identify_slide] leaves in the file. *)
Lemma de_identify_run (self : BigTiffFile) (fs : filesystem)
  (path : string) (data : bytes) (l m : aux_image) :
  file_path self = Some path ->
  fs path = Some data ->
  _label self = Some l ->
  _macro self = Some m ->
  str_contains "DigitalPathology" path = false ->
  0 <= strip_offset l -> 0 <= strip_offset m ->
  de_identify_slide self fs
  = (Ok tt,
     fs_write path
       (buf_write
          (buf_write data (strip_offset l)
             (repeat x00 (Z.to_nat (strip_byte_counts l))))
          (strip_offset m) (repeat x00 (Z.to_nat (strip_byte_counts m))))
       fs).
Proof.
  intros Hpath Hfile Hl Hm Hguard Hl0 Hm0.
  unfold de_identify_slide, path_text. rewrite Hl, Hm, Hpath.
  cbn [aux_field res_bind]. rewrite Hguard.
  unfold with_open_rw, open_file. rewrite Hfile.
  unfold io_bind, zero_fill, io_bind.
  rewrite seek_nonneg by assumption. unfold write at 1. cbn [content position].
  rewrite seek_nonneg by assumption. unfold write. cbn [content position].
  reflexivity.
Qed.

Lemma byte_at_de_identified (data : bytes) (l m : aux_image) (i : Z) :
  strip_inside l (blen data) ->
  strip_inside m (blen data) ->
  byte_at
    (buf_write
       (buf_write data (strip_offset l)
          (repeat x00 (Z.to_nat (strip_byte_counts l))))
       (strip_offset m) (repeat x00 (Z.to_nat (strip_byte_counts m)))) i
  = if in_strip l i || in_strip m i then Some x00 else byte_at data i.
Proof.
  intros (Hl0 & Hl1 & Hl2) (Hm0 & Hm1 & Hm2).
  assert (Hlen : blen (buf_write data (strip_offset l)
                         (repeat x00 (Z.to_nat (strip_byte_counts l))))
                 = blen data).
  { apply blen_buf_write; [assumption|]. rewrite blen_repeat. lia. }
  rewrite byte_at_zeroed by (rewrite ?Hlen; assumption).
  rewrite byte_at_zeroed by assumption.
  unfold in_strip.
  destruct ((strip_offset m <=? i) && (i <? strip_offset m + strip_byte_counts m));
    [now rewrite orb_true_r|].
  now rewrite orb_false_r.
Qed.

Lemma blen_de_identified (data : bytes) (l m : aux_image) :
  strip_inside l (blen data) ->
  strip_inside m (blen data) ->
  blen
    (buf_write
       (buf_write data (strip_offset l)
          (repeat x00 (Z.to_nat (strip_byte_counts l))))
       (strip_offset m) (repeat x00 (Z.to_nat (strip_byte_counts m))))
  = blen data.
Proof.
  intros (Hl0 & Hl1 & Hl2) (Hm0 & Hm1 & Hm2).
  assert (Hlen : blen (buf_write data (strip_offset l)
                         (repeat x00 (Z.to_nat (strip_byte_counts l))))
                 = blen data).
  { apply blen_buf_write; [assumption|]. rewrite blen_repeat. lia. }
  rewrite blen_buf_write; rewrite ?Hlen, ?blen_repeat; lia.
Qed.

Lemma fs_write_same (path : string) (data : bytes) (fs : filesystem) :
  fs_write path data fs path = Some data.
Proof. unfold fs_write. now rewrite String.eqb_refl. Qed.

(** X12.  Reading the label back after de-identification.  For a file whose
    descriptors name strips inside the file (and whose path is not
    protected), [de_identify_slide] followed by [_get_label_data] on the
    same object returns as many zero bytes as the label strip is long,
    whether or not the two strips overlap. *)
Theorem de_identified_label_reads_as_zeros (self : BigTiffFile) (fs : filesystem)
  (path : string) (data : bytes) (l m : aux_image) :
  file_path self = Some path ->
  fs path = Some data ->
  _label self = Some l ->
  _macro self = Some m ->
  str_contains "DigitalPathology" path = false ->
  strip_inside l (blen data) ->
  strip_inside m (blen data) ->
  fst (de_identify_slide self fs) = Ok tt /\
  _get_label_data self (snd (de_identify_slide self fs))
  = Ok (repeat x00 (Z.to_nat (strip_byte_counts l))).
Proof.
  intros Hpath Hfile Hl Hm Hguard Hin_l Hin_m.
  pose proof Hin_l as (Hl0 & Hl1 & Hl2). pose proof Hin_m as (Hm0 & Hm1 & Hm2).
  rewrite (de_identify_run self fs path data l m) by assumption.
  cbn [fst snd]. split; [reflexivity|].
  unfold _get_label_data. rewrite Hl, Hpath. cbn [aux_field res_bind].
  unfold with_open_rb, open_file. rewrite fs_write_same.
  unfold io_bind. rewrite seek_nonneg by assumption.
  unfold read. cbn [content position fst]. f_equal.
  apply byte_at_ext. intros i.
  rewrite byte_at_slice by assumption.
  rewrite byte_at_repeat, Z2Nat.id by assumption.
  destruct ((0 <=? i) && (i <? strip_byte_counts l)) eqn:E; [|reflexivity].
  apply andb_prop in E as [E1 E2]. apply Z.leb_le in E1. apply Z.ltb_lt in E2.
  rewrite byte_at_de_identified by assumption.
  unfold in_strip at 1.
  replace (strip_offset l <=? strip_offset l + i) with true by zbool.
  replace (strip_offset l + i <? strip_offset l + strip_byte_counts l)
    with true by zbool.
  reflexivity.
Qed.

(** X13.  De-identification is idempotent.  Under the same conditions, running
    [de_identify_slide] a second time succeeds and leaves every file as
    the first run left it. *)
Theorem de_identify_twice_is_once (self : BigTiffFile) (fs : filesystem)
  (path : string) (data : bytes) (l m : aux_image) :
  file_path self = Some path ->
  fs path = Some data ->
  _label self = Some l ->
  _macro self = Some m ->
  str_contains "DigitalPathology" path = false ->
  strip_inside l (blen data) ->
  strip_inside m (blen data) ->
  let once := snd (de_identify_slide self fs) in
  fst (de_identify_slide self once) = Ok tt /\
  forall q, snd (de_identify_slide self once) q = once q.
Proof.
  intros Hpath Hfile Hl Hm Hguard Hin_l Hin_m once.
  pose proof Hin_l as (Hl0 & Hl1 & Hl2). pose proof Hin_m as (Hm0 & Hm1 & Hm2).
  unfold once.
  rewrite (de_identify_run self fs path data l m) by assumption.
  cbn [snd].
  set (data1 := buf_write (buf_write data _ _) _ _).
  assert (Hlen : blen data1 = blen data) by now apply blen_de_identified.
  rewrite (de_identify_run self (fs_write path data1 fs) path data1 l m)
    by (try assumption; apply fs_write_same).
  cbn [fst snd]. split; [reflexivity|].
  intros q. unfold fs_write.
  destruct (String.eqb q path); [|reflexivity].
  f_equal. apply byte_at_ext. intros i.
  rewrite byte_at_de_identified by (rewrite Hlen; assumption).
  unfold data1. rewrite byte_at_de_identified by assumption.
  now destruct (in_strip l i || in_strip m i).
Qed.

End DeIdentifyMore.

(* ------------------------------------------------------------------ *)
(** ** Which files are written *)

Lemma with_open_rw_other {A} (fs : filesystem) (path : string) (body : io A)
  (p : string) :
  p <> path -> snd (with_open_rw fs path body) p = fs p.
Proof.
  intros Hp. unfold with_open_rw.
  destruct (open_file fs path) as [f| |]; try reflexivity.
  destruct (body f) as [r f']. cbn [snd]. unfold fs_write.
  destruct (String.eqb p path) eqn:E; [|reflexivity].
  apply String.eqb_eq in E. contradiction.
Qed.

Section Footprint.
Context {K : Constants} {B : ImageBuilder}.

Lemma de_identify_other (self : BigTiffFile) (fs : filesystem) (p : string) :
  file_path self <> Some p -> snd (de_identify_slide self fs) p = fs p.
Proof.
  intros Hp. unfold de_identify_slide.
  match goal with
  | |- snd (match ?c with _ => _ end) _ = _ =>
      destruct c as [[[[a b] c'] d]| |]
  end; try reflexivity.
  destruct (file_path self) as [path|]; [|reflexivity].
  apply with_open_rw_other. congruence.
Qed.

Lemma of_path_file_path (fuel : nat) (fs : filesystem) (path : string)
  (self : BigTiffFile) :
  BigTiffFile_of_path fuel fs path = Ok self -> file_path self = Some path.
Proof.
  intros H. apply of_path_inv in H as (self0 & _ & _ & Hp & H).
  apply locator_keeps_tiff_info in H as [_ H]. congruence.
Qed.

Lemma get_slide_offset_other (fuel : nat) (path : string) (remove : bool)
  (fs : filesystem) (p : string) :
  p <> path -> snd (_get_slide_offset fuel path remove fs) p = fs p.
Proof.
  intros Hp. unfold _get_slide_offset.
  destruct (BigTiffFile_of_path fuel fs path) as [slide| |] eqn:E;
    try reflexivity.
  destruct remove; [|reflexivity].
  pose proof (de_identify_other slide fs p) as H.
  rewrite (of_path_file_path _ _ _ _ E) in H.
  destruct (de_identify_slide slide fs) as [[u| |] fs']; cbn [snd] in *;
    apply H; congruence.
Qed.

Lemma init_other (fuel : nat) (path : string) (remove : bool)
  (qr t1 t2 t3 t4 : option cell) (fs : filesystem) (p : string) :
  p <> path ->
  snd (LabelSwitcher_init fuel path remove qr t1 t2 t3 t4 fs) p = fs p.
Proof.
  intros Hp. unfold LabelSwitcher_init.
  pose proof (get_slide_offset_other fuel path remove fs p Hp) as H.
  destruct (_get_slide_offset fuel path remove fs) as [[off| |] fs'];
    cbn [snd] in *; exact H.
Qed.

Lemma init_slide_path (fuel : nat) (path : string) (remove : bool)
  (qr t1 t2 t3 t4 : option cell) (fs : filesystem) (self : LabelSwitcher) :
  fst (LabelSwitcher_init fuel path remove qr t1 t2 t3 t4 fs) = Ok self ->
  slide_path self = path.
Proof.
  unfold LabelSwitcher_init.
  destruct (_get_slide_offset fuel path remove fs) as [[off| |] fs'];
    cbn [fst]; try discriminate.
  destruct (_get_label_img fuel off _) as [[next img]| |]; cbn [res_bind];
    try discriminate.
  destruct (_get_macro_img fuel next) as [mimg| |]; cbn [res_bind];
    try discriminate.
  intros H. injection H as <-. reflexivity.
Qed.

(** X14.  A switcher writes to its own slide only.  Building a [LabelSwitcher]
    for [path], with or without removal of the original images, and then
    calling [switch_labels] on it, leaves every file other than [path] as
    it was, whether the calls succeed or raise. *)
Theorem switcher_touches_only_its_slide (fuel : nat) (path : string)
  (remove : bool) (qr t1 t2 t3 t4 : option cell) (fs : filesystem)
  (p : string) :
  p <> path ->
  let built := LabelSwitcher_init fuel path remove qr t1 t2 t3 t4 fs in
  snd built p = fs p /\
  forall self, fst built = Ok self ->
    snd (switch_labels self (snd built)) p = fs p.
Proof.
  intros Hp built. split; [now apply init_other|].
  intros self Hself. unfold switch_labels.
  rewrite with_open_rw_other
    by (unfold built in Hself; now rewrite (init_slide_path _ _ _ _ _ _ _ _ _ _ Hself)).
  now apply init_other.
Qed.

End Footprint.

Section BatchFootprint.
Context {K : Constants} {B : ImageBuilder} {P : Pathlib} {T : Builtins}.

Lemma run_job_other (fuel : nat) (j : job) (fs : filesystem) (p : string) :
  p <> job_path j -> snd (run_job fuel j fs) p = fs p.
Proof.
  intros Hp. unfold run_job.
  pose proof (init_other fuel (job_path j) true (job_qr j) (job_line1 j)
                (job_line2 j) (job_line3 j) (job_line4 j) fs p Hp) as H.
  pose proof (init_slide_path fuel (job_path j) true (job_qr j) (job_line1 j)
                (job_line2 j) (job_line3 j) (job_line4 j) fs) as Hs.
  destruct (LabelSwitcher_init _ _ _ _ _ _ _ _ _) as [[self| |] fs'];
    cbn [fst snd] in *; try exact H.
  unfold switch_labels. rewrite with_open_rw_other; [exact H|].
  now rewrite (Hs self eq_refl).
Qed.

(** The job that [prepare_row] hands to the [try] block is for the path
    that the record names, and that path is not protected. *)
Lemma prepare_row_job_path (col : string) (dir : option string) (r : row)
  (j : job) :
  fst (prepare_row col dir r) = Ok (Some j) ->
  record_path col dir r = Ok (job_path j) /\
  str_contains "DigitalPathology" (job_path j) = false.
Proof.
  unfold prepare_row, record_path. intros H.
  destruct (row_get r col) as [c| |]; try discriminate.
  rewrite say_bind_quiet_Ok in H. cbn [res_bind].
  destruct (Path_of c) as [slide| |]; try discriminate.
  rewrite say_bind_quiet_Ok in H. cbn [res_bind].
  destruct (str_contains _ _) eqn:Hguard; [discriminate|].
  apply say_bind_fst_job in H as (t1 & _ & H).
  apply say_bind_fst_job in H as (t2 & _ & H).
  apply say_bind_fst_job in H as (t3 & _ & H).
  apply say_bind_fst_job in H as (t4 & _ & H).
  apply say_bind_fst_job in H as (n & _ & H).
  destruct (n <? 563); [discriminate|].
  cbn [quiet fst] in H. injection H as <-. cbn [job_path]. auto.
Qed.

Lemma process_row_other (fuel : nat) (col : string) (dir : option string)
  (r : row) (fs : filesystem) (p : string) :
  (forall j, fst (prepare_row col dir r) = Ok (Some j) -> job_path j <> p) ->
  snd (fst (process_row fuel col dir r fs)) p = fs p.
Proof.
  intros H. unfold process_row.
  destruct (prepare_row col dir r) as [[[j|]| |] out]; cbn [fst snd] in *;
    try reflexivity.
  pose proof (run_job_other fuel j fs p) as Hj.
  destruct (run_job fuel j fs) as [[u|e|] fs']; [|destruct (is_Exception e)|];
    cbn [fst snd] in *; apply Hj; intros ->; now apply (H j).
Qed.

Lemma batch_other (fuel : nat) (col : string) (dir : option string)
  (p : string) (df : list row) :
  (forall r j, In r df -> fst (prepare_row col dir r) = Ok (Some j) ->
     job_path j <> p) ->
  forall fs, snd (fst (switch_labels_from_file fuel df col dir fs)) p = fs p.
Proof.
  induction df as [|r rest IH]; intros H fs; [reflexivity|].
  cbn [switch_labels_from_file].
  pose proof (process_row_other fuel col dir r fs p
                (fun j => H r j (or_introl eq_refl))) as Hr.
  destruct (process_row fuel col dir r fs) as [[[u| |] fs'] out];
    cbn [fst snd] in *; try exact Hr.
  specialize (IH (fun r' j Hin => H r' j (or_intror Hin)) fs').
  destruct (switch_labels_from_file fuel rest col dir fs') as [[res fs''] out'].
  cbn [fst snd] in *. congruence.
Qed.

(** X15.  The batch driver writes only to the slides its table names.  A file
    whose path no record of the table resolves to is the same after
    [switch_labels_from_file] as before, however the run ends. *)
Theorem batch_touches_only_named_slides (fuel : nat) (df : list row)
  (col : string) (dir : option string) (fs : filesystem) (p : string) :
  (forall r, In r df -> record_path col dir r <> Ok p) ->
  snd (fst (switch_labels_from_file fuel df col dir fs)) p = fs p.
Proof.
  intros H. apply batch_other. intros r j Hin Hj <-.
  apply (H r Hin). now apply prepare_row_job_path in Hj as [Hj _].
Qed.

(** X16.  The [try] block is reached only with a path whose text does not
    contain DigitalPathology.  When the loop body goes on to build a
    [LabelSwitcher] for a record, it does so for the path that the record
    resolves to, the text of that path does not contain the protected
    text, and the slide number is 563 or more.  The guard is a test on the
    text of the path: it says nothing of where a relative name or a link
    leads. *)
Theorem switcher_is_built_only_for_unprotected_path_text (col : string)
  (dir : option string) (r : row) (j : job) :
  fst (prepare_row col dir r) = Ok (Some j) ->
  record_path col dir r = Ok (job_path j) /\
  str_contains "DigitalPathology" (job_path j) = false /\
  exists n, slide_number col dir r = Ok n /\ 563 <= n.
Proof.
  intros Hj. destruct (prepare_row_job_path _ _ _ _ Hj) as [Hp Hg].
  split; [exact Hp|]. split; [exact Hg|].
  now apply (prepare_row_job col dir r j).
Qed.

End BatchFootprint.

(* ------------------------------------------------------------------ *)
(** ** What the patcher leaves alone *)

Section PatcherFrame.
Context {K : Constants}.

(** X17.  [update_ifd] changes the value slots it patches and, for a label, the
    next-directory field; nothing else.  In a replacement with a valid
    header and one readable directory, every byte range that meets neither
    a patched slot nor (for a label) the 8-byte field after the tag table
    holds after the patch what it held before: tags, types, counts, the
    slots of short values and the image data are left as they were. *)
Theorem update_ifd_keeps_the_rest (ft : file_type) (fuel : nat)
  (data : bytes) (p : Z) (recs : list (Z * ifd_entry)) (q m : Z) :
  let off := first_directory data in
  let after := record_offset off (entry_count data off) in
  valid_header data = true ->
  off <> 0 ->
  on_disk_entries data off = Ok recs ->
  on_disk_next data off = 0 ->
  patches_fit (dict_of_list recs) p = true ->
  (ft = Label -> 0 <= blen data + p < 2 ^ 64) ->
  0 <= q -> 0 <= m ->
  (forall t e, dict_get t (dict_of_list recs) = Some e ->
     is_patched t e = true ->
     q + m <= pre_data_offset e \/ pre_data_offset e + 8 <= q) ->
  (ft = Label -> q + m <= after \/ after + 8 <= q) ->
  exists r file',
    update_ifd ft (S fuel) p (mkStream data 0) = (Ok r, file') /\
    slice (content file') q m = slice data q m.
Proof.
  intros off after Hh Hoff Hrecs Hnext Hfit Hrange Hq Hm Hfree Hfield.
  destruct (update_ifd_run ft fuel data p recs Hh Hoff Hrecs Hnext Hfit Hrange)
    as (data1 & pos1 & Hlen & _ & Hold & Hrun).
  destruct (on_disk_bounds _ _ _ Hrecs) as (Ho & Hn & Hb).
  fold off after in Hrun, Hb.
  assert (Hafter : 0 <= after) by (unfold after, record_offset; fold off; lia).
  rewrite Hrun. destruct ft; do 2 eexists; (split; [reflexivity|]);
    cbn [content].
  - rewrite slice_buf_write_other;
      rewrite ?blen_le_encode; try lia; [now apply Hold|now apply Hfield].
  - now apply Hold.
Qed.

(** X18.  A replacement without a directory cannot be patched.  When the header
    is valid and names no first directory (offset 0), [update_ifd] raises
    [KeyError] at [tiff_info[1]] and the buffer keeps its bytes. *)
Theorem update_ifd_without_directory_raises_KeyError (ft : file_type)
  (fuel : nat) (data : bytes) (p : Z) :
  valid_header data = true ->
  first_directory data = 0 ->
  exists file',
    update_ifd ft (S fuel) p (mkStream data 0) = (Raise KeyError, file') /\
    content file' = data.
Proof.
  intros Hh Hoff. unfold update_ifd, BigTiffFile_of_stream.
  unfold io_bind at 1. unfold io_bind at 1.
  rewrite (read_header_ok data Hh). rewrite Hoff.
  cbn [read_chain Z.eqb]. unfold io_ret.
  cbn [new_BigTiffFile tiff_info dict_get]. unfold io_bind at 1, io_lift at 1.
  cbn [subscript]. eexists. split; reflexivity.
Qed.

End PatcherFrame.

(* ------------------------------------------------------------------ *)
(** ** The splice *)

Section Splice.
Context {K : Constants} {B : ImageBuilder}.

(** X19.  What [switch_labels] leaves in the slide.  For a slide that exists,
    with the label insertion point inside the file (or at its end) and
    the macro insertion point at or after the end of the label body, the
    call succeeds and in the new content: the bytes before the label
    insertion point are those of the old file; the label image from its
    byte 16 on stands at the label insertion point; the macro image from
    its byte 16 on stands at the macro insertion point; and the file is at
    least as long as before (nothing is truncated). *)
Theorem switch_labels_splices_both_images (self : LabelSwitcher)
  (fs : filesystem) (data : bytes) :
  let off := _slide_offset_adjustment self in
  let next := _next_ifd_offset_adjustment self in
  let label_data := body_of (_label_img self) in
  let macro_data := body_of (_macro_img self) in
  fs (slide_path self) = Some data ->
  0 <= off <= blen data ->
  off + blen label_data <= next ->
  exists out,
    switch_labels self fs = (Ok tt, fs_write (slide_path self) out fs) /\
    slice out 0 off = slice data 0 off /\
    slice out off (blen label_data) = label_data /\
    slice out next (blen macro_data) = macro_data /\
    blen data <= blen out.
Proof.
  intros off next label_data macro_data Hfile Hoff Hnext.
  pose proof (blen_nonneg label_data) as Hl.
  assert (Hn : 0 <= next) by lia.
  exists (buf_write (buf_write data off label_data) next macro_data).
  destruct (blen_buf_write_ge data off label_data) as [Hge1 Hge1']; [lia|].
  destruct (blen_buf_write_ge (buf_write data off label_data) next macro_data)
    as [Hge2 _]; [lia|].
  split; [|split; [|split; [|split]]].
  - unfold switch_labels, with_open_rw, open_file. rewrite Hfile.
    fold off next label_data macro_data.
    unfold io_bind. rewrite seek_nonneg by lia.
    unfold write at 1. cbn [content position].
    rewrite seek_nonneg by lia. unfold write. cbn [content position].
    reflexivity.
  - rewrite slice_buf_write_before by lia.
    apply slice_buf_write_before; lia.
  - rewrite slice_buf_write_before; [apply slice_buf_write_same_gen; lia|lia..|].
    now apply blen_buf_write_end.
  - apply slice_buf_write_same_gen. lia.
  - lia.
Qed.

End Splice.

(* ------------------------------------------------------------------ *)
(** ** Records that end the batch *)

Section BatchAbort.
Context {K : Constants} {B : ImageBuilder} {P : Pathlib} {T : Builtins}.

Lemma say_bind_fst_Ok {A C} (m : say A) (k : A -> say C) (c : C) :
  fst (say_bind m k) = Ok c ->
  exists a, fst m = Ok a /\ fst (k a) = Ok c.
Proof.
  unfold say_bind. destruct m as [[a| |] out]; cbn [fst]; try discriminate.
  destruct (k a) as [r out'] eqn:E. cbn [fst]. intros ->.
  exists a. now rewrite E.
Qed.

Lemma prepare_row_needs_number (col : string) (dir : option string) (r : row)
  (o : option job) :
  fst (prepare_row col dir r) = Ok o ->
  exists n, slide_number col dir r = Ok n.
Proof.
  unfold prepare_row, slide_number. intros H.
  destruct (row_get r col) as [c| |]; try discriminate.
  rewrite say_bind_quiet_Ok in H. cbn [res_bind].
  destruct (Path_of c) as [slide| |]; try discriminate.
  rewrite say_bind_quiet_Ok in H. cbn [res_bind].
  destruct (str_contains _ _); [discriminate|].
  apply say_bind_fst_Ok in H as (t1 & _ & H).
  apply say_bind_fst_Ok in H as (t2 & _ & H).
  apply say_bind_fst_Ok in H as (t3 & _ & H).
  apply say_bind_fst_Ok in H as (t4 & _ & H).
  apply say_bind_fst_Ok in H as (n & Hn & H).
  cbn [quiet fst] in Hn. now exists n.
Qed.

(** X20.  A record whose slide number cannot be read ends the batch.  When the
    column is missing, its cell is not text, or the first five characters
    of the stem are not an integer, the loop body raises before the [try]
    block: [switch_labels_from_file] stops at that record with an
    exception, the records after it are not processed, and no file has
    been written for it. *)
Theorem unreadable_slide_number_ends_the_batch (fuel : nat) (col : string)
  (dir : option string) (r : row) (rest : list row) (fs : filesystem)
  (e : exn) :
  slide_number col dir r = Raise e ->
  exists e' out,
    switch_labels_from_file fuel (r :: rest) col dir fs = (Raise e', fs, out).
Proof.
  intros Hnum. cbn [switch_labels_from_file]. unfold process_row.
  pose proof (prepare_row_needs_number col dir r) as Hneeds.
  pose proof (prepare_row_no_fuel col dir r) as Hfuel.
  destruct (prepare_row col dir r) as [[o|e'|] out]; cbn [fst] in *.
  - destruct (Hneeds o eq_refl) as (n & Hn). congruence.
  - now exists e', out.
  - contradiction.
Qed.

End BatchAbort.

(* ------------------------------------------------------------------ *)
(** ** The insertion points that the constructor computes *)

Section Placement.
Context {K : Constants} {B : ImageBuilder}.

Lemma blen_body_of (img : stream) :
  16 <= blen (content img) -> blen (body_of img) = blen (content img) - 16.
Proof.
  unfold body_of, blen. rewrite length_skipn. lia.
Qed.

Lemma valid_header_length (data : bytes) :
  valid_header data = true -> 16 <= blen data.
Proof.
  unfold valid_header. intros H. apply andb_prop in H as [_ H].
  now apply Z.leb_le.
Qed.

(** What the constructor returns on well-formed replacements. *)
Lemma constructor_run (fuel : nat) (path : string) (remove : bool)
  (qr t1 t2 t3 t4 : option cell) (fs fs1 : filesystem) (p : Z)
  (lrecs mrecs : list (Z * ifd_entry)) (label_image macro_image : stream) :
  let ldata := content label_image in
  let mdata := content macro_image in
  let after := record_offset (first_directory ldata)
                 (entry_count ldata (first_directory ldata)) in
  create_image Label (Some [qr; t1; t2; t3; t4]) = Ok label_image ->
  create_image Macro None = Ok macro_image ->
  position label_image = 0 ->
  valid_header ldata = true ->
  first_directory ldata <> 0 ->
  on_disk_entries ldata (first_directory ldata) = Ok lrecs ->
  on_disk_next ldata (first_directory ldata) = 0 ->
  patches_fit (dict_of_list lrecs) p = true ->
  0 <= blen ldata + p < 2 ^ 64 ->
  position macro_image = 0 ->
  valid_header mdata = true ->
  first_directory mdata <> 0 ->
  on_disk_entries mdata (first_directory mdata) = Ok mrecs ->
  on_disk_next mdata (first_directory mdata) = 0 ->
  patches_fit (dict_of_list mrecs) (blen ldata + p) = true ->
  _get_slide_offset (S fuel) path remove fs = (Ok p, fs1) ->
  exists l1 m1 mpos,
    LabelSwitcher_init (S fuel) path remove qr t1 t2 t3 t4 fs
    = (Ok (mkSwitcher path p (blen ldata + p)
             (mkStream (buf_write l1 after (le_encode 8 (blen ldata + p)))
                (after + 8))
             (mkStream m1 mpos)),
       fs1) /\
    _get_label_img (S fuel) p [qr; t1; t2; t3; t4]
    = Ok (blen ldata + p,
          mkStream (buf_write l1 after (le_encode 8 (blen ldata + p)))
            (after + 8)) /\
    _get_macro_img (S fuel) (blen ldata + p) = Ok (mkStream m1 mpos) /\
    blen l1 = blen ldata /\
    blen m1 = blen mdata /\
    0 <= after /\
    after + 8 <= blen ldata.
Proof.
  intros ldata mdata after Hlc Hmc
    Hlpos Hlh Hloff Hlrecs Hlnext Hlfit Hrange
    Hmpos Hmh Hmoff Hmrecs Hmnext Hmfit Hslide.
  destruct (update_ifd_run Label fuel ldata p lrecs Hlh Hloff Hlrecs Hlnext
              Hlfit (fun _ => Hrange))
    as (l1 & lpos & Hllen & _ & _ & Hlrun).
  destruct (update_ifd_run Macro fuel mdata (blen ldata + p) mrecs Hmh Hmoff
              Hmrecs Hmnext Hmfit ltac:(discriminate))
    as (m1 & mpos & Hmlen & _ & _ & Hmrun).
  destruct (on_disk_bounds _ _ _ Hlrecs) as (Ho & Hn & Hb).
  assert (Hlimg : label_image = mkStream ldata 0).
  { unfold ldata. rewrite <- Hlpos. symmetry. apply stream_eta. }
  assert (Hmimg : macro_image = mkStream mdata 0).
  { unfold mdata. rewrite <- Hmpos. symmetry. apply stream_eta. }
  rewrite <- Hlimg in Hlrun. rewrite <- Hmimg in Hmrun.
  fold after in Hlrun, Hb.
  assert (Hlabel : _get_label_img (S fuel) p [qr; t1; t2; t3; t4]
                   = Ok (blen ldata + p,
                         mkStream (buf_write l1 after (le_encode 8 (blen ldata + p)))
                           (after + 8))).
  { unfold _get_label_img. rewrite Hlc. cbn [res_bind]. now rewrite Hlrun. }
  assert (Hmacro : _get_macro_img (S fuel) (blen ldata + p)
                   = Ok (mkStream m1 mpos)).
  { unfold _get_macro_img. rewrite Hmc. cbn [res_bind]. now rewrite Hmrun. }
  exists l1, m1, mpos.
  split; [|split; [exact Hlabel|split; [exact Hmacro|
           split; [exact Hllen|split; [exact Hmlen|split]]]]].
  - unfold LabelSwitcher_init. rewrite Hslide, Hlabel. cbn [res_bind].
    now rewrite Hmacro.
  - unfold after, record_offset. lia.
  - exact Hb.
Qed.

(** X21.  The constructor succeeds on well-formed replacements, and it places
    the macro 16 bytes after the end of the label body.  When the slide
    yields the label directory offset [p], and the label and macro images
    that [create_image] returns each have a valid header and one readable
    directory whose patched values fit, [LabelSwitcher.__init__] returns a
    switcher for the same path whose label insertion point is [p] and
    whose macro insertion point is [p] plus the whole length of the label
    image, header included: since [switch_labels] writes the label image
    without its 16 header bytes, 16 bytes of the old file stay between the
    two bodies.  Both images keep their length. *)
Theorem constructor_places_macro_after_label_image (fuel : nat) (path : string)
  (remove : bool) (qr t1 t2 t3 t4 : option cell) (fs : filesystem) (p : Z)
  (lrecs mrecs : list (Z * ifd_entry)) (label_image macro_image : stream) :
  let ldata := content label_image in
  let mdata := content macro_image in
  create_image Label (Some [qr; t1; t2; t3; t4]) = Ok label_image ->
  create_image Macro None = Ok macro_image ->
  position label_image = 0 ->
  valid_header ldata = true ->
  first_directory ldata <> 0 ->
  on_disk_entries ldata (first_directory ldata) = Ok lrecs ->
  on_disk_next ldata (first_directory ldata) = 0 ->
  patches_fit (dict_of_list lrecs) p = true ->
  0 <= blen ldata + p < 2 ^ 64 ->
  position macro_image = 0 ->
  valid_header mdata = true ->
  first_directory mdata <> 0 ->
  on_disk_entries mdata (first_directory mdata) = Ok mrecs ->
  on_disk_next mdata (first_directory mdata) = 0 ->
  patches_fit (dict_of_list mrecs) (blen ldata + p) = true ->
  fst (_get_slide_offset (S fuel) path remove fs) = Ok p ->
  exists self,
    LabelSwitcher_init (S fuel) path remove qr t1 t2 t3 t4 fs
    = (Ok self, snd (_get_slide_offset (S fuel) path remove fs)) /\
    slide_path self = path /\
    _slide_offset_adjustment self = p /\
    blen (content (_label_img self)) = blen ldata /\
    blen (content (_macro_img self)) = blen mdata /\
    _next_ifd_offset_adjustment self
    = p + blen (body_of (_label_img self)) + 16.
Proof.
  intros ldata mdata Hlc Hmc
    Hlpos Hlh Hloff Hlrecs Hlnext Hlfit Hrange
    Hmpos Hmh Hmoff Hmrecs Hmnext Hmfit Hslide.
  destruct (_get_slide_offset (S fuel) path remove fs) as [r fs1] eqn:Hs.
  cbn [fst snd] in *. subst r.
  destruct (constructor_run fuel path remove qr t1 t2 t3 t4 fs fs1 p lrecs mrecs
              label_image macro_image Hlc Hmc Hlpos Hlh Hloff Hlrecs Hlnext
              Hlfit Hrange Hmpos Hmh Hmoff Hmrecs Hmnext Hmfit Hs)
    as (l1 & m1 & mpos & Hrun & _ & _ & Hllen & Hmlen & Hafter & Hb).
  fold ldata mdata in Hrun, Hllen, Hmlen, Hafter, Hb.
  set (after := record_offset (first_directory ldata)
                  (entry_count ldata (first_directory ldata))) in *.
  assert (Hlen' : blen (buf_write l1 after (le_encode 8 (blen ldata + p)))
                  = blen ldata).
  { rewrite blen_buf_write; rewrite ?blen_le_encode; lia. }
  eexists. split; [exact Hrun|].
  cbn [slide_path _slide_offset_adjustment _label_img _macro_img
       _next_ifd_offset_adjustment content].
  split; [reflexivity|]. split; [reflexivity|].
  split; [exact Hlen'|]. split; [exact Hmlen|].
  rewrite blen_body_of; cbn [content]; rewrite Hlen'.
  - lia.
  - now apply valid_header_length.
Qed.

End Placement.

(* ------------------------------------------------------------------ *)
(** ** From the patched images to the spliced slide *)

Lemma slice_empty (data : bytes) (p : Z) : slice data p 0 = [].
Proof. reflexivity. Qed.

Lemma slice_of_piece (data piece : bytes) (p q m : Z) :
  slice data p (blen piece) = piece ->
  0 <= p -> 0 <= q -> 0 <= m -> q + m <= blen piece ->
  slice data (p + q) m = slice piece q m.
Proof.
  intros H Hp Hq Hm Hb.
  rewrite <- (slice_slice data p (blen piece) q m) by assumption.
  now rewrite H.
Qed.

Lemma slice_body_of (img : stream) (q m : Z) :
  0 <= q -> slice (body_of img) q m = slice (content img) (16 + q) m.
Proof.
  intros Hq. unfold slice, body_of. rewrite skipn_skipn. do 2 f_equal. lia.
Qed.

Lemma spliced_slices (data : bytes) (off next : Z) (lb mb : bytes) :
  0 <= off -> off + blen lb <= next ->
  slice (buf_write (buf_write data off lb) next mb) off (blen lb) = lb /\
  slice (buf_write (buf_write data off lb) next mb) next (blen mb) = mb.
Proof.
  intros Hoff Hnext. pose proof (blen_nonneg lb) as Hl.
  split; [|apply slice_buf_write_same_gen; lia].
  destruct lb as [|b lb'] eqn:E; [reflexivity|]. rewrite <- E in *.
  rewrite slice_buf_write_before; [apply slice_buf_write_same_gen; lia|lia..|].
  apply blen_buf_write_ge; [lia|]. rewrite E. discriminate.
Qed.

Section Chaining.
Context {K : Constants} {B : ImageBuilder}.

Lemma switch_labels_run (self : LabelSwitcher) (fs : filesystem) (data : bytes) :
  fs (slide_path self) = Some data ->
  0 <= _slide_offset_adjustment self ->
  0 <= _next_ifd_offset_adjustment self ->
  switch_labels self fs
  = (Ok tt,
     fs_write (slide_path self)
       (buf_write
          (buf_write data (_slide_offset_adjustment self)
             (body_of (_label_img self)))
          (_next_ifd_offset_adjustment self) (body_of (_macro_img self)))
       fs).
Proof.
  intros Hfile Hoff Hnext.
  unfold switch_labels, with_open_rw, open_file. rewrite Hfile.
  unfold io_bind. rewrite seek_nonneg by assumption.
  unfold write at 1. cbn [content position].
  rewrite seek_nonneg by assumption. unfold write. cbn [content position].
  reflexivity.
Qed.

(** C2 as the code has it.  When the label replacement is patched with
    insertion point [p], the 8-byte field right after its tag table is
    rewritten to the length of the replacement itself plus [p] (not to the
    end of the slide plus [p]); [_get_label_img] returns that value and
    [LabelSwitcher.__init__] patches the macro replacement with it as
    insertion point.  [switch_labels] then writes each image from its byte
    16 on at its insertion point: byte [q] of the label image stands at
    [p + q - 16] of the slide and byte [q] of the macro image at
    [next + q - 16] (for insertion points below [2 ^ 63]).  The pointer of the spliced label directory thus
    names the byte where byte 16 of the macro image stands: it names the
    spliced macro directory exactly when that directory is at byte 16 of
    the macro image. *)
Theorem label_next_pointer_chains_to_macro (fuel : nat) (path : string)
  (remove : bool) (qr t1 t2 t3 t4 : option cell) (fs fs1 : filesystem) (p : Z)
  (lrecs mrecs : list (Z * ifd_entry)) (label_image macro_image : stream)
  (slide : bytes) :
  let ldata := content label_image in
  let mdata := content macro_image in
  let after := first_directory ldata + 8 + 20 * Z.of_nat (List.length lrecs) in
  let next := blen ldata + p in
  create_image Label (Some [qr; t1; t2; t3; t4]) = Ok label_image ->
  create_image Macro None = Ok macro_image ->
  position label_image = 0 ->
  valid_header ldata = true ->
  first_directory ldata <> 0 ->
  on_disk_entries ldata (first_directory ldata) = Ok lrecs ->
  on_disk_next ldata (first_directory ldata) = 0 ->
  patches_fit (dict_of_list lrecs) p = true ->
  0 <= next <= PY_SSIZE_T_MAX ->
  position macro_image = 0 ->
  valid_header mdata = true ->
  first_directory mdata <> 0 ->
  on_disk_entries mdata (first_directory mdata) = Ok mrecs ->
  on_disk_next mdata (first_directory mdata) = 0 ->
  patches_fit (dict_of_list mrecs) next = true ->
  _get_slide_offset (S fuel) path remove fs = (Ok p, fs1) ->
  fs1 path = Some slide ->
  0 <= p ->
  exists ls out,
    LabelSwitcher_init (S fuel) path remove qr t1 t2 t3 t4 fs = (Ok ls, fs1) /\
    _slide_offset_adjustment ls = p /\
    _get_label_img (S fuel) p [qr; t1; t2; t3; t4] = Ok (next, _label_img ls) /\
    le_decode (slice (content (_label_img ls)) after 8) = next /\
    _next_ifd_offset_adjustment ls = next /\
    _get_macro_img (S fuel) next = Ok (_macro_img ls) /\
    switch_labels ls fs1 = (Ok tt, fs_write path out fs1) /\
    (forall q m, 16 <= q -> 0 <= m -> q + m <= blen ldata ->
       slice out (p + (q - 16)) m = slice (content (_label_img ls)) q m) /\
    (forall q m, 16 <= q -> 0 <= m -> q + m <= blen mdata ->
       slice out (next + (q - 16)) m = slice (content (_macro_img ls)) q m) /\
    (16 <= after ->
     le_decode (slice out (p + (after - 16)) 8) = next /\
     (le_decode (slice out (p + (after - 16)) 8)
      = next + (first_directory mdata - 16)
      <-> first_directory mdata = 16)).
Proof.
  intros ldata mdata after next Hlc Hmc
    Hlpos Hlh Hloff Hlrecs Hlnext Hlfit Hrange
    Hmpos Hmh Hmoff Hmrecs Hmnext Hmfit Hslide Hfile Hp.
  assert (Hrange' : 0 <= blen ldata + p < 2 ^ 64).
  { fold next. unfold PY_SSIZE_T_MAX in Hrange. lia. }
  destruct (constructor_run fuel path remove qr t1 t2 t3 t4 fs fs1 p lrecs mrecs
              label_image macro_image Hlc Hmc Hlpos Hlh Hloff Hlrecs Hlnext
              Hlfit Hrange' Hmpos Hmh Hmoff Hmrecs Hmnext Hmfit Hslide)
    as (l1 & m1 & mpos & Hrun & Hlabel & Hmacro & Hllen & Hmlen & Hafter & Hb).
  fold ldata mdata next in Hrun, Hlabel, Hmacro, Hllen, Hmlen, Hafter, Hb.
  assert (Hafter' : record_offset (first_directory ldata)
                      (entry_count ldata (first_directory ldata)) = after).
  { unfold after, record_offset. now rewrite (on_disk_length _ _ _ Hlrecs). }
  rewrite Hafter' in *.
  set (limg := mkStream (buf_write l1 after (le_encode 8 next)) (after + 8)) in *.
  set (mimg := mkStream m1 mpos) in *.
  set (ls := mkSwitcher path p next limg mimg) in *.
  assert (Hl16 : 16 <= blen ldata) by now apply valid_header_length.
  assert (Hm16 : 16 <= blen mdata) by now apply valid_header_length.
  assert (Hllen' : blen (content limg) = blen ldata).
  { unfold limg. cbn [content].
    rewrite blen_buf_write; rewrite ?blen_le_encode; lia. }
  assert (Hmlen' : blen (content mimg) = blen mdata) by exact Hmlen.
  assert (Hfield : slice (content limg) after 8 = le_encode 8 next).
  { unfold limg. cbn [content].
    replace 8 with (blen (le_encode 8 next)) at 2 by apply blen_le_encode.
    apply slice_buf_write_same; rewrite ?blen_le_encode; lia. }
  assert (Hlb : blen (body_of limg) = blen ldata - 16)
    by (rewrite blen_body_of; lia).
  assert (Hmb : blen (body_of mimg) = blen mdata - 16)
    by (rewrite blen_body_of; lia).
  destruct (spliced_slices slide p next (body_of limg) (body_of mimg) Hp
              ltac:(unfold next; lia)) as [Hsl Hsm].
  set (out := buf_write (buf_write slide p (body_of limg)) next (body_of mimg))
    in *.
  assert (Hlabel_at : forall q m, 16 <= q -> 0 <= m -> q + m <= blen ldata ->
            slice out (p + (q - 16)) m = slice (content limg) q m).
  { intros q m Hq Hm Hqm.
    rewrite (slice_of_piece out (body_of limg)) by (try assumption; lia).
    rewrite slice_body_of by lia. f_equal. lia. }
  assert (Hmacro_at : forall q m, 16 <= q -> 0 <= m -> q + m <= blen mdata ->
            slice out (next + (q - 16)) m = slice (content mimg) q m).
  { intros q m Hq Hm Hqm.
    rewrite (slice_of_piece out (body_of mimg)) by (try assumption; lia).
    rewrite slice_body_of by lia. f_equal. lia. }
  assert (Hnext_dec : le_decode (le_encode 8 next) = next)
    by (apply le_decode_encode_8; fold next in Hrange'; exact Hrange').
  exists ls, out.
  split; [exact Hrun|]. split; [reflexivity|]. split; [exact Hlabel|].
  split; [cbn [_label_img ls]; now rewrite Hfield|].
  split; [reflexivity|]. split; [exact Hmacro|].
  split; [apply (switch_labels_run ls fs1 slide); cbn; [assumption|lia|lia]|].
  split; [exact Hlabel_at|]. split; [exact Hmacro_at|].
  intros H16.
  assert (Hptr : le_decode (slice out (p + (after - 16)) 8) = next).
  { rewrite Hlabel_at by lia. now rewrite Hfield. }
  split; [exact Hptr|]. rewrite Hptr. lia.
Qed.

End Chaining.

(* ------------------------------------------------------------------ *)
(** ** Concrete runs *)

Lemma blen_sample_label_blob : blen sample_label_blob = 148.
Proof. reflexivity. Qed.

Lemma blen_sample_slide : blen sample_slide = 176.
Proof. reflexivity. Qed.

(** C1, false as stated: the directory at 16 has two records with tag
    273, with slots 100 (at 36) and 200 (at 56).  Patching for insertion
    point 1000 rewrites the second slot to 200 + 1000 - 16 and leaves the
    first at 100, although its tag is 273. *)
Lemma repeated_tag_keeps_earlier_slot :
  entry_count blob_with_repeated_strip_tag 16 = 2 /\
  le_decode (slice blob_with_repeated_strip_tag 24 2) = 273 /\
  le_decode (slice blob_with_repeated_strip_tag 36 8) = 100 /\
  le_decode (slice blob_with_repeated_strip_tag 44 2) = 273 /\
  le_decode (slice blob_with_repeated_strip_tag 56 8) = 200 /\
  exists file',
    @update_ifd tiff_tables Macro 1 1000 (mkStream blob_with_repeated_strip_tag 0)
    = (Ok None, file') /\
    le_decode (slice (content file') 36 8) = 100 /\
    le_decode (slice (content file') 36 8) <> 100 + 1000 - 16 /\
    le_decode (slice (content file') 56 8) = 200 + 1000 - 16.
Proof.
  repeat (split; [reflexivity|]).
  eexists. split; [vm_compute; reflexivity|].
  split; [reflexivity|]. split; [vm_compute; discriminate|reflexivity].
Qed.

(** C1 as amended, on the directory with the repeated tag 273, patched
    for insertion point 1000. *)
Lemma update_ifd_patches_value_slots_witness :
  exists tiff_data r file',
    fst (@BigTiffFile_of_stream tiff_tables 1
           (mkStream blob_with_repeated_strip_tag 0))
    = Ok tiff_data /\
    dict_get 1 (tiff_info tiff_data)
    = Some (dict_of_list (records_of blob_with_repeated_strip_tag 16)) /\
    @update_ifd tiff_tables Macro 1 1000 (mkStream blob_with_repeated_strip_tag 0)
    = (Ok r, file') /\
    blen (content file') = blen blob_with_repeated_strip_tag /\
    (forall tag e,
       dict_get tag (dict_of_list (records_of blob_with_repeated_strip_tag 16))
       = Some e ->
       slice (content file') (pre_data_offset e) 8 =
       (if @is_patched tiff_tables tag e
        then le_encode 8 (data_offset e + 1000 - 16)
        else slice blob_with_repeated_strip_tag (pre_data_offset e) 8) /\
       (@is_patched tiff_tables tag e = true ->
        le_decode (slice (content file') (pre_data_offset e) 8)
        = data_offset e + 1000 - 16)) /\
    (forall i tag e,
       0 <= i < entry_count blob_with_repeated_strip_tag
                  (first_directory blob_with_repeated_strip_tag) ->
       @entry_at tiff_tables blob_with_repeated_strip_tag
         (first_directory blob_with_repeated_strip_tag) i = Ok (tag, e) ->
       dict_get tag (dict_of_list (records_of blob_with_repeated_strip_tag 16))
       <> Some e ->
       slice (content file') (pre_data_offset e) 8
       = slice blob_with_repeated_strip_tag (pre_data_offset e) 8).
Proof.
  apply (@update_ifd_patches_value_slots tiff_tables Macro 0
           blob_with_repeated_strip_tag 1000
           (records_of blob_with_repeated_strip_tag 16)).
  - reflexivity.
  - vm_compute. discriminate.
  - reflexivity.
  - reflexivity.
  - reflexivity.
  - discriminate.
Defined.

(** C2, false as stated: the slide is 176 bytes long and the label
    directory is at 24, yet the next-directory field of the patched label
    (at 124) and the insertion point kept for the macro are
    148 + 24 = 172, the length of the label replacement plus 24, and not
    176 + 24. *)
Lemma label_next_pointer_is_not_end_of_slide :
  exists ls,
    fst (@LabelSwitcher_init tiff_tables sample_builder 5 sample_path true
           None None None None None sample_disk) = Ok ls /\
    blen sample_slide = 176 /\
    _slide_offset_adjustment ls = 24 /\
    le_decode (slice (content (_label_img ls)) 124 8) = 172 /\
    _next_ifd_offset_adjustment ls = 172 /\
    _next_ifd_offset_adjustment ls
    <> blen sample_slide + _slide_offset_adjustment ls.
Proof.
  eexists. split; [vm_compute; reflexivity|].
  repeat split; try reflexivity. vm_compute. discriminate.
Qed.

(** C2 as amended, on the sample slide and the sample replacements: the
    label directory is at 24, the label image has 148 bytes and its
    next-directory field is at 124; both images have their directory at
    byte 16. *)
Lemma label_next_pointer_chains_to_macro_witness :
  exists ls out,
    @LabelSwitcher_init tiff_tables sample_builder 5 sample_path false
      None None None None None sample_disk = (Ok ls, sample_disk) /\
    _slide_offset_adjustment ls = 24 /\
    @_get_label_img tiff_tables sample_builder 5 24 [None; None; None; None; None]
    = Ok (148 + 24, _label_img ls) /\
    le_decode (slice (content (_label_img ls)) (16 + 8 + 20 * 5) 8) = 148 + 24 /\
    _next_ifd_offset_adjustment ls = 148 + 24 /\
    @_get_macro_img tiff_tables sample_builder 5 (148 + 24) = Ok (_macro_img ls) /\
    switch_labels ls sample_disk = (Ok tt, fs_write sample_path out sample_disk) /\
    (forall q m, 16 <= q -> 0 <= m -> q + m <= 148 ->
       slice out (24 + (q - 16)) m = slice (content (_label_img ls)) q m) /\
    (forall q m, 16 <= q -> 0 <= m -> q + m <= blen sample_macro_blob ->
       slice out (148 + 24 + (q - 16)) m = slice (content (_macro_img ls)) q m) /\
    (16 <= 16 + 8 + 20 * 5 ->
     le_decode (slice out (24 + (16 + 8 + 20 * 5 - 16)) 8) = 148 + 24 /\
     (le_decode (slice out (24 + (16 + 8 + 20 * 5 - 16)) 8)
      = 148 + 24 + (first_directory sample_macro_blob - 16)
      <-> first_directory sample_macro_blob = 16)).
Proof.
  apply (@label_next_pointer_chains_to_macro tiff_tables sample_builder 4
           sample_path false None None None None None sample_disk sample_disk 24
           (records_of sample_label_blob 16) (records_of sample_macro_blob 16)
           (mkStream sample_label_blob 0) (mkStream sample_macro_blob 0)
           sample_slide);
    try reflexivity; try (vm_compute; discriminate); try lia.
  vm_compute. split; discriminate.
Defined.

(** C3, at a failing input: the label candidate of this slide has no
    description (tag 270) and is not compressed with LZW.  The missing
    description is caught and replaced by [None], but the label test then
    evaluates [b'label' in None], and reading the file raises
    [TypeError]. *)
Lemma missing_description_raises_TypeError :
  option_value (dict_get 270 (records_of slide_without_description 24)) = None /\
  @label_test tiff_tables 1 None = Raise TypeError /\
  @BigTiffFile_of_path tiff_tables 5 undescribed_disk sample_path
  = Raise TypeError.
Proof. repeat split; reflexivity. Qed.

(** C4, false as stated: the label candidate of this slide fails its test,
    the label descriptor stays unset, and zero-filling raises an exception
    of class [TypeError], not [AuxImageNotFoundError]. *)
Lemma unset_label_raises_TypeError_not_AuxImageNotFoundError :
  @BigTiffFile_of_path tiff_tables 5 unmatched_disk sample_path
  = Ok (parsed unmatched_disk sample_path) /\
  _label (parsed unmatched_disk sample_path) = None /\
  exists e,
    de_identify_slide (parsed unmatched_disk sample_path) unmatched_disk
    = (Raise e, unmatched_disk) /\
    class_name e = "TypeError"%string /\
    class_name e <> "AuxImageNotFoundError"%string.
Proof.
  split; [reflexivity|]. split; [reflexivity|].
  exists TypeError. split; [reflexivity|]. split; [reflexivity|discriminate].
Qed.

(** C4 as amended, on the slide whose label candidate fails its test. *)
Lemma unmatched_candidate_raises_TypeError_witness :
  _label (parsed unmatched_disk sample_path) = None /\
  de_identify_slide (parsed unmatched_disk sample_path) unmatched_disk
  = (Raise TypeError, unmatched_disk) /\
  _get_label_data (parsed unmatched_disk sample_path) unmatched_disk
  = Raise TypeError /\
  label_IFD_offset_adjustment (parsed unmatched_disk sample_path)
  = Raise TypeError.
Proof.
  pose (self := parsed unmatched_disk sample_path).
  apply (proj1 (@unmatched_candidate_raises_TypeError tiff_tables 5
                  unmatched_disk unmatched_disk sample_path self
                  (directory_of self 1) (directory_of self 2)
                  (entry_of (directory_of self 1) 259)
                  (entry_of (directory_of self 2) 259)
                  eq_refl eq_refl eq_refl eq_refl eq_refl)).
  reflexivity.
Defined.

(** C6, false as stated: a strip-offset field (tag 273) and a
    strip-byte-count field (tag 279) of 16 bytes are not read at the
    pointer target, where the two values 100 and 200 are. *)
Lemma strip_lists_are_not_materialized :
  @calcsize 2 Fmt_Q = Ok 16 /\
  unpack 2 Fmt_Q (slice blob_with_two_strips 52 16) = Ok [EInt 100; EInt 200] /\
  fst (@_ifd_value tiff_tables 273 16 2 36 52 (mkStream blob_with_two_strips 44))
  = Ok (VStr "Too long to display") /\
  fst (@_ifd_value tiff_tables 279 16 2 36 52 (mkStream blob_with_two_strips 44))
  = Ok (VStr "Too long to display") /\
  @on_disk_entries tiff_tables blob_with_two_strips 16
  = Ok [(273, mkEntry 24 16 2 36 52 (VStr "Too long to display"))].
Proof. repeat split; reflexivity. Qed.

(** C6 as amended, on the description of the sample label replacement
    (twelve characters, read at 132). *)
Lemma _ifd_value_selective_witness :
  fst (@_ifd_value tiff_tables 270 2 12 76 132 (mkStream sample_label_blob 84))
  = res_bind (unpack 12 Fmt_c (slice sample_label_blob 132 12)) (fun v =>
      if get_is (@TYPE_DICT tiff_tables 2) "ASCII"
      then res_bind (bytes_join v) (fun j => Ok (VBytes j))
      else Ok (VTuple v)).
Proof.
  refine (proj1 (proj2 (@_ifd_value_selective tiff_tables 270 2 12 76 132
                          (mkStream sample_label_blob 84) Fmt_c
                          eq_refl _ _ _ _ _)) _ _);
    cbn; lia.
Defined.



(** C5, at a failing input: the slide is stored under a protected
    directory.  With the removal of the original images requested the
    constructor refuses ([de_identify_slide] has the guard); without it the
    constructor succeeds and [switch_labels], which has no guard of its
    own, overwrites the file. *)
Lemma switch_labels_writes_under_protected_path :
  str_contains "DigitalPathology" protected_path = true /\
  fst (@LabelSwitcher_init tiff_tables sample_builder 5 protected_path true
         None None None None None protected_disk)
  = Raise (RuntimeError "Cannot remove labels in provided directory!!") /\
  exists ls,
    @LabelSwitcher_init tiff_tables sample_builder 5 protected_path false
      None None None None None protected_disk = (Ok ls, protected_disk) /\
    fst (switch_labels ls protected_disk) = Ok tt /\
    snd (switch_labels ls protected_disk) protected_path
    <> protected_disk protected_path.
Proof.
  split; [reflexivity|]. split; [reflexivity|].
  eexists. split; [vm_compute; reflexivity|].
  split; [reflexivity|]. vm_compute. discriminate.
Qed.

(** C8, false as stated: the first record names a slide under a protected
    directory.  The driver's own check raises [RuntimeError] outside the
    [try] block: the batch ends there, and the second record, which alone
    would have been processed, is never reached.  Likewise on a machine
    without the font: the first record ends the batch with [SystemExit],
    after its slide has been zero-filled, and the second slide is left as
    it was. *)
Lemma protected_record_stops_the_batch :
  (fst (fst (@switch_labels_from_file tiff_tables sample_builder posix_paths
               ascii_text 5 [row_of protected_path; row_of sample_path]
               "File Location" None sample_disk))
   = Raise (RuntimeError "Cannot remove labels in provided directory!!") /\
   snd (fst (@switch_labels_from_file tiff_tables sample_builder posix_paths
               ascii_text 5 [row_of protected_path; row_of sample_path]
               "File Location" None sample_disk)) sample_path
   = Some sample_slide /\
   snd (fst (@switch_labels_from_file tiff_tables sample_builder posix_paths
               ascii_text 5 [row_of sample_path] "File Location" None
               sample_disk)) sample_path
   <> Some sample_slide) /\
  (fst (fst (@switch_labels_from_file tiff_tables fontless_builder posix_paths
               ascii_text 5 [row_of sample_path; row_of other_path]
               "File Location" None two_slide_disk))
   = Raise SystemExit /\
   snd (fst (@switch_labels_from_file tiff_tables fontless_builder posix_paths
               ascii_text 5 [row_of sample_path; row_of other_path]
               "File Location" None two_slide_disk)) sample_path
   <> Some sample_slide /\
   snd (fst (@switch_labels_from_file tiff_tables fontless_builder posix_paths
               ascii_text 5 [row_of sample_path; row_of other_path]
               "File Location" None two_slide_disk)) other_path
   = Some sample_slide).
Proof.
  split.
  - split; [reflexivity|]. split; [reflexivity|]. vm_compute. discriminate.
  - split; [reflexivity|]. split; [vm_compute; discriminate|reflexivity].
Qed.

(** C8 as amended.  The first record names a file that is not on the
    disk: [FileNotFoundError] is printed and the second record is
    processed.  Without the font, the first record ends the batch with
    [SystemExit], the disk being as the zero-fill of its slide left it. *)
Lemma switcher_errors_do_not_stop_the_batch_witness :
  @switch_labels_from_file tiff_tables sample_builder posix_paths ascii_text 5
    [row_of "slides/00800.svs"; row_of sample_path] "File Location" None
    sample_disk
  = (let '(result, fs2, out') :=
       @switch_labels_from_file tiff_tables sample_builder posix_paths ascii_text
         5 [row_of sample_path] "File Location" None sample_disk in
     (result, fs2, (([] ++ [Failure FileNotFoundError]) ++ out')%list)) /\
  @switch_labels_from_file tiff_tables fontless_builder posix_paths ascii_text 5
    [row_of sample_path; row_of other_path] "File Location" None two_slide_disk
  = (Raise SystemExit,
     snd (@_get_slide_offset tiff_tables 5 sample_path true two_slide_disk), []).
Proof.
  split.
  - apply (proj1 (@switcher_errors_do_not_stop_the_batch tiff_tables
                    sample_builder posix_paths ascii_text 5 "File Location" None
                    (row_of "slides/00800.svs") [row_of sample_path] sample_disk)
             (mkJob "slides/00800.svs" None None None None None) []
             FileNotFoundError sample_disk eq_refl eq_refl).
    discriminate.
  - apply (proj1 (proj2 (proj2 (@switcher_errors_do_not_stop_the_batch
                                  tiff_tables fontless_builder posix_paths
                                  ascii_text 5 "File Location" None
                                  (row_of sample_path) [row_of other_path]
                                  two_slide_disk)))
             (mkJob sample_path None None None None None) [] 24
             (snd (@_get_slide_offset tiff_tables 5 sample_path true
                     two_slide_disk))
             OSError OSError eq_refl eq_refl eq_refl eq_refl eq_refl eq_refl).
Defined.

(** C9, false as stated: the directory at 16 has two records, both with
    tag 256; the directory that [_read_IFDs] stores has one entry, with the
    fields of the second record. *)
Lemma duplicate_tags_keep_one_entry :
  entry_count blob_with_duplicate_tag 16 = 2 /\
  exists self' s',
    @_read_IFDs tiff_tables (new_BigTiffFile None) 16
      (mkStream blob_with_duplicate_tag 16) = (Ok (self', 0), s') /\
    tiff_info self' = [(1, [(256, mkEntry 44 3 1 56 20 (VTuple [EInt 20]))])].
Proof.
  split; [reflexivity|]. eexists. eexists. split; vm_compute; reflexivity.
Qed.

(** C9 as amended, on the directory of the sample label replacement. *)
Lemma read_IFDs_keeps_one_entry_per_tag_witness :
  exists self' s' info,
    @_read_IFDs tiff_tables (new_BigTiffFile None) 16
      (mkStream sample_label_blob 16)
    = (Ok (self', on_disk_next sample_label_blob 16), s') /\
    content s' = sample_label_blob /\
    Z.of_nat (List.length (records_of sample_label_blob 16))
    = entry_count sample_label_blob 16 /\
    dict_get (directory_count (new_BigTiffFile None) + 1) (tiff_info self')
    = Some info /\
    dict_keys info = first_occurrences [] (map fst (records_of sample_label_blob 16)) /\
    (forall tag, dict_get tag info = last_assoc tag (records_of sample_label_blob 16)) /\
    (NoDup (map fst (records_of sample_label_blob 16)) ->
     info = records_of sample_label_blob 16).
Proof.
  apply (@read_IFDs_keeps_one_entry_per_tag tiff_tables (new_BigTiffFile None)
           sample_label_blob 16 16 (records_of sample_label_blob 16)).
  reflexivity.
Defined.

(** C10 on a record whose slide is numbered 562. *)
Lemma slides_below_563_are_skipped_witness :
  (forall j,
     fst (@prepare_row posix_paths ascii_text "File Location" None (row_of "slides/00562.svs"))
     <> Ok (Some j)) /\
  snd (fst (@process_row tiff_tables sample_builder posix_paths ascii_text 5
              "File Location" None (row_of "slides/00562.svs") sample_disk))
  = sample_disk /\
  (fst (@prepare_row posix_paths ascii_text "File Location" None (row_of "slides/00562.svs"))
   = Ok None \/
   exists e,
     fst (@prepare_row posix_paths ascii_text "File Location" None (row_of "slides/00562.svs"))
     = Raise e) /\
  ((forall e,
      fst (@prepare_row posix_paths ascii_text "File Location" None (row_of "slides/00562.svs"))
      <> Raise e) ->
   fst (fst (@process_row tiff_tables sample_builder posix_paths ascii_text 5
               "File Location" None (row_of "slides/00562.svs") sample_disk))
   = Ok tt).
Proof.
  apply (proj1 (@slides_below_563_are_skipped tiff_tables sample_builder
                  posix_paths ascii_text 5 "File Location" None (row_of "slides/00562.svs")
                  sample_disk 562 eq_refl)).
  lia.
Defined.

(* ------------------------------------------------------------------ *)
(** ** Concrete runs of the further properties *)

(** X3 on a sample.  The 12-byte description of the sample label replacement, fetched
    from offset 132 while the stream stands at 76. *)
Lemma _ifd_value_restores_the_stream_witness :
  snd (@_ifd_value tiff_tables 270 2 12 76 132 (mkStream sample_label_blob 76))
  = mkStream sample_label_blob 76.
Proof.
  apply (@_ifd_value_restores_the_stream tiff_tables 270 2 12 76 132
           (mkStream sample_label_blob 76)
           (decoded (@value_at tiff_tables sample_label_blob 270 2 12 76 132)));
    [lia|lia|cbn [position]; lia|reflexivity].
Defined.

(** X4 on a sample.  The second record of this directory has value type 99: reading the
    directory raises [KeyError]. *)
Lemma read_IFDs_raises_for_first_bad_record_witness :
  fst (@_read_IFDs tiff_tables (new_BigTiffFile None) 16
         (mkStream blob_with_unknown_type 16)) = Raise KeyError.
Proof.
  apply (@read_IFDs_raises_for_first_bad_record tiff_tables (new_BigTiffFile None)
           blob_with_unknown_type 16 16 1
           [(256, mkEntry 24 3 1 36 10 (VTuple [EInt 10]))] KeyError).
  - lia.
  - vm_compute. discriminate.
  - vm_compute. split; [discriminate|reflexivity].
  - reflexivity.
  - reflexivity.
Defined.


(** X6 on a sample.  The two directories of the sample slide, at 24 and 100. *)
Lemma chain_is_read_in_order_witness :
  fst (@BigTiffFile_of_stream tiff_tables 5 (mkStream sample_slide 0))
  = Ok (object_of_directories None (chain_of sample_slide)) /\
  hd 0 (map (fun d => fst (fst d)) (chain_of sample_slide) ++ [0])
  = first_directory sample_slide /\
  map snd (chain_of sample_slide)
  = tl (map (fun d => fst (fst d)) (chain_of sample_slide) ++ [0]).
Proof.
  apply (@chain_is_read_in_order tiff_tables 5 sample_slide (chain_of sample_slide));
    reflexivity.
Defined.

(** X7 on a sample.  A label replacement stored as a slide has one directory. *)
Lemma fewer_than_two_directories_raise_KeyError_witness :
  @BigTiffFile_of_path tiff_tables 5 replacement_disk sample_path = Raise KeyError.
Proof.
  apply (@fewer_than_two_directories_raise_KeyError tiff_tables 5 replacement_disk
           sample_path sample_label_blob (chain_of sample_label_blob)).
  - reflexivity.
  - reflexivity.
  - reflexivity.
  - vm_compute. lia.
Defined.

(** X8 on a sample.  A directory that names itself as the next one. *)
Lemma cyclic_chain_never_returns_witness :
  @BigTiffFile_of_path tiff_tables 1000
    (fs_write sample_path blob_with_cycle empty_disk) sample_path = OutOfFuel.
Proof.
  apply (@cyclic_chain_never_returns tiff_tables
           (fs_write sample_path blob_with_cycle empty_disk) sample_path
           blob_with_cycle 16 0 0); reflexivity.
Defined.

(** X9 on a sample.  The description "none", four bytes held in the slot itself. *)
Lemma inline_description_never_matches_witness :
  @label_test tiff_tables 7
    (Some (decoded (@value_at tiff_tables slide_with_unmatched_label 270 2 4 64 1701736302)))
  = Ok false /\
  @macro_test tiff_tables 7
    (Some (decoded (@value_at tiff_tables slide_with_unmatched_label 270 2 4 64 1701736302)))
  = Ok true.
Proof.
  apply (@inline_description_never_matches tiff_tables slide_with_unmatched_label
           2 4 64 1701736302 7 Fmt_c).
  - reflexivity.
  - vm_compute. discriminate.
  - reflexivity.
Defined.

(** X10 on a sample.  Two directories without a compression tag. *)
Lemma locator_missing_tags_raise_KeyError_witness :
  @_get_label_and_macro_info tiff_tables
    (object_of_directories None (chain_of blob_without_compression))
  = Raise KeyError.
Proof.
  apply (proj1 (@locator_missing_tags_raise_KeyError tiff_tables
                  (object_of_directories None (chain_of blob_without_compression))
                  (dict_of_list (records_of blob_without_compression 16))
                  eq_refl)).
  reflexivity.
Defined.

(** X11 on a sample.  The sample slide: label directory 1 at 24, macro directory 2 at 100. *)
Lemma label_and_macro_are_the_last_two_directories_witness :
  exists self,
    @BigTiffFile_of_path tiff_tables 5 sample_disk sample_path = Ok self /\
    file_path self = Some sample_path /\
    directory_count self = 2 /\
    _label self
    = Some (mkAux 1 (dict_of_list (records_of sample_slide 24)) 16 4) /\
    _macro self
    = Some (mkAux 2 (dict_of_list (records_of sample_slide 100)) 20 4) /\
    @label_IFD_offset_adjustment self = Ok 24.
Proof.
  apply (@label_and_macro_are_the_last_two_directories tiff_tables 5 sample_disk
           sample_path sample_slide [] 24 100 100 0
           (records_of sample_slide 24) (records_of sample_slide 100)
           (entry_of (records_of sample_slide 24) 259)
           (entry_of (records_of sample_slide 24) 273)
           (entry_of (records_of sample_slide 24) 279)
           (entry_of (records_of sample_slide 100) 259)
           (entry_of (records_of sample_slide 100) 273)
           (entry_of (records_of sample_slide 100) 279)); reflexivity.
Defined.

(** X12 on a sample.  The sample slide, de-identified and read back. *)
Lemma de_identified_label_reads_as_zeros_witness :
  fst (de_identify_slide (parsed sample_disk sample_path) sample_disk) = Ok tt /\
  _get_label_data (parsed sample_disk sample_path)
    (snd (de_identify_slide (parsed sample_disk sample_path) sample_disk))
  = Ok [x00; x00; x00; x00].
Proof.
  apply (de_identified_label_reads_as_zeros (parsed sample_disk sample_path)
           sample_disk sample_path sample_slide
           (descriptor (_label (parsed sample_disk sample_path)))
           (descriptor (_macro (parsed sample_disk sample_path))));
    try reflexivity; vm_compute; repeat split; discriminate.
Defined.

(** X13 on a sample.  The sample slide, de-identified twice. *)
Lemma de_identify_twice_is_once_witness :
  fst (de_identify_slide (parsed sample_disk sample_path)
         (snd (de_identify_slide (parsed sample_disk sample_path) sample_disk)))
  = Ok tt /\
  forall q,
    snd (de_identify_slide (parsed sample_disk sample_path)
           (snd (de_identify_slide (parsed sample_disk sample_path) sample_disk))) q
    = snd (de_identify_slide (parsed sample_disk sample_path) sample_disk) q.
Proof.
  apply (de_identify_twice_is_once (parsed sample_disk sample_path)
           sample_disk sample_path sample_slide
           (descriptor (_label (parsed sample_disk sample_path)))
           (descriptor (_macro (parsed sample_disk sample_path))));
    try reflexivity; vm_compute; repeat split; discriminate.
Defined.

(** X14 on a sample.  A switcher for one slide, with a second slide on the disk. *)
Lemma switcher_touches_only_its_slide_witness :
  snd (@LabelSwitcher_init tiff_tables sample_builder 5 sample_path true
         None None None None None two_slide_disk) other_path
  = Some sample_slide.
Proof.
  apply (proj1 (@switcher_touches_only_its_slide tiff_tables sample_builder 5
                  sample_path true None None None None None two_slide_disk
                  other_path ltac:(discriminate))).
Defined.

(** X15 on a sample.  A table that names one of the two slides on the disk. *)
Lemma batch_touches_only_named_slides_witness :
  snd (fst (@switch_labels_from_file tiff_tables sample_builder posix_paths ascii_text 5
              [row_of sample_path] "File Location" None two_slide_disk))
    other_path
  = Some sample_slide.
Proof.
  apply (@batch_touches_only_named_slides tiff_tables sample_builder posix_paths ascii_text 5
           [row_of sample_path] "File Location" None two_slide_disk other_path).
  intros r [<-|[]]. vm_compute. discriminate.
Defined.

(** X16 on a sample.  The record of the sample slide, numbered 600. *)
Lemma switcher_is_built_only_for_unprotected_path_text_witness :
  @record_path posix_paths "File Location" None (row_of sample_path)
  = Ok sample_path /\
  str_contains "DigitalPathology" sample_path = false /\
  exists n,
    @slide_number posix_paths ascii_text "File Location" None (row_of sample_path)
    = Ok n /\ 563 <= n.
Proof.
  apply (@switcher_is_built_only_for_unprotected_path_text posix_paths ascii_text
           "File Location" None (row_of sample_path)
           (mkJob sample_path None None None None None)).
  reflexivity.
Defined.

(** X17 on a sample.  The description and the strip of the sample label replacement, bytes
    132 to 147, after patching for insertion point 24. *)
Lemma update_ifd_keeps_the_rest_witness :
  exists r file',
    @update_ifd tiff_tables Label 1 24 (mkStream sample_label_blob 0)
    = (Ok r, file') /\
    slice (content file') 132 16 = slice sample_label_blob 132 16.
Proof.
  apply (@update_ifd_keeps_the_rest tiff_tables Label 0 sample_label_blob 24
           (records_of sample_label_blob 16) 132 16).
  - reflexivity.
  - vm_compute. discriminate.
  - reflexivity.
  - reflexivity.
  - reflexivity.
  - intros _. rewrite blen_sample_label_blob. lia.
  - lia.
  - lia.
  - intros t e Hget _. right.
    pose proof (@on_disk_slot_before_next tiff_tables sample_label_blob 16
                  (records_of sample_label_blob 16) t e eq_refl Hget) as H.
    change (record_offset 16 (entry_count sample_label_blob 16)) with 124 in H.
    lia.
  - intros _. right. vm_compute. discriminate.
Defined.

(** X18 on a sample.  A header alone. *)
Lemma update_ifd_without_directory_raises_KeyError_witness :
  exists file',
    @update_ifd tiff_tables Label 1 24 (mkStream blob_without_directory 0)
    = (Raise KeyError, file') /\
    content file' = blob_without_directory.
Proof.
  apply (@update_ifd_without_directory_raises_KeyError tiff_tables Label 0
           blob_without_directory 24); reflexivity.
Defined.

(** X19 on a sample.  The sample switcher on the sample slide: the label body of 132 bytes
    at 24, the macro body at 172. *)
Lemma switch_labels_splices_both_images_witness :
  exists out,
    switch_labels sample_switcher sample_disk
    = (Ok tt, fs_write (slide_path sample_switcher) out sample_disk) /\
    slice out 0 24 = slice sample_slide 0 24 /\
    slice out 24 (blen (body_of (_label_img sample_switcher)))
    = body_of (_label_img sample_switcher) /\
    slice out 172 (blen (body_of (_macro_img sample_switcher)))
    = body_of (_macro_img sample_switcher) /\
    blen sample_slide <= blen out.
Proof.
  apply (switch_labels_splices_both_images sample_switcher sample_disk sample_slide).
  - reflexivity.
  - vm_compute. split; discriminate.
  - vm_compute. discriminate.
Defined.

(** X20 on a sample.  A slide whose name does not start with a number, before a good one. *)
Lemma unreadable_slide_number_ends_the_batch_witness :
  exists e' out,
    @switch_labels_from_file tiff_tables sample_builder posix_paths ascii_text 5
      [row_of "slides/abc.svs"; row_of sample_path] "File Location" None sample_disk
    = (Raise e', sample_disk, out).
Proof.
  apply (@unreadable_slide_number_ends_the_batch tiff_tables sample_builder
           posix_paths ascii_text 5 "File Location" None (row_of "slides/abc.svs")
           [row_of sample_path] sample_disk ValueError).
  reflexivity.
Defined.

(** X21 on a sample.  The sample replacements, for the sample slide. *)
Lemma constructor_places_macro_after_label_image_witness :
  exists self,
    @LabelSwitcher_init tiff_tables sample_builder 5 sample_path true
      None None None None None sample_disk
    = (Ok self,
       snd (@_get_slide_offset tiff_tables 5 sample_path true sample_disk)) /\
    slide_path self = sample_path /\
    _slide_offset_adjustment self = 24 /\
    blen (content (_label_img self)) = blen sample_label_blob /\
    blen (content (_macro_img self)) = blen sample_macro_blob /\
    _next_ifd_offset_adjustment self
    = 24 + blen (body_of (_label_img self)) + 16.
Proof.
  apply (@constructor_places_macro_after_label_image tiff_tables sample_builder 4
           sample_path true None None None None None sample_disk 24
           (records_of sample_label_blob 16) (records_of sample_macro_blob 16)
           (mkStream sample_label_blob 0) (mkStream sample_macro_blob 0));
    try reflexivity; try (vm_compute; discriminate).
  vm_compute. split; [discriminate|reflexivity].
Defined.
